(** * lightwalletd: the darkside chain state machine and the mempool filter

    A shallow embedding of [common/darkside.go] (the synthetic chain used
    by darksidewalletd) and of the mempool part of the gRPC front end
    ([GetMempoolTx], [MempoolFilter] and the darkside streamer handlers),
    with the properties stated for them.

    Conventions.
    - A Go [[]byte] is a [list Z] whose elements lie in [0, 256); a [uint8]
      increment is written with its wrap-around ([mod 256]).
    - A Go [int] is 64 bits wide.  Heights come from [GetHeight], which
      yields values in [-1, 2^32), and slice lengths are bounded by memory,
      so the sums of a height and a length below cannot wrap; they are
      written over [Z].  [int32] arithmetic is written with its wrap-around.
    - A Go [error] built by [errors.New] is its message, a [string].
    - The package-level variable [state] is threaded explicitly: every
      operation takes the state and returns the new one.  A runtime panic
      and [Log.Fatal] are outcomes of their own.
    - Block buffers are used by value.  Every staged buffer is freshly
      allocated (by [hex.DecodeString] or [make]), its capacity is its
      length, and a buffer is an element of [activeBlocks] at most once;
      the one alias that is visible, a staged buffer that [addBlockActive]
      patches in place, is written back into [stagedBlocks]. *)

From Stdlib Require Import ZArith Lia String Ascii Bool.
From stdpp Require Import base list strings gmap sorting.

Local Open Scope Z_scope.

(** ** Bytes, errors and outcomes *)

Abbreviation bytes := (list Z) (only parsing).
Abbreviation error := string (only parsing).

Inductive outcome (A : Type) : Type :=
| Return (a : A)
| Panic                      (* a runtime panic: index out of range, nil dereference *)
| Fatal.                     (* Log.Fatal: the process exits *)
Arguments Return {A} a.
Arguments Panic {A}.
Arguments Fatal {A}.

(** [make([]byte, n)] *)
Definition make_bytes (n : nat) : bytes := replicate n 0.

(** [copy(dst[lo:hi], src)]: slicing panics when [hi] exceeds the buffer;
    [copy] moves [min (hi - lo) (len src)] bytes. *)
Definition copy_into (dst : bytes) (lo hi : nat) (src : bytes) : option bytes :=
  if decide (hi ≤ length dst)%nat then
    let n := Nat.min (hi - lo) (length src) in
    Some (take lo dst ++ take n src ++ drop (lo + n) dst)
  else None.

(** [b[i]++] on a [[]byte]: panics out of range, wraps at 256. *)
Definition incr_byte (i : nat) (b : bytes) : option bytes :=
  match b !! i with
  | Some v => Some (<[i := (v + 1) mod 256]> b)
  | None => None
  end.

(** ** encoding/hex *)

Definition hexdigit (n : Z) : ascii :=
  ascii_of_nat (Z.to_nat (if n <? 10 then 48 + n else 87 + n)).

(** [fmt.Sprintf("%02x", v)] for [0 <= v < 256], also one byte of
    [hex.EncodeToString]. *)
Definition hex2 (v : Z) (rest : string) : string :=
  String (hexdigit (v / 16)) (String (hexdigit (v mod 16)) rest).

Fixpoint hex_EncodeToString (b : bytes) : string :=
  match b with
  | [] => EmptyString
  | v :: b' => hex2 v (hex_EncodeToString b')
  end.

Definition fromHexChar (c : ascii) : option Z :=
  let n := Z.of_nat (nat_of_ascii c) in
  if (48 <=? n) && (n <=? 57) then Some (n - 48)
  else if (97 <=? n) && (n <=? 102) then Some (n - 87)
  else if (65 <=? n) && (n <=? 70) then Some (n - 55)
  else None.

(** [hex.DecodeString]: [None] stands for its two errors (a byte that is
    not a hex digit, odd length). *)
Fixpoint hex_DecodeString (s : string) : option bytes :=
  match s with
  | EmptyString => Some []
  | String _ EmptyString => None
  | String p (String q s') =>
      match fromHexChar p, fromHexChar q with
      | Some a, Some b =>
          match hex_DecodeString s' with
          | Some r => Some ((a * 16 + b) :: r)
          | None => None
          end
      | _, _ => None
      end
  end.

(** ** strings, strconv, encoding/json, unicode/utf8 *)

Definition code (c : ascii) : Z := Z.of_nat (nat_of_ascii c).

Fixpoint string_drop (n : nat) (s : string) : string :=
  match n, s with
  | O, _ => s
  | S n', String _ s' => string_drop n' s'
  | S _, EmptyString => EmptyString
  end.

(** [strings.Replace(s, old, new, 1)] for a non-empty [old]: the first
    occurrence of [old] is replaced. *)
Fixpoint strings_Replace1 (old new s : string) {struct s} : string :=
  if String.prefix old s then new +:+ string_drop (String.length old) s
  else match s with
       | EmptyString => EmptyString
       | String c s' => String c (strings_Replace1 old new s')
       end.

Fixpoint atoi_digits (s : string) (acc : Z) : option Z :=
  match s with
  | EmptyString => Some acc
  | String c s' =>
      if (48 <=? code c) && (code c <=? 57)
      then atoi_digits s' (acc * 10 + (code c - 48))
      else None
  end.

(** [strconv.Atoi]: an optional sign and decimal digits, within [int]. *)
Definition strconv_Atoi (s : string) : option Z :=
  let unsigned (t : string) :=
    match t with
    | EmptyString => None
    | _ => atoi_digits t 0
    end in
  let v :=
    match s with
    | EmptyString => None
    | String c s' =>
        if code c =? 45 then Z.opp <$> unsigned s'
        else if code c =? 43 then unsigned s'
        else unsigned s
    end in
  match v with
  | Some n => if (- 2 ^ 63 <=? n) && (n <? 2 ^ 63) then Some n else None
  | None => None
  end.

Definition dquote : ascii := ascii_of_nat 34.

Fixpoint json_string_body (s : string) : option string :=
  match s with
  | EmptyString => None
  | String c s' =>
      if code c =? 34 then (match s' with EmptyString => Some EmptyString | _ => None end)
      else if (code c =? 92) || (code c <? 32) then None
      else String c <$> json_string_body s'
  end.

(** [json.Unmarshal(text, &str)] for a JSON text that is a string literal
    without escapes; any other text is an error. *)
Definition json_Unmarshal_string (text : string) : option string :=
  match text with
  | String c s' => if code c =? 34 then json_string_body s' else None
  | EmptyString => None
  end.

(** [string(r)] for an integer [r]: the UTF-8 encoding of the code point,
    of U+FFFD when [r] is not a valid one. *)
Definition string_of_rune (r : Z) : bytes :=
  if (r <? 0) || (1114111 <? r) || ((55296 <=? r) && (r <=? 57343))
  then [239; 191; 189]
  else if r <? 128 then [r]
  else if r <? 2048 then [Z.lor 192 (Z.shiftr r 6); Z.lor 128 (Z.land r 63)]
  else if r <? 65536
  then [Z.lor 224 (Z.shiftr r 12); Z.lor 128 (Z.land (Z.shiftr r 6) 63);
        Z.lor 128 (Z.land r 63)]
  else [Z.lor 240 (Z.shiftr r 18); Z.lor 128 (Z.land (Z.shiftr r 12) 63);
        Z.lor 128 (Z.land (Z.shiftr r 6) 63); Z.lor 128 (Z.land r 63)].

(** Two's-complement wrap-around of an [int32]. *)
Definition wrap32 (z : Z) : Z := (z + 2 ^ 31) mod 2 ^ 32 - 2 ^ 31.

(** Little-endian bytes of a 32-bit value. *)
Definition le32 (z : Z) : bytes :=
  [Z.land z 255; Z.land (Z.shiftr z 8) 255; Z.land (Z.shiftr z 16) 255;
   Z.land (Z.shiftr z 24) 255].

(** ** package parser *)

(** Modelled from the spec: package [parser] ([Block.ParseFromSlice],
    [Block.GetHeight], [Block.GetEncodableHash]) is not among the sources;
    it is the interface below.  A parsed block keeps slices into the buffer
    it was parsed from and computes its hash on demand (the re-link step
    "recomputes each block's own hash after each step"), so the height and
    the hash are functions of the buffer's contents at the time of the
    call.  [ParseFromSlice] returns the error or the unparsed rest. *)
Class BlockParser := {
  ParseFromSlice : bytes → error + bytes;
  GetHeight : bytes → Z;
  GetEncodableHash : bytes → bytes;
  (* the display hash and the raw bytes of each transaction of the block *)
  Transactions : bytes → list (bytes * bytes);
}.

(** [walletrpc.CompactTx] (generated code): the fields that are read. *)
Record CompactTx := {
  Index : Z;
  Hash : bytes;
  Fee : Z;
  Spends : list bytes;
  Outputs : list bytes;
}.

(** [&walletrpc.CompactTx{}] *)
Definition emptyCompactTx : CompactTx :=
  {| Index := 0; Hash := []; Fee := 0; Spends := []; Outputs := [] |}.

(** Modelled from the spec: [parser.Transaction] is not among the sources.
    [tx_ParseFromSlice] returns the transaction as far as it was parsed,
    the unparsed rest and the error, the way the Go method does. *)
Class TxParser := {
  Transaction : Type;
  tx_ParseFromSlice : bytes → Transaction * bytes * option error;
  GetDisplayHash : Transaction → bytes;
  HasSaplingElements : Transaction → bool;
  ToCompact : Transaction → Z → CompactTx;
}.

(** [crypto/sha256]: [Sum256] returns a [[32]byte]. *)
Definition array32 : Type := { b : bytes | length b = 32%nat }.

Class SHA256 := { Sum256 : bytes → array32 }.

(** ** common/darkside.go *)

Module common.

Record stagedTx := { height : Z; txbytes : bytes }.

Record darksideState := {
  resetted : bool;
  startHeight : Z;
  saplingActivation : Z;
  branchID : string;
  chainName : string;
  latestHeight : Z;
  activeBlocks : list bytes;
  stagedBlocks : list bytes;
  incomingTransactions : list bytes;
  stagedTransactions : list stagedTx;
}.

Definition set_startHeight (v : Z) (s : darksideState) : darksideState :=
  {| resetted := resetted s; startHeight := v;
     saplingActivation := saplingActivation s; branchID := branchID s;
     chainName := chainName s; latestHeight := latestHeight s;
     activeBlocks := activeBlocks s; stagedBlocks := stagedBlocks s;
     incomingTransactions := incomingTransactions s;
     stagedTransactions := stagedTransactions s |}.

Definition set_latestHeight (v : Z) (s : darksideState) : darksideState :=
  {| resetted := resetted s; startHeight := startHeight s;
     saplingActivation := saplingActivation s; branchID := branchID s;
     chainName := chainName s; latestHeight := v;
     activeBlocks := activeBlocks s; stagedBlocks := stagedBlocks s;
     incomingTransactions := incomingTransactions s;
     stagedTransactions := stagedTransactions s |}.

Definition set_activeBlocks (v : list bytes) (s : darksideState) : darksideState :=
  {| resetted := resetted s; startHeight := startHeight s;
     saplingActivation := saplingActivation s; branchID := branchID s;
     chainName := chainName s; latestHeight := latestHeight s;
     activeBlocks := v; stagedBlocks := stagedBlocks s;
     incomingTransactions := incomingTransactions s;
     stagedTransactions := stagedTransactions s |}.

Definition set_stagedBlocks (v : list bytes) (s : darksideState) : darksideState :=
  {| resetted := resetted s; startHeight := startHeight s;
     saplingActivation := saplingActivation s; branchID := branchID s;
     chainName := chainName s; latestHeight := latestHeight s;
     activeBlocks := activeBlocks s; stagedBlocks := v;
     incomingTransactions := incomingTransactions s;
     stagedTransactions := stagedTransactions s |}.

Definition set_incomingTransactions (v : list bytes) (s : darksideState) : darksideState :=
  {| resetted := resetted s; startHeight := startHeight s;
     saplingActivation := saplingActivation s; branchID := branchID s;
     chainName := chainName s; latestHeight := latestHeight s;
     activeBlocks := activeBlocks s; stagedBlocks := stagedBlocks s;
     incomingTransactions := v;
     stagedTransactions := stagedTransactions s |}.

Definition set_stagedTransactions (v : list stagedTx) (s : darksideState) : darksideState :=
  {| resetted := resetted s; startHeight := startHeight s;
     saplingActivation := saplingActivation s; branchID := branchID s;
     chainName := chainName s; latestHeight := latestHeight s;
     activeBlocks := activeBlocks s; stagedBlocks := stagedBlocks s;
     incomingTransactions := incomingTransactions s;
     stagedTransactions := v |}.

(** The zero value of [darksideState], the state at process start. *)
Definition zero_state : darksideState :=
  {| resetted := false; startHeight := 0; saplingActivation := 0;
     branchID := EmptyString; chainName := EmptyString; latestHeight := 0;
     activeBlocks := []; stagedBlocks := []; incomingTransactions := [];
     stagedTransactions := [] |}.

(** The messages of the errors the state machine returns, and the classes
    the specification sorts them into. *)
Definition errResetFirst : error := "please call Reset first".
Definition errBlockTooLong : error := "block serialization is too long".
Definition errPrevTooLong : error := "block is too long".
Definition errTxTooLow : error := "transaction height too low".
Definition errTxTooHigh : error := "transaction height too high".
Definition errTooManyTx : error := "too many transactions in a block (max 253)".
Definition errNoBlock : error := "one or more transactions have no block".

Definition FailedPrecondition (e : error) : Prop := e = errResetFirst ∨ e = errNoBlock.
Definition OutOfRange (e : error) : Prop := e = errTxTooLow ∨ e = errTxTooHigh.
Definition ResourceExhausted (e : error) : Prop := e = errTooManyTx.

(** [DarksideReset]; the ingestor and the block cache are external. *)
Definition DarksideReset (sa : Z) (bi cn : string) (s : darksideState)
  : darksideState * option error :=
  ({| resetted := true; startHeight := 0; saplingActivation := sa;
      branchID := bi; chainName := cn; latestHeight := -1;
      activeBlocks := []; stagedBlocks := []; incomingTransactions := [];
      stagedTransactions := [] |}, None).

Section WithParser.
Context `{BlockParser} `{TxParser} `{SHA256}.

(** The previous-hash field of a block buffer, [blockBytes[4:4+32]]. *)
Definition prevHashField (blockBytes : bytes) : bytes := take 32 (drop 4 blockBytes).

Definition addBlockActive (s : darksideState) (blockBytes : bytes)
  : outcome (darksideState * option error) :=
  match ParseFromSlice blockBytes with
  | inl err => Return (s, Some err)
  | inr rest =>
    if negb (length rest =? 0)%nat then Return (s, Some errBlockTooLong) else
    let blockHeight := GetHeight blockBytes in
    let s :=
      if blockHeight >? startHeight s + Z.of_nat (length (activeBlocks s))
      then set_activeBlocks [] s
      else if blockHeight <? startHeight s
      then set_activeBlocks [] s
      else set_activeBlocks
             (take (Z.to_nat (blockHeight - startHeight s)) (activeBlocks s)) s in
    if (length (activeBlocks s) =? 0)%nat then
      let s := set_startHeight blockHeight s in
      Return (set_activeBlocks (activeBlocks s ++ [blockBytes]) s, None)
    else
      match last (activeBlocks s) with
      | None => Panic
      | Some prevblock =>
        match ParseFromSlice prevblock with
        | inl err => Return (s, Some err)
        | inr rest =>
          if negb (length rest =? 0)%nat then Return (s, Some errPrevTooLong) else
          match copy_into blockBytes 4 36 (GetEncodableHash prevblock) with
          | None => Panic
          | Some blockBytes =>
              Return (set_activeBlocks (activeBlocks s ++ [blockBytes]) s, None)
          end
        end
      end
  end.

(** The loop of [setPrevhash] over [activeBlocks], with the running
    [prevhash]. *)
Fixpoint setPrevhash_loop (prevhash : bytes) (blocks : list bytes)
  : outcome (list bytes) :=
  match blocks with
  | [] => Return []
  | blockBytes :: blocks' =>
    match ParseFromSlice blockBytes with
    | inl _ => Fatal
    | inr rest =>
      if negb (length rest =? 0)%nat then Fatal else
      match copy_into blockBytes 4 36 prevhash with
      | None => Panic
      | Some blockBytes =>
        match setPrevhash_loop (GetEncodableHash blockBytes) blocks' with
        | Return done => Return (blockBytes :: done)
        | Panic => Panic
        | Fatal => Fatal
        end
      end
    end
  end.

Definition setPrevhash (s : darksideState) : outcome darksideState :=
  match setPrevhash_loop (make_bytes 32) (activeBlocks s) with
  | Return blocks => Return (set_activeBlocks blocks s)
  | Panic => Panic
  | Fatal => Fatal
  end.

(** The first loop of [DarksideApplyStaged]: [i] is the index of the head
    of [todo] in [stagedBlocks]. *)
Fixpoint addStagedBlocks (i : nat) (todo : list bytes) (s : darksideState)
  : outcome (darksideState * option error) :=
  match todo with
  | [] => Return (s, None)
  | blockBytes :: todo' =>
    match addBlockActive s blockBytes with
    | Return (s, None) =>
        let patched := default blockBytes (last (activeBlocks s)) in
        addStagedBlocks (S i) todo'
          (set_stagedBlocks (<[i := patched]> (stagedBlocks s)) s)
    | r => r
    end
  end.

(** The body of the second loop of [DarksideApplyStaged]. *)
Definition applyStagedTx (s : darksideState) (tx : stagedTx)
  : outcome (darksideState * option error) :=
  if height tx <? startHeight s then Return (s, Some errTxTooLow) else
  if height tx >=? startHeight s + Z.of_nat (length (activeBlocks s))
  then Return (s, Some errTxTooHigh) else
  let index := Z.to_nat (height tx - startHeight s) in
  match activeBlocks s !! index with
  | None => Panic
  | Some block =>
    match block !! 1487%nat with
    | None => Panic
    | Some count =>
      if count =? 253 then Return (s, Some errTooManyTx) else
      match incr_byte 1487 block with
      | None => Panic
      | Some block =>
        match incr_byte 68 block with
        | None => Panic
        | Some block =>
          let block := block ++ txbytes tx in
          Return (set_activeBlocks (<[index := block]> (activeBlocks s)) s, None)
        end
      end
    end
  end.

Fixpoint applyStagedTxs (txs : list stagedTx) (s : darksideState)
  : outcome (darksideState * option error) :=
  match txs with
  | [] => Return (s, None)
  | tx :: txs' =>
    match applyStagedTx s tx with
    | Return (s, None) => applyStagedTxs txs' s
    | r => r
    end
  end.

(** [DarksideApplyStaged], the Commit operation.  Starting and stopping
    the ingestor is external. *)
Definition DarksideApplyStaged (s : darksideState) (height : Z)
  : outcome (darksideState * option error) :=
  if negb (resetted s) then Return (s, Some errResetFirst) else
  match addStagedBlocks 0 (stagedBlocks s) s with
  | Return (s, None) =>
    let s := set_stagedBlocks [] s in
    match applyStagedTxs (stagedTransactions s) s with
    | Return (s, None) =>
      if (0 <? length (stagedTransactions s))%nat then Return (s, Some errNoBlock) else
      let s := set_stagedTransactions [] s in
      match setPrevhash s with
      | Return s => Return (set_latestHeight height s, None)
      | Panic => Panic
      | Fatal => Fatal
      end
    | r => r
    end
  | r => r
  end.

(** [DarksideGetIncomingTransactions] *)
Definition DarksideGetIncomingTransactions (s : darksideState) : list bytes :=
  incomingTransactions s.

(** What [http.Get] and the line scanner deliver to [DarksideStageBlocks]:
    the request fails, or the body is read as lines up to the end or up to
    a scanner error. *)
Inductive httpResponse :=
| GetFailed (err : error)
| Body (lines : list string) (scanErr : option error).

Definition errNotFound404 : error := "404: Not Found".
Definition errHex : error := "encoding/hex: invalid byte or odd length hex string".

Fixpoint stageLines (lines : list string) (scanErr : option error) (s : darksideState)
  : darksideState * option error :=
  match lines with
  | [] => (s, scanErr)
  | blockHex :: lines' =>
    if String.eqb blockHex errNotFound404 then (s, Some blockHex) else
    match hex_DecodeString blockHex with
    | None => (s, Some errHex)
    | Some blockBytes =>
        stageLines lines' scanErr
          (set_stagedBlocks (stagedBlocks s ++ [blockBytes]) s)
    end
  end.

(** [DarksideStageBlocks]; the response to the URL is an argument. *)
Definition DarksideStageBlocks (resp : httpResponse) (s : darksideState)
  : darksideState * option error :=
  if negb (resetted s) then (s, Some errResetFirst) else
  match resp with
  | GetFailed err => (s, Some err)
  | Body lines scanErr => stageLines lines scanErr s
  end.

(** [DarksideStageBlockStream] *)
Definition DarksideStageBlockStream (blockHex : string) (s : darksideState)
  : darksideState * option error :=
  match hex_DecodeString blockHex with
  | None => (s, Some errHex)
  | Some blockBytes => (set_stagedBlocks (stagedBlocks s ++ [blockBytes]) s, None)
  end.

(** [DarksideClearIncomingTransactions] *)
Definition DarksideClearIncomingTransactions (s : darksideState) : darksideState :=
  set_incomingTransactions [] s.

Definition errTxTooLong : error := "transaction serialization is too long".

(** [DarksideSendTransaction] *)
Definition DarksideSendTransaction (txHex : string) (s : darksideState)
  : darksideState * (option bytes * option error) :=
  if negb (resetted s) then (s, (None, Some errResetFirst)) else
  match hex_DecodeString txHex with
  | None => (s, (None, Some errHex))
  | Some txBytes =>
    match tx_ParseFromSlice txBytes with
    | (_, _, Some err) => (s, (None, Some err))
    | (tx, rest, None) =>
      if negb (length rest =? 0)%nat then (s, (None, Some errTxTooLong)) else
      (set_incomingTransactions (incomingTransactions s ++ [txBytes]) s,
       (Some (GetDisplayHash tx), None))
    end
  end.

(** [DarksideStageTransaction] *)
Definition DarksideStageTransaction (height : Z) (txBytes : bytes) (s : darksideState)
  : darksideState * option error :=
  if negb (resetted s) then (s, Some errResetFirst) else
  (set_stagedTransactions
     (stagedTransactions s ++ [{| height := height; txbytes := txBytes |}]) s,
   None).

(** ** The synthetic block builder *)

(** [parser.RawBlockHeader] *)
Record RawBlockHeader := {
  Version : Z;
  HashPrevBlock : bytes;
  HashMerkleRoot : bytes;
  HashFinalSaplingRoot : bytes;
  Time : Z;
  NBitsBytes : bytes;
  Nonce : bytes;
  Solution : bytes;
}.

(** Bitcoin's CompactSize encoding of a length below 2^16. *)
Definition compactSize (n : Z) : bytes :=
  if n <? 253 then [n] else [253; Z.land n 255; Z.land (Z.shiftr n 8) 255].

(** Modelled from the spec: [BlockHeader.MarshalBinary] is not among the
    sources.  The fields are written in the order of the record, the two
    integers as four little-endian bytes, the solution after its
    CompactSize length; these are the offsets that the comments of
    [DarksideStageBlocksCreate] give (0, 4, 36, 68, 100, 104, 108, 140 and
    143, length 1487). *)
Definition MarshalBinary (hdr : RawBlockHeader) : bytes :=
  le32 (Version hdr) ++ HashPrevBlock hdr ++ HashMerkleRoot hdr
  ++ HashFinalSaplingRoot hdr ++ le32 (Time hdr) ++ NBitsBytes hdr ++ Nonce hdr
  ++ compactSize (Z.of_nat (length (Solution hdr))) ++ Solution hdr.

Definition fakeCoinbaseTemplate : string :=
  "0400008085202f890100000000000000000000000000000000000000000000000000" +:+
  "00000000000000ffffffff2a03d12c0c00043855975e464b8896790758f824ceac97836" +:+
  "22c17ed38f1669b8a45ce1da857dbbe7950e2ffffffff02a0ebce1d000000001976a914" +:+
  "7ed15946ec14ae0cd8fa8991eb6084452eb3f77c88ac405973070000000017a914e445cf" +:+
  "a944b6f2bdacefbda904a81d5fdd26d77f8700000000000000000000000000000000000000".

(** The hex text of the coinbase transaction for [height]. *)
Definition fakeCoinbase (height : Z) : string :=
  strings_Replace1 "d12c0c00"
    (hex2 (Z.land height 255)
       (hex2 (Z.land (Z.shiftr height 8) 255)
          (hex2 (Z.land (Z.shiftr height 16) 255)
             (hex2 (Z.land (Z.shiftr height 24) 255) EmptyString))))
    fakeCoinbaseTemplate.

(** The loop of [DarksideStageBlocksCreate]; [n] iterations are left. *)
Fixpoint stageBlocksCreate_loop (n : nat) (height nonce : Z) (s : darksideState)
  : outcome (darksideState * option error) :=
  match n with
  | O => Return (s, None)
  | S n' =>
    match hex_DecodeString (fakeCoinbase height) with
    | None => Fatal
    | Some fakeCoinbaseBytes =>
      let hashOfTxnsAndHeight :=
        Sum256 (string_of_rune nonce ++ [35] ++ string_of_rune height) in
      let blockHeader :=
        {| Version := 4;
           HashPrevBlock := make_bytes 32;
           HashMerkleRoot := proj1_sig hashOfTxnsAndHeight;
           HashFinalSaplingRoot := make_bytes 32;
           Time := 1;
           NBitsBytes := make_bytes 4;
           Nonce := make_bytes 32;
           Solution := make_bytes 1344 |} in
      let headerBytes := MarshalBinary blockHeader in
      let blockBytes := [] in
      let blockBytes := blockBytes ++ headerBytes in
      let blockBytes := blockBytes ++ [1] in
      let blockBytes := blockBytes ++ fakeCoinbaseBytes in
      stageBlocksCreate_loop n' (wrap32 (height + 1)) nonce
        (set_stagedBlocks (stagedBlocks s ++ [blockBytes]) s)
    end
  end.

(** [DarksideStageBlocksCreate]; [height], [nonce] and [count] are
    [int32]. *)
Definition DarksideStageBlocksCreate (height nonce count : Z) (s : darksideState)
  : outcome (darksideState * option error) :=
  if negb (resetted s) then Return (s, Some errResetFirst) else
  stageBlocksCreate_loop (Z.to_nat count) height nonce s.

(** ** The mock zcashd *)

(** A reply of [darksideRawRequest]: JSON text, or the value that
    [json.Marshal] is applied to. *)
Inductive rpcReply :=
| NilReply
| RawJSON (text : string)
| Blockchaininfo (chain : string) (upgrade : string) (activationHeight : Z)
    (headers : Z) (chaintip nextblock : string)
| RawTransactionReply (hex : string) (height : Z).

Definition notFoundErr : error := "-8:".

Fixpoint findTx (txid : bytes) (txs : list (bytes * bytes)) : option bytes :=
  match txs with
  | [] => None
  | (h, raw) :: txs' => if decide (h = txid) then Some raw else findTx txid txs'
  end.

Fixpoint searchBlocks (txid : bytes) (blocks : list bytes) : rpcReply * option error :=
  match blocks with
  | [] => (NilReply, Some "-5: No information available about transaction")
  | b :: blocks' =>
    match ParseFromSlice b with
    | inl err => (NilReply, Some ("-9: " +:+ err))
    | inr rest =>
      if negb (length rest =? 0)%nat
      then (NilReply, Some "-9: block serialization is too long") else
      match findTx txid (Transactions b) with
      | Some raw => (RawTransactionReply (hex_EncodeToString raw) (GetHeight b), None)
      | None => searchBlocks txid blocks'
      end
    end
  end.

(** [darksideGetRawTransaction] *)
Definition darksideGetRawTransaction (params : list string) (s : darksideState)
  : outcome (rpcReply * option error) :=
  if negb (resetted s) then Return (NilReply, Some errResetFirst) else
  match params with
  | [] => Panic
  | p0 :: _ =>
    if (String.length p0 <? 65)%nat then Panic else
    match hex_DecodeString (substring 1 64 p0) with
    | None => Return (NilReply, Some ("-9: " +:+ errHex))
    | Some txbytes => Return (searchBlocks txbytes (activeBlocks s))
    end
  end.

(** [darksideRawRequest]; [params] are JSON texts. *)
Definition darksideRawRequest (method : string) (params : list string) (s : darksideState)
  : outcome (darksideState * (rpcReply * option error)) :=
  if String.eqb method "getblockchaininfo" then
    Return (s, (Blockchaininfo (chainName s) "76b809bb" (saplingActivation s)
                  (latestHeight s) (branchID s) (branchID s), None))
  else if String.eqb method "getblock" then
    match params with
    | [] => Panic
    | p0 :: _ =>
      match json_Unmarshal_string p0 with
      | None => Return (s, (NilReply, Some "failed to parse getblock request"))
      | Some heightStr =>
        match strconv_Atoi heightStr with
        | None => Return (s, (NilReply, Some "error parsing height as integer"))
        | Some height =>
          if (length (activeBlocks s) =? 0)%nat
          then Return (s, (NilReply, Some notFoundErr)) else
          if height >? latestHeight s
          then Return (s, (NilReply, Some notFoundErr)) else
          let index := height - startHeight s in
          if index <? 0 then Panic else
          match activeBlocks s !! Z.to_nat index with
          | None => Panic
          | Some block =>
              Return (s, (RawJSON (String dquote (hex_EncodeToString block
                                     +:+ String dquote EmptyString)), None))
          end
        end
      end
    end
  else if String.eqb method "getaddresstxids" then
    Return (s, (NilReply, Some "not implemented yet"))
  else if String.eqb method "getrawtransaction" then
    match darksideGetRawTransaction params s with
    | Return r => Return (s, r)
    | Panic => Panic
    | Fatal => Fatal
    end
  else if String.eqb method "sendrawtransaction" then
    match params with
    | [] => Panic
    | p0 :: _ =>
      match json_Unmarshal_string p0 with
      | None => Return (s, (NilReply, Some "failed to parse sendrawtransaction JSON"))
      | Some rawtx =>
        match hex_DecodeString rawtx with
        | None => Return (s, (NilReply,
                     Some "failed to parse sendrawtransaction value as a hex string"))
        | Some txbytes =>
            Return (set_incomingTransactions (incomingTransactions s ++ [txbytes]) s,
                    (NilReply, None))
        end
      end
    end
  else Return (s, (NilReply, Some "there was an attempt to call an unsupported RPC")).

End WithParser.

End common.

(** ** frontend: the mempool and the darkside streamer *)

Module frontend.

(** Go's [<] on strings: bytewise lexicographic order. *)
Fixpoint str_ltb (a b : string) : bool :=
  match a, b with
  | _, EmptyString => false
  | EmptyString, String _ _ => true
  | String c a', String d b' =>
      if code c <? code d then true
      else if code c =? code d then str_ltb a' b'
      else false
  end.

Definition str_le (a b : string) : Prop := str_ltb b a = false.

#[global] Instance str_le_dec a b : Decision (str_le a b) :=
  decide (str_ltb b a = false).

(** [sort.Slice(x, func(i, j) { return x[i] < x[j] })]: the slice is left
    sorted in ascending order.  Strings that compare equal are the same
    string, so the sorted slice does not depend on the algorithm. *)
Definition sort_Strings (x : list string) : list string := merge_sort str_le x.

(** The closure [lessthan] of [MempoolFilter]. *)
Definition lessthan (e i : string) : bool :=
  let l := String.length e in
  let l := if (String.length i <? l)%nat then String.length i else l in
  str_ltb e (substring 0 l i).

(** [for ei < len(exclude) && lessthan(exclude[ei], item) { ei++ }], over
    the entries from [ei] on. *)
Fixpoint advance (rest : list string) (item : string) (ei : nat) : nat :=
  match rest with
  | e :: rest' => if lessthan e item then advance rest' item (S ei) else ei
  | [] => ei
  end.

Definition skip (exclude : list string) (item : string) (ei : nat) : nat :=
  advance (drop ei exclude) item ei.

(** [ei < len(exclude) && strings.HasPrefix(item, exclude[ei])] *)
Definition is_match (exclude : list string) (item : string) (ei : nat) : bool :=
  match exclude !! ei with
  | Some e => String.prefix e item
  | None => false
  end.

(** First loop of [MempoolFilter]: how many items match each entry. *)
Fixpoint count_loop (exclude items : list string) (ei : nat) (nmatches : list Z)
  : list Z :=
  match items with
  | [] => nmatches
  | item :: items' =>
      let ei := skip exclude item ei in
      let nmatches :=
        if is_match exclude item ei
        then <[ei := (nmatches !!! ei) + 1]> nmatches
        else nmatches in
      count_loop exclude items' ei nmatches
  end.

(** Second loop of [MempoolFilter]. *)
Fixpoint send_loop (exclude : list string) (nmatches : list Z) (items : list string)
    (ei : nat) (tosend : list string) : list string :=
  match items with
  | [] => tosend
  | item :: items' =>
      let ei := skip exclude item ei in
      let tosend :=
        if negb (is_match exclude item ei) then tosend ++ [item]
        else if nmatches !!! ei >? 1 then tosend ++ [item]
        else tosend in
      send_loop exclude nmatches items' ei tosend
  end.

(** [MempoolFilter].  It also leaves both of its arguments sorted, which
    the caller sees in [mempoolList]. *)
Definition MempoolFilter (items exclude : list string) : list string :=
  let items := sort_Strings items in
  let exclude := sort_Strings exclude in
  let nmatches := replicate (length exclude) 0 in
  let nmatches := count_loop exclude items 0 nmatches in
  send_loop exclude nmatches items 0 [].

(** The package-level variables of the mempool: [mempoolMap] is a pointer
    to a map ([None] is nil), [lastMempool] a time in nanoseconds. *)
Record mempoolState := {
  mempoolMap : option (gmap string CompactTx);
  mempoolList : list string;
  lastMempool : Z;
}.

(** What [common.RawRequest] followed by [json.Unmarshal] gives: the RPC
    fails, its reply does not decode, or the decoded value. *)
Inductive rpcResult (A : Type) : Type :=
| RpcFailed (err : error)
| Undecodable (err : error)
| Decoded (a : A).
Arguments RpcFailed {A} err.
Arguments Undecodable {A} err.
Arguments Decoded {A} a.

(** The node behind [common.RawRequest]. *)
Class Node := {
  getrawmempool : rpcResult (list string);
  getrawtransaction : string → rpcResult string;
}.

Section WithNode.
Context `{Node} `{TxParser}.

Definition errExtraData : error := "extra data deserializing transaction".

(** The loop of the refresh over [mempoolList].  [old] is [mempoolMap]
    as it was before the refresh; when it was nil, [mempoolMap] points to
    [newmempoolMap] itself during the loop. *)
Fixpoint refresh_loop (old : option (gmap string CompactTx)) (ids : list string)
    (newmempoolMap : gmap string CompactTx)
  : gmap string CompactTx * option error :=
  match ids with
  | [] => (newmempoolMap, None)
  | txidstr :: ids' =>
    match default newmempoolMap old !! txidstr with
    | Some ctx => refresh_loop old ids' (<[txidstr := ctx]> newmempoolMap)
    | None =>
      match getrawtransaction txidstr with
      | RpcFailed _ => refresh_loop old ids' newmempoolMap
      | Undecodable err => (newmempoolMap, Some err)
      | Decoded txStr =>
        match hex_DecodeString txStr with
        | None => (newmempoolMap, Some common.errHex)
        | Some txBytes =>
          let '(tx, txdata, _) := tx_ParseFromSlice txBytes in
          if (0 <? length txdata)%nat then (newmempoolMap, Some errExtraData) else
          let newmempoolMap := <[txidstr := emptyCompactTx]> newmempoolMap in
          let newmempoolMap :=
            if HasSaplingElements tx
            then <[txidstr := ToCompact tx 0]> newmempoolMap
            else newmempoolMap in
          refresh_loop old ids' newmempoolMap
        end
      end
    end
  end.

(** The refresh at the head of [GetMempoolTx], at time [now]. *)
Definition refresh (now : Z) (st : mempoolState) : mempoolState * option error :=
  if now - lastMempool st >=? 2000000000 then
    match getrawmempool with
    | RpcFailed err =>
        ({| mempoolMap := mempoolMap st; mempoolList := mempoolList st;
            lastMempool := now |}, Some err)
    | Undecodable err =>
        ({| mempoolMap := mempoolMap st; mempoolList := mempoolList st;
            lastMempool := now |}, Some err)
    | Decoded ids =>
        match refresh_loop (mempoolMap st) ids ∅ with
        | (newmempoolMap, Some err) =>
            ({| mempoolMap := Some (default newmempoolMap (mempoolMap st));
                mempoolList := ids; lastMempool := now |}, Some err)
        | (newmempoolMap, None) =>
            ({| mempoolMap := Some newmempoolMap; mempoolList := ids;
                lastMempool := now |}, None)
        end
    end
  else (st, None).

(** The last loop of [GetMempoolTx]: dereferencing [mempoolMap] panics
    when it is nil; looking up an id that is not a key yields a nil pointer
    to a [CompactTx], and reading its [Hash] panics.  The stream takes
    every message. *)
Fixpoint send_all (m : option (gmap string CompactTx)) (txids : list string)
    (sent : list CompactTx) : outcome (list CompactTx) :=
  match txids with
  | [] => Return sent
  | txid :: txids' =>
    match m with
    | None => Panic
    | Some mm =>
      match mm !! txid with
      | None => Panic
      | Some tx =>
          if (0 <? length (Hash tx))%nat
          then send_all m txids' (sent ++ [tx])
          else send_all m txids' sent
      end
    end
  end.

(** [GetMempoolTx]: the new state, what was sent to the client, and the
    returned error.  [exclude] holds the [Txid] fields of the request. *)
Definition GetMempoolTx (exclude : list bytes) (now : Z) (st : mempoolState)
  : outcome (mempoolState * list CompactTx * option error) :=
  match refresh now st with
  | (st, Some err) => Return (st, [], Some err)
  | (st, None) =>
    let excludeHex := (λ txid, hex_EncodeToString (rev txid)) <$> exclude in
    let tosend := MempoolFilter (mempoolList st) excludeHex in
    let st := {| mempoolMap := mempoolMap st;
                 mempoolList := sort_Strings (mempoolList st);
                 lastMempool := lastMempool st |} in
    match send_all (mempoolMap st) tosend [] with
    | Return sent => Return (st, sent, None)
    | Panic => Panic
    | Fatal => Fatal
    end
  end.

End WithNode.

(** *** The darkside streamer *)

Definition is_digit (c : ascii) : bool := (48 <=? code c) && (code c <=? 57).
Definition is_lower (c : ascii) : bool := (97 <=? code c) && (code c <=? 122).
Definition is_upper (c : ascii) : bool := (65 <=? code c) && (code c <=? 90).
Definition is_hex (c : ascii) : bool :=
  is_digit c || ((97 <=? code c) && (code c <=? 102))
  || ((65 <=? code c) && (code c <=? 70)).

(** [regexp.Match] of a pattern that anchors one or more characters of a
    class at both ends. *)
Definition match_plus (class : ascii → bool) (s : string) : bool :=
  match s with
  | EmptyString => false
  | _ => forallb class (list_ascii_of_string s)
  end.

(** A client stream as [Recv] sees it: the messages, then [io.EOF]
    ([None]) or an error. *)
Definition stream (A : Type) : Type := list A * option error.

Section WithParser.
Context `{BlockParser} `{TxParser} `{SHA256}.

(** [DarksideStreamer.Reset] *)
Definition Reset (saplingActivation : Z) (branchID chainName : string)
    (s : common.darksideState) (m : mempoolState)
  : common.darksideState * mempoolState * option error :=
  if negb (match_plus is_hex branchID) then (s, m, Some "invalid branch ID") else
  if negb (match_plus (λ c, is_lower c || is_upper c || is_digit c) chainName)
  then (s, m, Some "invalid chain name") else
  match common.DarksideReset saplingActivation branchID chainName s with
  | (s, Some err) => (s, m, Some err)
  | (s, None) =>
      (s, {| mempoolMap := None; mempoolList := []; lastMempool := lastMempool m |},
       None)
  end.

(** [DarksideStreamer.StageBlocksStream]: the result of
    [DarksideStageBlockStream] is dropped. *)
Fixpoint StageBlocksStream_loop (blocks : list string) (closing : option error)
    (s : common.darksideState) : common.darksideState * option error :=
  match blocks with
  | [] => (s, closing)
  | b :: blocks' =>
      StageBlocksStream_loop blocks' closing (common.DarksideStageBlockStream b s).1
  end.

Definition StageBlocksStream (blocks : stream string) (s : common.darksideState)
  : common.darksideState * option error :=
  StageBlocksStream_loop blocks.1 blocks.2 s.

(** [DarksideStreamer.StageBlocks] *)
Definition StageBlocks (resp : common.httpResponse) (s : common.darksideState)
  : common.darksideState * option error :=
  common.DarksideStageBlocks resp s.

(** [DarksideStreamer.StageBlocksCreate] *)
Definition StageBlocksCreate (height nonce count : Z) (s : common.darksideState)
  : outcome (common.darksideState * option error) :=
  common.DarksideStageBlocksCreate height nonce count s.



(** [DarksideStreamer.ApplyStaged] *)
Definition ApplyStaged (height : Z) (s : common.darksideState)
  : outcome (common.darksideState * option error) :=
  common.DarksideApplyStaged s height.

End WithParser.

(** *** lwdStreamer: what the wallet asks of the node *)

(** What [hex.DecodeString] returns besides its error: the bytes decoded
    before the first pair that is not hex (all of them when there is no
    error). *)
Fixpoint hex_Decode_prefix (s : string) : list Z :=
  match s with
  | String p (String q s') =>
      match fromHexChar p, fromHexChar q with
      | Some a, Some b => (a * 16 + b) :: hex_Decode_prefix s'
      | _, _ => []
      end
  | _ => []
  end.

(** [json.Marshal] of a string that needs no escaping (hex digits,
    decimal digits). *)
Definition json_Marshal_string (s : string) : string :=
  String dquote (s +:+ String dquote EmptyString).

(** [strings.SplitN(s, ":", 2)]: [None] stands for the single part [s],
    when there is no colon; otherwise the parts before and after the first
    colon. *)
Fixpoint split_colon (s : string) : option (string * string) :=
  match s with
  | EmptyString => None
  | String c s' =>
      if code c =? 58 then Some (EmptyString, s')
      else match split_colon s' with
           | Some (part0, part1) => Some (String c part0, part1)
           | None => None
           end
  end.

(** [strconv.ParseInt(s, 10, 32)]: an optional sign and decimal digits,
    within [int32]. *)
Definition strconv_ParseInt32 (s : string) : option Z :=
  let unsigned (t : string) :=
    match t with
    | EmptyString => None
    | _ => atoi_digits t 0
    end in
  let v :=
    match s with
    | EmptyString => None
    | String c s' =>
        if code c =? 45 then Z.opp <$> unsigned s'
        else if code c =? 43 then unsigned s'
        else unsigned s
    end in
  match v with
  | Some n => if (- 2 ^ 31 <=? n) && (n <? 2 ^ 31) then Some n else None
  | None => None
  end.

(** [checkTaddress]: the pattern is a [t] followed by 34 letters or digits,
    anchored at both ends. *)
Definition checkTaddress (taddr : string) : option error :=
  match taddr with
  | String c rest =>
      if (code c =? 116) && (String.length rest =? 34)%nat
         && forallb (λ c, is_lower c || is_upper c || is_digit c)
              (list_ascii_of_string rest)
      then None
      else Some "invalid address"
  | EmptyString => Some "invalid address"
  end.

(** Messages of [walletrpc]: the fields that are read or written. *)
Record BlockID := { BlockID_Height : Z; BlockID_Hash : option (list Z) }.
Record BlockRange := { Range_Start : option BlockID; Range_End : option BlockID }.
Record TransparentAddressBlockFilter := {
  Filter_Address : string;
  Filter_Range : option BlockRange;
}.
Record TxFilter := {
  TxFilter_Block : option BlockID;
  TxFilter_Index : Z;
  TxFilter_Hash : option (list Z);
}.
Record RawTransaction := { Data : list Z; RawTransaction_Height : Z }.
Record SendResponse := { ErrorCode : Z; ErrorMessage : string }.
Record GetAddressUtxosArg := {
  Arg_Addresses : list string;
  Arg_StartHeight : Z;                 (* uint64 *)
  Arg_MaxEntries : Z;                  (* uint32 *)
}.
Record GetAddressUtxosReply := {
  Reply_Address : string;
  Reply_Txid : list Z;
  Reply_Index : Z;                     (* int32 *)
  Reply_Script : list Z;
  Reply_ValueZat : Z;                  (* int64 *)
  Reply_Height : Z;                    (* uint64 *)
}.

(** An element of [common.ZcashdRpcReplyGetaddressutxos]. *)
Record utxo := {
  utxo_Address : string;
  utxo_Txid : string;
  utxo_OutputIndex : Z;
  utxo_Script : string;
  utxo_Satoshis : Z;
  utxo_Height : Z;
}.

(** Modelled from the spec: the request and reply types of package
    [common] and their JSON forms are not among the sources.
    [encoding/json] is this interface: [Marshal_*] is [json.Marshal] of a
    request or reply struct, [Unmarshal_*] is [json.Unmarshal] into a
    fresh variable of the type, with its error. *)
Class JSON := {
  Marshal_addresstxids : list string → Z → Z → string;
  Marshal_addresses : list string → string;
  Marshal_blockchaininfo : string → string → Z → Z → string → string → string;
  Marshal_rawtransaction : string → Z → string;
  Unmarshal_rawtransaction : string → error + (string * Z);
  Unmarshal_strings : string → error + list string;
  Unmarshal_utxos : string → error + list utxo;
  Unmarshal_balance : string → error + Z;
}.

(** [common.RawRequest], a variable that holds the function that reaches
    the node: a request may change the state [B] behind it, and returns
    the reply text (empty for nil) and the error. *)
Class Backend (B : Type) := {
  RawRequest : string → list string → B → outcome (B * (string * option error));
}.

(** In darkside mode [DarksideInit] sets [RawRequest] to
    [darksideRawRequest], whose replies are marshalled by [json.Marshal]
    or are JSON text already. *)
Definition reply_text `{JSON} (r : common.rpcReply) : string :=
  match r with
  | common.NilReply => EmptyString
  | common.RawJSON text => text
  | common.Blockchaininfo chain upgrade activation headers chaintip nextblock =>
      Marshal_blockchaininfo chain upgrade activation headers chaintip nextblock
  | common.RawTransactionReply hex height => Marshal_rawtransaction hex height
  end.

#[export] Instance darkside_backend `{BlockParser} `{JSON}
  : Backend common.darksideState := {
  RawRequest method params s :=
    match common.darksideRawRequest method params s with
    | Return (s, (r, err)) => Return (s, (reply_text r, err))
    | Panic => Panic
    | Fatal => Fatal
    end;
}.

Section WithBackend.
Context {B : Type} `{Backend B} `{JSON}.
(* [strings.TrimSpace] *)
Variable strings_TrimSpace : string → string.

Definition to_uint64 (z : Z) : Z := z mod 2 ^ 64.
Definition to_uint32 (z : Z) : Z := z mod 2 ^ 32.
Definition to_int64 (z : Z) : Z := (z + 2 ^ 63) mod 2 ^ 64 - 2 ^ 63.

(** [lwdStreamer.GetTransaction]: the error or the transaction. *)
Definition GetTransaction (txf : TxFilter) (b : B)
  : outcome (B * (error + RawTransaction)) :=
  match TxFilter_Hash txf with
  | Some hash =>
    if negb (length hash =? 32)%nat
    then Return (b, inl "transaction ID has invalid length") else
    let leHashStringJSON := json_Marshal_string (hex_EncodeToString (rev hash)) in
    let params := [leHashStringJSON; "1"%string] in
    match RawRequest "getrawtransaction" params b with
    | Return (b, (_, Some rpcErr)) => Return (b, inl rpcErr)
    | Return (b, (result, None)) =>
      match Unmarshal_rawtransaction result with
      | inl err => Return (b, inl err)
      | inr (txinfo_Hex, txinfo_Height) =>
        match hex_DecodeString txinfo_Hex with
        | None => Return (b, inl common.errHex)
        | Some txBytes =>
            Return (b, inr {| Data := txBytes;
                              RawTransaction_Height := to_uint64 txinfo_Height |})
        end
      end
    | Panic => Panic
    | Fatal => Fatal
    end
  | None =>
    match TxFilter_Block txf with
    | Some {| BlockID_Hash := Some _ |} =>
        Return (b, inl
          "can't GetTransaction with a blockhash+num. Please call GetTransaction with txid")
    | _ => Return (b, inl "please call GetTransaction with txid")
    end
  end.

(** The loop of [GetTaddressTxids]: what was sent to the client so far,
    and the error.  The stream takes every message; the 30 seconds of the
    context are not modelled. *)
Fixpoint GetTaddressTxids_loop (txids : list string) (b : B) (sent : list RawTransaction)
  : outcome (B * (list RawTransaction * option error)) :=
  match txids with
  | [] => Return (b, (sent, None))
  | txidstr :: txids' =>
    let txid := hex_Decode_prefix txidstr in
    match GetTransaction {| TxFilter_Block := None; TxFilter_Index := 0;
                            TxFilter_Hash := Some (rev txid) |} b with
    | Return (b, inl err) => Return (b, (sent, Some err))
    | Return (b, inr tx) => GetTaddressTxids_loop txids' b (sent ++ [tx])
    | Panic => Panic
    | Fatal => Fatal
    end
  end.

(** [lwdStreamer.GetTaddressTxids] *)
Definition GetTaddressTxids (addressBlockFilter : TransparentAddressBlockFilter) (b : B)
  : outcome (B * (list RawTransaction * option error)) :=
  match checkTaddress (Filter_Address addressBlockFilter) with
  | Some err => Return (b, ([], Some err))
  | None =>
    match Filter_Range addressBlockFilter with
    | None => Return (b, ([], Some "block range is required"))
    | Some {| Range_Start := None |} =>
        Return (b, ([], Some "start block height is required"))
    | Some {| Range_Start := Some _; Range_End := None |} =>
        Return (b, ([], Some "end block height is required"))
    | Some {| Range_Start := Some start; Range_End := Some end_ |} =>
      let param := Marshal_addresstxids [Filter_Address addressBlockFilter]
                     (BlockID_Height start) (BlockID_Height end_) in
      match RawRequest "getaddresstxids" [param] b with
      | Return (b, (_, Some rpcErr)) => Return (b, ([], Some rpcErr))
      | Return (b, (result, None)) =>
        match Unmarshal_strings result with
        | inl err => Return (b, ([], Some err))
        | inr txids => GetTaddressTxids_loop txids b []
        end
      | Panic => Panic
      | Fatal => Fatal
      end
    end
  end.

Definition errCode : error := "SendTransaction couldn't parse error code".

(** [lwdStreamer.SendTransaction]: the error or the response; [rawtx] is
    [None] for a nil message, [Some None] for a message without [Data]. *)
Definition SendTransaction (rawtx : option (option (list Z))) (b : B)
  : outcome (B * (error + SendResponse)) :=
  match rawtx with
  | None | Some None => Return (b, inl "bad Transaction or Data")
  | Some (Some data) =>
    let txJSON := json_Marshal_string (hex_EncodeToString data) in
    match RawRequest "sendrawtransaction" [txJSON] b with
    | Return (b, (result, Some rpcErr)) =>
      match split_colon rpcErr with
      | None => Return (b, inl errCode)
      | Some (part0, part1) =>
        let errMsg := strings_TrimSpace part1 in
        match strconv_ParseInt32 part0 with
        | None => Return (b, inl errCode)
        | Some code =>
            Return (b, inr {| ErrorCode := wrap32 code; ErrorMessage := errMsg |})
        end
      end
    | Return (b, (result, None)) =>
        Return (b, inr {| ErrorCode := 0; ErrorMessage := result |})
    | Panic => Panic
    | Fatal => Fatal
    end
  end.

(** The first loop of [getTaddressBalanceZcashdRpc] and of
    [getAddressUtxos]. *)
Fixpoint checkTaddresses (addressList : list string) : option error :=
  match addressList with
  | [] => None
  | addr :: addressList' =>
      match checkTaddress addr with
      | Some err => Some err
      | None => checkTaddresses addressList'
      end
  end.

(** [getTaddressBalanceZcashdRpc]: the [ValueZat] of the balance. *)
Definition getTaddressBalanceZcashdRpc (addressList : list string) (b : B)
  : outcome (B * (Z * option error)) :=
  match checkTaddresses addressList with
  | Some err => Return (b, (0, Some err))
  | None =>
    match RawRequest "getaddressbalance" [Marshal_addresses addressList] b with
    | Return (b, (_, Some rpcErr)) => Return (b, (0, Some rpcErr))
    | Return (b, (result, None)) =>
      match Unmarshal_balance result with
      | inl err => Return (b, (0, Some err))
      | inr balance => Return (b, (balance, None))
      end
    | Panic => Panic
    | Fatal => Fatal
    end
  end.

(** [lwdStreamer.GetTaddressBalance] *)
Definition GetTaddressBalance (addresses : list string) (b : B)
  : outcome (B * (Z * option error)) :=
  getTaddressBalanceZcashdRpc addresses b.

(** [lwdStreamer.GetTaddressBalanceStream]: the addresses are collected
    until the stream ends; an error of the stream is returned at once. *)
Definition GetTaddressBalanceStream (addresses : stream string) (b : B)
  : outcome (B * (option Z * option error)) :=
  match addresses.2 with
  | Some err => Return (b, (None, Some err))
  | None =>
    match getTaddressBalanceZcashdRpc addresses.1 b with
    | Return (b, (_, Some err)) => Return (b, (None, Some err))
    | Return (b, (balance, None)) => Return (b, (Some balance, None))
    | Panic => Panic
    | Fatal => Fatal
    end
  end.

(** The loop of [getAddressUtxos] over the reply; [n] counts the entries
    at or above the start height, [given] is what [f] has received, and
    [f] returns its error. *)
Fixpoint getAddressUtxos_loop (arg : GetAddressUtxosArg)
    (f : GetAddressUtxosReply → option error) (utxos : list utxo) (n : Z)
    (given : list GetAddressUtxosReply)
  : list GetAddressUtxosReply * option error :=
  match utxos with
  | [] => (given, None)
  | u :: utxos' =>
    if to_uint64 (utxo_Height u) <? Arg_StartHeight arg
    then getAddressUtxos_loop arg f utxos' n given else
    let n := n + 1 in
    if (Arg_MaxEntries arg >? 0) && (to_uint32 n >? Arg_MaxEntries arg)
    then (given, None) else
    match hex_DecodeString (utxo_Txid u) with
    | None => (given, Some common.errHex)
    | Some txidBytes =>
      match hex_DecodeString (utxo_Script u) with
      | None => (given, Some common.errHex)
      | Some scriptBytes =>
        let reply :=
          {| Reply_Address := utxo_Address u;
             Reply_Txid := rev txidBytes;
             Reply_Index := wrap32 (utxo_OutputIndex u);
             Reply_Script := scriptBytes;
             Reply_ValueZat := to_int64 (utxo_Satoshis u);
             Reply_Height := to_uint64 (utxo_Height u) |} in
        match f reply with
        | Some err => (given ++ [reply], Some err)
        | None => getAddressUtxos_loop arg f utxos' n (given ++ [reply])
        end
      end
    end
  end.

(** [getAddressUtxos] *)
Definition getAddressUtxos (arg : GetAddressUtxosArg)
    (f : GetAddressUtxosReply → option error) (b : B)
  : outcome (B * (list GetAddressUtxosReply * option error)) :=
  match checkTaddresses (Arg_Addresses arg) with
  | Some err => Return (b, ([], Some err))
  | None =>
    match RawRequest "getaddressutxos" [Marshal_addresses (Arg_Addresses arg)] b with
    | Return (b, (_, Some rpcErr)) => Return (b, ([], Some rpcErr))
    | Return (b, (result, None)) =>
      match Unmarshal_utxos result with
      | inl err => Return (b, ([], Some err))
      | inr utxosReply => Return (b, getAddressUtxos_loop arg f utxosReply 0 [])
      end
    | Panic => Panic
    | Fatal => Fatal
    end
  end.

(** [lwdStreamer.GetAddressUtxos]: the list is returned only without an
    error. *)
Definition GetAddressUtxos (arg : GetAddressUtxosArg) (b : B)
  : outcome (B * (list GetAddressUtxosReply * option error)) :=
  match getAddressUtxos arg (λ _, None) b with
  | Return (b, (_, Some err)) => Return (b, ([], Some err))
  | r => r
  end.

(** [lwdStreamer.GetAddressUtxosStream]; [send] is [resp.Send]. *)
Definition GetAddressUtxosStream (arg : GetAddressUtxosArg)
    (send : GetAddressUtxosReply → option error) (b : B)
  : outcome (B * (list GetAddressUtxosReply * option error)) :=
  getAddressUtxos arg send b.

End WithBackend.

(** [DarksideStreamer.GetIncomingTransactions]; [send] is [resp.Send].
    The result is what was handed to [send], and the error. *)
Fixpoint GetIncomingTransactions_loop (txs : list bytes)
    (send : RawTransaction → option error) (sent : list RawTransaction)
  : list RawTransaction * option error :=
  match txs with
  | [] => (sent, None)
  | txBytes :: txs' =>
    let message := {| Data := txBytes; RawTransaction_Height := 0 |} in
    match send message with
    | Some err => (sent ++ [message], Some err)
    | None => GetIncomingTransactions_loop txs' send (sent ++ [message])
    end
  end.

Definition GetIncomingTransactions (send : RawTransaction → option error)
    (s : common.darksideState) : list RawTransaction * option error :=
  GetIncomingTransactions_loop (common.DarksideGetIncomingTransactions s) send [].

(** [DarksideStreamer.ClearIncomingTransactions] *)
Definition ClearIncomingTransactions (s : common.darksideState)
  : common.darksideState * option error :=
  (common.DarksideClearIncomingTransactions s, None).

End frontend.

(** ** A small parser to run the model on *)

(** The properties below hold for every parser; to run the state machine
    on concrete chains this one reads a block the way the synthetic block
    builder lays it out: a header of 1487 bytes, the transaction count, and
    a coinbase transaction whose script holds the height in three
    little-endian bytes from offset 1535 on. *)
Module demo.

Definition height_of (b : bytes) : Z :=
  b !!! 1535%nat + 256 * (b !!! 1536%nat) + 65536 * (b !!! 1537%nat).

(** Stands for the double SHA-256 of the header: 32 bytes that depend on
    the previous-hash field and on the merkle root. *)
Definition hash_of (b : bytes) : bytes :=
  take 32 (zip_with (λ p m, (p + 3 * m + 1) mod 256) (take 32 (drop 4 b))
             (take 32 (drop 36 b)) ++ replicate 32 0).

#[export] Instance parser : BlockParser := {
  ParseFromSlice b := if (length b <? 1539)%nat then inl "short block" else inr [];
  GetHeight := height_of;
  GetEncodableHash := hash_of;
  Transactions _ := [];
}.

#[export] Instance txparser : TxParser := {
  Transaction := bytes;
  tx_ParseFromSlice b := (b, [], None);
  GetDisplayHash b := take 32 b;
  HasSaplingElements b := bool_decide (head b = Some 1);
  ToCompact b _ :=
    {| Index := 0; Hash := take 32 b; Fee := 0; Spends := []; Outputs := [] |};
}.

#[export] Instance sha256 : SHA256 := {
  Sum256 x :=
    exist (λ b : list Z, length b = 32%nat) (take 32 (x ++ replicate 32 0))
      ltac:(cbv beta; rewrite length_take, length_app, length_replicate; lia);
}.

(** A node whose mempool holds ["aa"], a transaction it can no longer
    deliver. *)
#[export] Instance node_evicted : frontend.Node := {
  frontend.getrawmempool := frontend.Decoded ["aa"%string];
  frontend.getrawtransaction _ := frontend.RpcFailed "-5: No such mempool transaction";
}.

(** The state after [Reset] at process start. *)
Definition fresh : common.darksideState :=
  (common.DarksideReset 0 "2bb40e60" "main" common.zero_state).1.

(** [fresh] with [count] synthetic blocks from [height] on staged. *)
Definition staged (height count : Z) : common.darksideState :=
  match common.DarksideStageBlocksCreate height 0 count fresh with
  | Return (s, _) => s
  | _ => fresh
  end.

(** [staged], once committed with [latest] as the tip to present. *)
Definition chain_upto (height count latest : Z) : common.darksideState :=
  match common.DarksideApplyStaged (staged height count) latest with
  | Return (s, _) => s
  | _ => fresh
  end.

Definition chain (height count : Z) : common.darksideState :=
  chain_upto height count (height + count - 1).

(** The synthetic block of height [height]. *)
Definition block (height : Z) : list Z :=
  default [] (head (common.stagedBlocks (staged height 1))).

(** A chain of one block, at height 0, with two staged transactions: the
    first targets height 7, outside the chain, the second the block. *)
Definition stuck : common.darksideState :=
  let s := chain 0 1 in
  let s := (common.DarksideStageTransaction 7 [1] s).1 in
  (common.DarksideStageTransaction 0 [2] s).1.

(** A chain of one block, at height 0, with one transaction staged for
    it. *)
Definition pending : common.darksideState :=
  (common.DarksideStageTransaction 0 [2; 3] (chain 0 1)).1.

(** The JSON text of a string without escapes. *)
Definition quoted (s : string) : string :=
  String dquote (s +:+ String dquote EmptyString).

(** The mempool variables at process start. *)
Definition mempool0 : frontend.mempoolState :=
  {| frontend.mempoolMap := None; frontend.mempoolList := [];
     frontend.lastMempool := 0 |}.

(** A block parser like [parser] that reads one transaction per block:
    its id is the merkle root field of the header, its bytes are what
    follows the header. *)
Definition parser_tx : BlockParser := {|
  ParseFromSlice b := if (length b <? 1539)%nat then inl "short block" else inr [];
  GetHeight := height_of;
  GetEncodableHash := hash_of;
  Transactions b := [(take 32 (drop 36 b), (λ z, z mod 256) <$> drop 1487 b)];
|}.

(** A toy JSON for the replies: the height in binary with a sign, a colon,
    and the hex text. *)
Fixpoint pos_text (p : positive) : string :=
  match p with
  | xH => EmptyString
  | xO p => String "0" (pos_text p)
  | xI p => String "1" (pos_text p)
  end.

Definition Z_text (z : Z) : string :=
  match z with
  | Z0 => "z"
  | Zpos p => String "+" (pos_text p)
  | Zneg p => String "-" (pos_text p)
  end.

Fixpoint text_pos (s : string) : positive :=
  match s with
  | EmptyString => xH
  | String c s' => if Ascii.eqb c "0" then xO (text_pos s') else xI (text_pos s')
  end.

Definition text_Z (s : string) : Z :=
  match s with
  | String c s' =>
      if Ascii.eqb c "+" then Zpos (text_pos s')
      else if Ascii.eqb c "-" then Zneg (text_pos s')
      else 0
  | EmptyString => 0
  end.

(** Three utxos as a node lists them, at heights 5, 2 and 9. *)
Definition utxos : list frontend.utxo :=
  [ {| frontend.utxo_Address := "t1"; frontend.utxo_Txid := "00ff";
       frontend.utxo_OutputIndex := 0; frontend.utxo_Script := "76a9";
       frontend.utxo_Satoshis := 10; frontend.utxo_Height := 5 |};
    {| frontend.utxo_Address := "t1"; frontend.utxo_Txid := "zz";
       frontend.utxo_OutputIndex := 1; frontend.utxo_Script := "76a9";
       frontend.utxo_Satoshis := 20; frontend.utxo_Height := 2 |};
    {| frontend.utxo_Address := "t1"; frontend.utxo_Txid := "0102";
       frontend.utxo_OutputIndex := 2; frontend.utxo_Script := "88ac";
       frontend.utxo_Satoshis := 30; frontend.utxo_Height := 9 |} ].

Definition json : frontend.JSON := {|
  frontend.Marshal_addresstxids _ _ _ := "addresstxids";
  frontend.Marshal_addresses _ := "addresses";
  frontend.Marshal_blockchaininfo _ _ _ _ _ _ := "blockchaininfo";
  frontend.Marshal_rawtransaction hex height := Z_text height +:+ String ":" hex;
  frontend.Unmarshal_rawtransaction text :=
    match frontend.split_colon text with
    | Some (height, hex) => inr (hex, text_Z height)
    | None => inl "no colon"%string
    end;
  frontend.Unmarshal_strings _ := inl "not a list"%string;
  frontend.Unmarshal_utxos text :=
    if String.eqb text "utxos" then inr utxos else inl "not utxos"%string;
  frontend.Unmarshal_balance _ := inl "not a balance"%string;
|}.

(** A node that keeps a log of the requests it receives; it rejects every
    transaction and lists [utxos] for every address. *)
Definition logging_node : frontend.Backend (list (string * list string)) := {|
  frontend.RawRequest method params log :=
    Return (log ++ [(method, params)],
            if String.eqb method "sendrawtransaction"
            then (EmptyString, Some "-26: 16: bad-txns-in-belowout"%string)
            else if String.eqb method "getaddressutxos"
            then ("utxos"%string, None)
            else (EmptyString, None));
|}.


(** A valid transparent address. *)
Definition taddr : string := "t1aaaaaaaaaaaaaaaaaaaaaaaaaaaaaaaaa".

End demo.

(** ** Vocabulary of the properties *)

Section Vocabulary.
Context `{BlockParser} `{TxParser} `{SHA256}.
Import common.

(** The height a block buffer declares: it parses, nothing is left over,
    and [GetHeight] gives the height. *)
Definition declaredHeight (b : bytes) : option Z :=
  match ParseFromSlice b with
  | inr [] => Some (GetHeight b)
  | _ => None
  end.

(** The block at index [i] of [activeBlocks] declares the height
    [startHeight + i]. *)
Definition positional (s : darksideState) : Prop :=
  ∀ (i : nat) (b : bytes),
    activeBlocks s !! i = Some b →
    declaredHeight b = Some (startHeight s + Z.of_nat i).

(** As long as no transaction is staged, the chain is positional. *)
Definition chain_inv (s : darksideState) : Prop :=
  stagedTransactions s = [] → positional s.

(** The parser reads the height of a block from its coinbase transaction:
    rewriting the previous-hash field of the header does not change what
    the block declares. *)
Definition height_ignores_prevhash : Prop :=
  ∀ (b src b' : bytes),
    copy_into b 4 36 src = Some b' → declaredHeight b' = declaredHeight b.

(** Block hashes are 32 bytes long. *)
Definition hash32 : Prop := ∀ b : bytes, length (GetEncodableHash b) = 32%nat.

(** The chain is hash-linked. *)
Definition hash_linked (blocks : list bytes) : Prop :=
  (∀ b, blocks !! 0%nat = Some b → prevHashField b = make_bytes 32)
  ∧ (∀ (i : nat) p b,
       blocks !! i = Some p → blocks !! S i = Some b →
       prevHashField b = GetEncodableHash p).

(** The active sequence after the overwritten blocks are dropped, the
    first step of [addBlockActive] for a block of height [h]. *)
Definition dropOverwritten (h : Z) (s : darksideState) : darksideState :=
  if h >? startHeight s + Z.of_nat (length (activeBlocks s))
  then set_activeBlocks [] s
  else if h <? startHeight s
  then set_activeBlocks [] s
  else set_activeBlocks (take (Z.to_nat (h - startHeight s)) (activeBlocks s)) s.

(** [DarksideApplyStaged s] has merged the staged blocks, has placed the
    staged transactions [pre], and is in state [s2]. *)
Definition commit_reaches (s : darksideState) (pre : list stagedTx)
    (s2 : darksideState) : Prop :=
  resetted s = true
  ∧ ∃ s1, addStagedBlocks 0 (stagedBlocks s) s = Return (s1, None)
          ∧ applyStagedTxs pre (set_stagedBlocks [] s1) = Return (s2, None).

Definition out_of_range (s : darksideState) (tx : stagedTx) : Prop :=
  height tx < startHeight s
  ∨ height tx >= startHeight s + Z.of_nat (length (activeBlocks s)).

(** The block that [tx] targets is full. *)
Definition target_full (s : darksideState) (tx : stagedTx) : Prop :=
  ¬ out_of_range s tx
  ∧ ∃ block, activeBlocks s !! Z.to_nat (height tx - startHeight s) = Some block
             ∧ block !! 1487%nat = Some 253.

(** The bytes of the coinbase template, and the coinbase transaction of
    a synthetic block: the template with the four bytes from offset 47 on
    replaced by the little-endian height. *)
Definition templateBytes : bytes :=
  default [] (hex_DecodeString fakeCoinbaseTemplate).

Definition syntheticCoinbase (height : Z) : bytes :=
  take 47 templateBytes ++ le32 height ++ drop 51 templateBytes.

(** What the mock zcashd owes a [getblock] request for [height]: the
    not-found error when there is no chain or the height is above
    [latestHeight], the quoted hex of the block at [height - startHeight]
    otherwise, [None] when that block does not exist. *)
Definition getblock_spec (s : darksideState) (height : Z)
  : option (rpcReply * option error) :=
  if (length (activeBlocks s) =? 0)%nat then Some (NilReply, Some notFoundErr)
  else if height >? latestHeight s then Some (NilReply, Some notFoundErr)
  else if height <? startHeight s then None
  else match activeBlocks s !! Z.to_nat (height - startHeight s) with
       | Some block =>
           Some (RawJSON (String dquote (hex_EncodeToString block
                            +:+ String dquote EmptyString)), None)
       | None => None
       end.

(** The calls that reach the state: those of the test driver, of the
    wallet ([SendTransaction]) and of the mock zcashd. *)
Inductive call :=
| CallReset (sa : Z) (bi cn : string)
| CallStageBlocks (resp : httpResponse)
| CallStageBlockStream (blockHex : string)
| CallStageBlocksCreate (height nonce count : Z)
| CallStageTransaction (height : Z) (txBytes : list Z)
| CallApplyStaged (height : Z)
| CallSendTransaction (txHex : string)
| CallClearIncomingTransactions
| CallRawRequest (method : string) (params : list string).

(** The state after a call that returns (with an error or without). *)
Definition after (c : call) (s : darksideState) : outcome darksideState :=
  let state_of {A} (r : outcome (darksideState * A)) : outcome darksideState :=
    match r with
    | Return (s', _) => Return s'
    | Panic => Panic
    | Fatal => Fatal
    end in
  match c with
  | CallReset sa bi cn => Return (DarksideReset sa bi cn s).1
  | CallStageBlocks resp => Return (DarksideStageBlocks resp s).1
  | CallStageBlockStream blockHex => Return (DarksideStageBlockStream blockHex s).1
  | CallStageBlocksCreate height nonce count =>
      state_of (DarksideStageBlocksCreate height nonce count s)
  | CallStageTransaction height txBytes =>
      Return (DarksideStageTransaction height txBytes s).1
  | CallApplyStaged height => state_of (DarksideApplyStaged s height)
  | CallSendTransaction txHex => Return (DarksideSendTransaction txHex s).1
  | CallClearIncomingTransactions => Return (DarksideClearIncomingTransactions s)
  | CallRawRequest method params => state_of (darksideRawRequest method params s)
  end.

(** The states the process can be in. *)
Inductive reachable : darksideState → Prop :=
| reachable_start : reachable zero_state
| reachable_call c s s' : reachable s → after c s = Return s' → reachable s'.

(** C1 as the specification words it: whatever Commit returns, the staged
    transactions are gone; and when a staged transaction targets a height
    outside the chain, the error is of the FailedPrecondition class. *)
Definition C1_as_stated (s : darksideState) (h : Z) : Prop :=
  ∀ s' e, DarksideApplyStaged s h = Return (s', e) →
    stagedTransactions s' = []
    ∧ ((∃ tx, tx ∈ stagedTransactions s ∧ out_of_range s' tx) →
       ∃ err, e = Some err ∧ FailedPrecondition err).

End Vocabulary.

Section MempoolVocabulary.
Import frontend.

(** [lessthan] by recursion on both strings: [e] is below [i] at the first
    position where they differ, within the length of the shorter one. *)
Fixpoint tlt (e i : string) : bool :=
  match e, i with
  | String c e', String d i' =>
      if code c <? code d then true
      else if code c =? code d then tlt e' i'
      else false
  | _, _ => false
  end.

(** The position of the cursor of [MempoolFilter] for [item] when the
    walk starts from the first entry. *)
Definition slot (exclude : list string) (item : string) : nat :=
  skip exclude item 0.

(** The step of the first loop, and the test of the second one, with the
    cursor recomputed from the start. *)
Definition bump (exclude : list string) (item : string) (nmatches : list Z)
  : list Z :=
  if is_match exclude item (slot exclude item)
  then <[slot exclude item := (nmatches !!! slot exclude item) + 1]> nmatches
  else nmatches.

Definition kept (exclude : list string) (nmatches : list Z) (item : string) : bool :=
  negb (is_match exclude item (slot exclude item))
  || (nmatches !!! slot exclude item >? 1).

(** How many of [items] are matched at position [j]. *)
Definition hits (exclude items : list string) (j : nat) : nat :=
  length (filter (λ item, is_match exclude item (slot exclude item) = true
                          ∧ slot exclude item = j) items).

(** How many of [items] have [e] as a prefix. *)
Definition count_prefixed (e : string) (items : list string) : nat :=
  length (filter (λ item, String.prefix e item = true) items).

(** Some exclude entry is a prefix of [item] and of no other item. *)
Definition uniquely_excluded (exclude items : list string) (item : string) : bool :=
  existsb (λ e, String.prefix e item && (count_prefixed e items =? 1)%nat) exclude.

(** The filter in the words of the specification: the items, in sorted
    order, except those that are uniquely excluded. *)
Definition filter_spec (items exclude : list string) : list string :=
  filter (λ item, uniquely_excluded exclude items item = false) (sort_Strings items).

(** No exclude entry is a prefix of another, different one. *)
Definition prefix_free (exclude : list string) : Prop :=
  ∀ e1 e2, e1 ∈ exclude → e2 ∈ exclude → String.prefix e1 e2 = true → e1 = e2.

(** C3 as the specification words it. *)
Definition C3_as_stated : Prop :=
  ∀ items exclude, MempoolFilter items exclude = filter_spec items exclude.

End MempoolVocabulary.

(** ** Vocabulary of the properties of the front end *)

Section FrontVocabulary.
Import frontend.

(** The values of a Go [byte]. *)
Definition is_byte (z : Z) : Prop := 0 ≤ z < 256.

(** A character that JSON writes as it is inside a string literal. *)
Definition plain_char (c : ascii) : bool :=
  negb (code c =? 34) && negb (code c =? 92) && negb (code c <? 32).

(** A lower-case hex digit, the alphabet of [hex.EncodeToString]. *)
Definition lower_hex (c : ascii) : bool :=
  ((48 <=? code c) && (code c <=? 57)) || ((97 <=? code c) && (code c <=? 102)).

(** The text of a transaction id as zcashd prints it: 64 lower-case hex
    digits. *)
Definition is_txid (s : string) : Prop :=
  String.length s = 64%nat ∧ forallb lower_hex (list_ascii_of_string s) = true.

(** The utxos that [getAddressUtxos] does not skip, the entries it stops
    after, and the message it builds from a utxo. *)
Definition eligible (arg : GetAddressUtxosArg) (u : utxo) : Prop :=
  Arg_StartHeight arg ≤ to_uint64 (utxo_Height u).

#[global] Instance eligible_dec (arg : GetAddressUtxosArg) (u : utxo)
  : Decision (eligible arg u) :=
  decide (Arg_StartHeight arg ≤ to_uint64 (utxo_Height u)).

Definition limit {A} (arg : GetAddressUtxosArg) (l : list A) : list A :=
  if Arg_MaxEntries arg =? 0 then l else take (Z.to_nat (Arg_MaxEntries arg)) l.

Definition utxo_reply (u : utxo) : GetAddressUtxosReply :=
  {| Reply_Address := utxo_Address u;
     Reply_Txid := rev (default [] (hex_DecodeString (utxo_Txid u)));
     Reply_Index := wrap32 (utxo_OutputIndex u);
     Reply_Script := default [] (hex_DecodeString (utxo_Script u));
     Reply_ValueZat := to_int64 (utxo_Satoshis u);
     Reply_Height := to_uint64 (utxo_Height u) |}.

(** [json.Unmarshal] reads back what [json.Marshal] wrote for the reply of
    [getrawtransaction]. *)
Definition rawtransaction_roundtrip `{JSON} : Prop :=
  ∀ hex height,
    Unmarshal_rawtransaction (Marshal_rawtransaction hex height) = inr (hex, height).

End FrontVocabulary.

(** ** Vocabulary of the properties of runs *)

Section RunVocabulary.
Context `{BlockParser} `{TxParser} `{SHA256}.
Import common.

(** What neither staging nor the merge of blocks and transactions
    touches. *)
Definition untouched (s s' : darksideState) : Prop :=
  resetted s' = resetted s
  ∧ saplingActivation s' = saplingActivation s
  ∧ branchID s' = branchID s
  ∧ chainName s' = chainName s
  ∧ latestHeight s' = latestHeight s
  ∧ incomingTransactions s' = incomingTransactions s
  ∧ stagedTransactions s' = stagedTransactions s.

(** The state after a sequence of calls that all return. *)
Fixpoint runs (cs : list call) (s : darksideState) : outcome darksideState :=
  match cs with
  | [] => Return s
  | c :: cs' =>
    match after c s with
    | Return s' => runs cs' s'
    | r => r
    end
  end.

Definition is_reset (c : call) : bool :=
  match c with
  | CallReset _ _ _ => true
  | _ => false
  end.

(** A block buffer that parses with nothing left over and holds a
    previous-hash field. *)
Definition wellformed (b : bytes) : Prop :=
  is_Some (declaredHeight b) ∧ (36 ≤ length b)%nat.

End RunVocabulary.

(** ** Vocabulary of the properties of the wallet in darkside mode *)

Section WalletVocabulary.
Import frontend.
Context `{BlockParser} `{JSON}.
Variable strings_TrimSpace : string → string.

(** The wallet submits the transactions [datas] one after the other
    through [SendTransaction], whatever the responses are. *)
Fixpoint submit (datas : list (list Z)) (s : common.darksideState)
  : outcome common.darksideState :=
  match datas with
  | [] => Return s
  | data :: datas' =>
    match SendTransaction strings_TrimSpace (Some (Some data)) s with
    | Return (s, _) => submit datas' s
    | Panic => Panic
    | Fatal => Fatal
    end
  end.

End WalletVocabulary.

(** * Properties *)

(** ** Buffers *)

Lemma copy_into_Some dst lo hi src dst' :
  copy_into dst lo hi src = Some dst' →
  (hi ≤ length dst)%nat ∧
  ∃ n, n = Nat.min (hi - lo) (length src) ∧
       dst' = take lo dst ++ take n src ++ drop (lo + n) dst.
Proof.
  unfold copy_into. case_decide; [|done]. intros Heq.
  apply (inj Some) in Heq. split; [done|]. eexists. split; [reflexivity|].
  symmetry. exact Heq.
Qed.

Lemma copy_into_length dst lo hi src dst' :
  copy_into dst lo hi src = Some dst' → (lo ≤ hi)%nat → length dst' = length dst.
Proof.
  intros (Hhi & n & Hn & ->)%copy_into_Some Hlo.
  rewrite !length_app, !length_take, length_drop. lia.
Qed.

Lemma copy_into_prevhash dst src dst' :
  copy_into dst 4 36 src = Some dst' → length src = 32%nat →
  take 32 (drop 4 dst') = src.
Proof.
  intros (Hhi & n & Hn & ->)%copy_into_Some Hlen.
  assert (n = 32%nat) as -> by lia.
  rewrite drop_app_length' by (rewrite length_take; lia).
  rewrite take_app_length' by (rewrite length_take; lia).
  apply take_ge. lia.
Qed.

Lemma copy_into_lookup_ge dst src dst' (j : nat) :
  copy_into dst 4 36 src = Some dst' → (36 ≤ j)%nat → dst' !! j = dst !! j.
Proof.
  intros (Hhi & n & Hn & ->)%copy_into_Some Hj.
  assert (length (take n src) = n) by (rewrite length_take; lia).
  rewrite lookup_app_r by (rewrite length_take; lia).
  rewrite lookup_app_r by (rewrite !length_take; lia).
  rewrite lookup_drop, !length_take. f_equal. lia.
Qed.

(** ** addBlockActive *)

Section Chain.
Context `{BlockParser}.
Import common.

(** C5.  A block that parses is merged as follows.  If its height is
    discontiguous (above the height after the tip, or below the start) the
    whole active sequence is discarded and [startHeight] becomes the
    block's height.  If its height lies inside the active range, the active
    sequence is cut down to the blocks at heights strictly below it,
    [startHeight] stays, and the block is appended (with its previous-hash
    field pointing at the last block kept, when there is one). *)
Theorem C5_addBlockActive_reorg (s : darksideState) (blockBytes : bytes) :
  ParseFromSlice blockBytes = inr [] →
  let h := GetHeight blockBytes in
  let n := Z.of_nat (length (activeBlocks s)) in
  let kept := take (Z.to_nat (h - startHeight s)) (activeBlocks s) in
  ((h > startHeight s + n ∨ h < startHeight s) →
     addBlockActive s blockBytes
     = Return (set_activeBlocks [blockBytes] (set_startHeight h s), None))
  ∧ (startHeight s ≤ h ≤ startHeight s + n →
     (∀ i b, kept !! i = Some b ↔
             activeBlocks s !! i = Some b ∧ startHeight s + Z.of_nat i < h)
     ∧ match last kept with
       | None =>
           addBlockActive s blockBytes
           = Return (set_activeBlocks [blockBytes] s, None)
       | Some prevblock =>
           ParseFromSlice prevblock = inr [] →
           ∀ linked, copy_into blockBytes 4 36 (GetEncodableHash prevblock)
                     = Some linked →
           addBlockActive s blockBytes
           = Return (set_activeBlocks (kept ++ [linked]) s, None)
       end).
Proof.
  intros Hparse h n kept. unfold addBlockActive. rewrite Hparse. cbn.
  fold h. rewrite Z.gtb_ltb. fold n. split.
  - intros [Hhi | Hlo].
    + destruct (Z.ltb_spec (startHeight s + n) h); [|lia]. done.
    + destruct (Z.ltb_spec (startHeight s + n) h); [done|].
      destruct (Z.ltb_spec h (startHeight s)); [|lia]. done.
  - intros [Hlo Hhi].
    destruct (Z.ltb_spec (startHeight s + n) h); [lia|].
    destruct (Z.ltb_spec h (startHeight s)); [lia|]. cbn. fold kept. split.
    + intros i b. unfold kept. rewrite lookup_take_Some. split.
      * intros [? ?]. split; [done|lia].
      * intros [? ?]. split; [done|lia].
    + destruct (last kept) as [prevblock|] eqn:Hlast.
      * destruct kept as [|k0 kept'] eqn:Hkept; [done|]. cbn.
        intros Hprev linked Hcopy. rewrite ?Hlast, Hprev. cbn. rewrite Hcopy. done.
      * apply last_None in Hlast. rewrite Hlast. cbn.
        assert (h = startHeight s) as Heq.
        { unfold kept in Hlast. apply (f_equal length) in Hlast.
          rewrite length_take in Hlast. cbn in Hlast. lia. }
        destruct s; cbn in *. subst. done.
Qed.

(** *** The positional-height invariant *)

Lemma dropOverwritten_fields h s :
  startHeight (dropOverwritten h s) = startHeight s
  ∧ stagedTransactions (dropOverwritten h s) = stagedTransactions s
  ∧ stagedBlocks (dropOverwritten h s) = stagedBlocks s
  ∧ resetted (dropOverwritten h s) = resetted s.
Proof. unfold dropOverwritten. repeat case_match; done. Qed.

Lemma dropOverwritten_active h s :
  activeBlocks (dropOverwritten h s) = []
  ∨ (activeBlocks (dropOverwritten h s)
     = take (Z.to_nat (h - startHeight s)) (activeBlocks s)
     ∧ startHeight s + Z.of_nat (length (activeBlocks (dropOverwritten h s))) = h).
Proof.
  unfold dropOverwritten. rewrite Z.gtb_ltb.
  destruct (Z.ltb_spec (startHeight s + Z.of_nat (length (activeBlocks s))) h);
    [by left|].
  destruct (Z.ltb_spec h (startHeight s)); [by left|].
  right. cbn. split; [done|]. rewrite length_take. lia.
Qed.

Lemma positional_prefix s (k : nat) :
  positional s → positional (set_activeBlocks (take k (activeBlocks s)) s).
Proof.
  intros Hpos i b. cbn. intros [? ?]%lookup_take_Some. by apply Hpos.
Qed.

Lemma declaredHeight_parsed b rest :
  ParseFromSlice b = inr rest → (length rest =? 0)%nat = true →
  declaredHeight b = Some (GetHeight b).
Proof.
  intros Hp Hr. apply Nat.eqb_eq, nil_length_inv in Hr. subst.
  unfold declaredHeight. by rewrite Hp.
Qed.

Lemma addBlockActive_positional s b s' e :
  height_ignores_prevhash → positional s →
  addBlockActive s b = Return (s', e) → positional s'.
Proof.
  intros Hign Hpos. unfold addBlockActive.
  destruct (ParseFromSlice b) as [err|rest] eqn:Hparse; [by intros [= <- <-]|].
  destruct (length rest =? 0)%nat eqn:Hrest; cbn [negb]; [|by intros [= <- <-]].
  pose proof (declaredHeight_parsed _ _ Hparse Hrest) as Hdecl.
  change (if GetHeight b >? _ then _ else _) with (dropOverwritten (GetHeight b) s).
  destruct (dropOverwritten_fields (GetHeight b) s) as (Hstart & _).
  destruct (dropOverwritten_active (GetHeight b) s) as [Hnil | [Htake Hlen]].
  - rewrite Hnil. cbn. intros [= <- <-]. intros i c. cbn. rewrite Hnil. cbn.
    intros Hi. destruct i; [|done]. cbn in Hi. simplify_eq.
    rewrite Hdecl. f_equal. lia.
  - assert (positional (dropOverwritten (GetHeight b) s)) as Hpos1.
    { intros i c Hi. rewrite Hstart. rewrite Htake in Hi.
      apply lookup_take_Some in Hi as [? ?]. by apply Hpos. }
    destruct (length (activeBlocks (dropOverwritten (GetHeight b) s)) =? 0)%nat
      eqn:Hempty.
    + apply Nat.eqb_eq, nil_length_inv in Hempty. rewrite Hempty in *.
      intros [= <- <-]. intros i c. cbn. rewrite Hempty. cbn.
      intros Hi. destruct i; [|done]. cbn in Hi. simplify_eq.
      rewrite Hdecl. f_equal. lia.
    + destruct (last _) as [prevblock|]; [|done].
      destruct (ParseFromSlice prevblock) as [err|rest']; [by intros [= <- <-]|].
      destruct (negb _); [by intros [= <- <-]|].
      destruct (copy_into _ _ _ _) as [linked|] eqn:Hcopy; [|done].
      intros [= <- <-]. intros i c. cbn.
      intros [Hi | [Hge Hi]]%lookup_app_Some; [by apply Hpos1|].
      apply list_lookup_singleton_Some in Hi as [Hi <-].
      rewrite (Hign _ _ _ Hcopy), Hdecl, Hstart. f_equal. lia.
Qed.

Lemma setPrevhash_loop_positional prevhash blocks out :
  height_ignores_prevhash →
  setPrevhash_loop prevhash blocks = Return out →
  Forall2 (λ b b', declaredHeight b' = declaredHeight b) blocks out.
Proof.
  intros Hign. revert prevhash out.
  induction blocks as [|b blocks IH]; intros prevhash out; cbn.
  - intros [= <-]. constructor.
  - destruct (ParseFromSlice b); [done|]. destruct (negb _); [done|].
    destruct (copy_into _ _ _ _) as [linked|] eqn:Hcopy; [|done].
    destruct (setPrevhash_loop _ _) as [done_| |] eqn:Hrec; [|done..].
    intros [= <-]. constructor; [by eapply Hign|by eapply IH].
Qed.

(** *** What the loops of Commit leave alone *)

Lemma addBlockActive_fields s b s' e :
  addBlockActive s b = Return (s', e) →
  stagedTransactions s' = stagedTransactions s
  ∧ resetted s' = resetted s ∧ stagedBlocks s' = stagedBlocks s.
Proof.
  unfold addBlockActive.
  change (if GetHeight b >? _ then _ else _) with (dropOverwritten (GetHeight b) s).
  destruct (dropOverwritten_fields (GetHeight b) s) as (_ & ? & ? & ?).
  repeat case_match; intros [= <- <-]; done.
Qed.

Lemma addStagedBlocks_fields i todo s s' e :
  addStagedBlocks i todo s = Return (s', e) →
  stagedTransactions s' = stagedTransactions s ∧ resetted s' = resetted s.
Proof.
  revert i s. induction todo as [|b todo IH]; intros i s; cbn.
  - by intros [= <- <-].
  - destruct (addBlockActive s b) as [[s1 [err|]]| |] eqn:Hadd; [|..|done|done].
    + intros [= <- <-]. by apply addBlockActive_fields in Hadd as (? & ? & ?).
    + intros Hrec. apply IH in Hrec as [-> ->]. cbn.
      by apply addBlockActive_fields in Hadd as (? & ? & ?).
Qed.

Lemma addStagedBlocks_positional i todo s s' e :
  height_ignores_prevhash → positional s →
  addStagedBlocks i todo s = Return (s', e) → positional s'.
Proof.
  intros Hign. revert i s. induction todo as [|b todo IH]; intros i s Hpos; cbn.
  - by intros [= <- <-].
  - destruct (addBlockActive s b) as [[s1 [err|]]| |] eqn:Hadd; [|..|done|done].
    + intros [= <- <-]. by eapply addBlockActive_positional.
    + intros Hrec. eapply IH; [|exact Hrec].
      eapply addBlockActive_positional in Hadd; [|done..]. exact Hadd.
Qed.

Lemma applyStagedTx_fields s tx s' e :
  applyStagedTx s tx = Return (s', e) →
  stagedTransactions s' = stagedTransactions s
  ∧ startHeight s' = startHeight s
  ∧ length (activeBlocks s') = length (activeBlocks s)
  ∧ stagedBlocks s' = stagedBlocks s.
Proof.
  unfold applyStagedTx. repeat case_match; intros [= <- <-]; try done.
  cbn. by rewrite length_insert.
Qed.

Lemma applyStagedTxs_fields txs s s' e :
  applyStagedTxs txs s = Return (s', e) →
  stagedTransactions s' = stagedTransactions s
  ∧ startHeight s' = startHeight s
  ∧ length (activeBlocks s') = length (activeBlocks s)
  ∧ stagedBlocks s' = stagedBlocks s.
Proof.
  revert s. induction txs as [|tx txs IH]; intros s; cbn.
  - by intros [= <- <-].
  - destruct (applyStagedTx s tx) as [[s1 [err|]]| |] eqn:Htx; [|..|done|done].
    + intros [= <- <-]. by apply applyStagedTx_fields in Htx.
    + intros (-> & -> & -> & ->)%IH. by apply applyStagedTx_fields in Htx.
Qed.

(** A successful Commit had nothing to place: it merged the staged blocks
    and re-linked the chain. *)
Lemma commit_success s h s' :
  DarksideApplyStaged s h = Return (s', None) →
  ∃ s1 blocks,
    resetted s = true
    ∧ addStagedBlocks 0 (stagedBlocks s) s = Return (s1, None)
    ∧ stagedTransactions s1 = []
    ∧ setPrevhash_loop (make_bytes 32) (activeBlocks s1) = Return blocks
    ∧ s' = set_latestHeight h (set_activeBlocks blocks
             (set_stagedTransactions [] (set_stagedBlocks [] s1))).
Proof.
  unfold DarksideApplyStaged. destruct (resetted s); cbn [negb]; [|done].
  destruct (addStagedBlocks _ _ _) as [[s1 [err|]]| |] eqn:Hadd; [done| |done|done].
  cbn [stagedTransactions set_stagedBlocks].
  destruct (applyStagedTxs _ _) as [[s3 [err|]]| |] eqn:Htxs; [done| |done|done].
  pose proof (applyStagedTxs_fields _ _ _ _ Htxs) as (Hst & _). cbn in Hst.
  destruct (0 <? length (stagedTransactions s3))%nat eqn:Hlen; [done|].
  apply Nat.ltb_ge in Hlen.
  assert (stagedTransactions s3 = []) as Hnil by (apply nil_length_inv; lia).
  rewrite Hnil in Hst. rewrite <- Hst in Htxs. cbn in Htxs. simplify_eq.
  unfold setPrevhash. cbn [activeBlocks set_stagedTransactions set_stagedBlocks].
  destruct (setPrevhash_loop _ _) as [blocks| |] eqn:Hloop; [|done..].
  intros [= <-]. eexists s1, blocks. done.
Qed.

(** *** The hash chain *)

Lemma setPrevhash_loop_linked prevhash blocks out :
  hash32 → length prevhash = 32%nat →
  setPrevhash_loop prevhash blocks = Return out →
  (∀ b, out !! 0%nat = Some b → prevHashField b = prevhash)
  ∧ (∀ (i : nat) p b, out !! i = Some p → out !! S i = Some b →
       prevHashField b = GetEncodableHash p).
Proof.
  intros H32. revert prevhash out.
  induction blocks as [|b0 blocks IH]; intros prevhash out Hlen; cbn.
  - intros [= <-]. split; intros; done.
  - destruct (ParseFromSlice b0); [done|]. destruct (negb _); [done|].
    destruct (copy_into _ _ _ _) as [linked|] eqn:Hcopy; [|done].
    destruct (setPrevhash_loop _ _) as [done_| |] eqn:Hrec; [|done..].
    intros [= <-]. apply IH in Hrec as [Hhead Htail]; [|apply H32]. split.
    + intros b [= <-]. by eapply copy_into_prevhash.
    + intros [|i] p b; cbn.
      * intros [= <-] Hb. by apply Hhead.
      * apply Htail.
Qed.

(** C2.  With 32-byte block hashes, after every successful Commit the
    active chain is hash-linked: the previous-hash field of the first block
    is all zero, and the previous-hash field of every later block is the
    hash of the block before it. *)
Theorem C2_commit_hash_linked (s : darksideState) (h : Z) (s' : darksideState) :
  hash32 →
  DarksideApplyStaged s h = Return (s', None) →
  hash_linked (activeBlocks s').
Proof.
  intros H32 (s1 & blocks & _ & _ & _ & Hloop & ->)%commit_success. cbn.
  eapply setPrevhash_loop_linked; [done| |done].
  unfold make_bytes. by rewrite length_replicate.
Qed.

(** *** Placing the staged transactions *)

Lemma applyStagedTxs_app pre post s :
  applyStagedTxs (pre ++ post) s
  = match applyStagedTxs pre s with
    | Return (s1, None) => applyStagedTxs post s1
    | r => r
    end.
Proof.
  revert s. induction pre as [|tx pre IH]; intros s; cbn; [done|].
  destruct (applyStagedTx s tx) as [[s1 [err|]]| |]; auto.
Qed.

Lemma applyStagedTx_out_of_range s tx :
  out_of_range s tx →
  ∃ e, applyStagedTx s tx = Return (s, Some e) ∧ OutOfRange e.
Proof.
  intros Hout. unfold applyStagedTx.
  destruct (Z.ltb_spec (height tx) (startHeight s)).
  { eexists. split; [done|]. by left. }
  rewrite Z.geb_leb.
  destruct (Z.leb_spec (startHeight s + Z.of_nat (length (activeBlocks s)))
              (height tx)).
  { eexists. split; [done|]. by right. }
  destruct Hout; lia.
Qed.

Lemma in_range_guards s tx :
  ¬ out_of_range s tx →
  (height tx <? startHeight s) = false
  ∧ (height tx >=? startHeight s + Z.of_nat (length (activeBlocks s))) = false.
Proof.
  unfold out_of_range. intros Hin. rewrite Z.geb_leb. split.
  - apply Z.ltb_ge. lia.
  - apply Z.leb_gt. lia.
Qed.

Lemma applyStagedTx_full s tx :
  target_full s tx → applyStagedTx s tx = Return (s, Some errTooManyTx).
Proof.
  intros (Hin & block & Hblock & Hcount). unfold applyStagedTx.
  destruct (in_range_guards _ _ Hin) as [-> ->].
  by rewrite Hblock, Hcount.
Qed.


(** Commit returns the error of the first staged transaction that is not
    placed, in the state it has reached. *)
Lemma commit_stops s h pre tx post s2 e :
  commit_reaches s pre s2 →
  stagedTransactions s = pre ++ tx :: post →
  applyStagedTx s2 tx = Return (s2, Some e) →
  DarksideApplyStaged s h = Return (s2, Some e).
Proof.
  intros (Hres & s1 & Hadd & Hpre) Htxs Htx.
  unfold DarksideApplyStaged. rewrite Hres, Hadd. cbn.
  apply addStagedBlocks_fields in Hadd as [-> _]. rewrite Htxs.
  rewrite applyStagedTxs_app, Hpre. cbn. by rewrite Htx.
Qed.

Lemma commit_reaches_staged s pre s2 :
  commit_reaches s pre s2 → stagedTransactions s2 = stagedTransactions s.
Proof.
  intros (_ & s1 & Hadd & Hpre).
  apply applyStagedTxs_fields in Hpre as (-> & _). cbn.
  by apply addStagedBlocks_fields in Hadd as [-> _].
Qed.

(** C1, amended.  Commit stops at the first staged transaction that cannot
    be placed: it returns the OutOfRange- or ResourceExhausted-class error
    of that entry in the state reached by placing the entries before it
    (the later entries are not attempted), and the staged transactions stay
    as they were.  After a successful Commit no staged transaction is
    left. *)
Theorem C1_commit_stops_at_first_unplaceable (s : darksideState) (h : Z) :
  (∀ pre tx post s2,
     commit_reaches s pre s2 →
     stagedTransactions s = pre ++ tx :: post →
     out_of_range s2 tx ∨ target_full s2 tx →
     ∃ e, DarksideApplyStaged s h = Return (s2, Some e)
          ∧ (OutOfRange e ∨ ResourceExhausted e)
          ∧ stagedTransactions s2 = stagedTransactions s)
  ∧ (∀ s', DarksideApplyStaged s h = Return (s', None) →
           stagedTransactions s' = []).
Proof.
  split.
  - intros pre tx post s2 Hreach Htxs [Hout | Hfull].
    + destruct (applyStagedTx_out_of_range _ _ Hout) as (e & Htx & He).
      exists e. split; [by eapply commit_stops|]. split; [by left|].
      by eapply commit_reaches_staged.
    + exists errTooManyTx.
      split; [eapply commit_stops; [done..|by apply applyStagedTx_full]|].
      split; [by right|]. by eapply commit_reaches_staged.
  - by intros s' (s1 & blocks & _ & _ & _ & _ & ->)%commit_success.
Qed.


End Chain.

(** ** The synthetic block builder *)

Section Builder.
Context `{SHA256}.
Import common.

Lemma byte_range z : 0 ≤ Z.land z 255 < 256.
Proof.
  change 255 with (Z.ones 8). rewrite Z.land_ones by lia.
  apply Z.mod_pos_bound. lia.
Qed.

Lemma le32_congr a b : a mod 2 ^ 32 = b mod 2 ^ 32 → le32 a = le32 b.
Proof.
  intros Hab.
  assert (∀ k, 0 ≤ k ≤ 24 →
            Z.land (Z.shiftr a k) 255 = Z.land (Z.shiftr b k) 255) as Hbyte.
  { intros k Hk. apply Z.bits_inj'. intros n Hn.
    rewrite !Z.land_spec, !Z.shiftr_spec by lia.
    destruct (Z.ltb_spec n 8).
    - f_equal.
      rewrite <- (Z.mod_pow2_bits_low a 32) by lia.
      rewrite <- (Z.mod_pow2_bits_low b 32) by lia.
      by rewrite Hab.
    - change 255 with (Z.ones 8). rewrite Z.ones_spec_high by lia.
      by rewrite !andb_false_r. }
  unfold le32. rewrite <- (Z.shiftr_0_r a), <- (Z.shiftr_0_r b).
  rewrite !Z.shiftr_shiftr by lia. cbn [Z.add Pos.add Pos.succ].
  rewrite !(Hbyte _) by lia. done.
Qed.

Lemma wrap32_mod z : wrap32 z mod 2 ^ 32 = z mod 2 ^ 32.
Proof.
  unfold wrap32.
  rewrite (Z.mod_eq (z + 2 ^ 31) (2 ^ 32)) by lia.
  replace (z + 2 ^ 31 - 2 ^ 32 * ((z + 2 ^ 31) / 2 ^ 32) - 2 ^ 31)
    with (z + (- ((z + 2 ^ 31) / 2 ^ 32)) * 2 ^ 32) by lia.
  apply Z_mod_plus_full.
Qed.

Lemma fromHexChar_hexdigit n : 0 ≤ n < 16 → fromHexChar (hexdigit n) = Some n.
Proof.
  intros Hn.
  assert (n = 0 ∨ n = 1 ∨ n = 2 ∨ n = 3 ∨ n = 4 ∨ n = 5 ∨ n = 6 ∨ n = 7
          ∨ n = 8 ∨ n = 9 ∨ n = 10 ∨ n = 11 ∨ n = 12 ∨ n = 13 ∨ n = 14
          ∨ n = 15) as Hcases by lia.
  repeat (destruct Hcases as [-> | Hcases]; [reflexivity|]).
  subst. reflexivity.
Qed.

Lemma hex_DecodeString_hex2 v rest :
  0 ≤ v < 256 →
  hex_DecodeString (hex2 v rest) = (v ::.) <$> hex_DecodeString rest.
Proof.
  intros Hv. unfold hex2. cbn [hex_DecodeString].
  rewrite !fromHexChar_hexdigit.
  - replace (v / 16 * 16 + v mod 16) with v
      by (rewrite (Z.div_mod v 16) at 1; lia).
    by destruct (hex_DecodeString rest).
  - apply Z.mod_pos_bound. lia.
  - split; [apply Z.div_pos; lia|apply Z.div_lt_upper_bound; lia].
Qed.

Lemma append_cons c s1 s2 : String c s1 +:+ s2 = String c (s1 +:+ s2).
Proof. reflexivity. Qed.

Lemma hex_DecodeString_app s1 b1 s2 :
  hex_DecodeString s1 = Some b1 →
  hex_DecodeString (s1 +:+ s2) = (b1 ++.) <$> hex_DecodeString s2.
Proof.
  revert b1.
  assert ((∀ b1, hex_DecodeString s1 = Some b1 →
             hex_DecodeString (s1 +:+ s2) = (b1 ++.) <$> hex_DecodeString s2)
          ∧ ∀ c b1, hex_DecodeString (String c s1) = Some b1 →
             hex_DecodeString (String c s1 +:+ s2)
             = (b1 ++.) <$> hex_DecodeString s2) as [? _]; [|done].
  induction s1 as [|d s1 [IH0 IH1]].
  - split.
    + intros b1. cbn. intros [= <-]. change ("" +:+ s2) with s2.
      by destruct (hex_DecodeString s2).
    + intros c b1. cbn. done.
  - split.
    + apply IH1.
    + intros c b1. rewrite !append_cons. cbn [hex_DecodeString].
      destruct (fromHexChar c); [|done]. destruct (fromHexChar d); [|done].
      destruct (hex_DecodeString s1) as [r|] eqn:Hr; [|done].
      intros [= <-]. rewrite (IH0 r eq_refl).
      by destruct (hex_DecodeString s2).
Qed.

Lemma hex2_append v r s : hex2 v r +:+ s = hex2 v (r +:+ s).
Proof. reflexivity. Qed.

Lemma fakeCoinbase_replaced new :
  strings_Replace1 "d12c0c00" new fakeCoinbaseTemplate
  = substring 0 94 fakeCoinbaseTemplate
    +:+ (new +:+ string_drop 102 fakeCoinbaseTemplate).
Proof. reflexivity. Qed.

(** The coinbase transaction of a block is the template with its height
    field rewritten; decoding its hex text cannot fail. *)
Lemma fakeCoinbase_decoded height :
  hex_DecodeString (fakeCoinbase height) = Some (syntheticCoinbase height).
Proof.
  unfold fakeCoinbase. rewrite fakeCoinbase_replaced.
  erewrite hex_DecodeString_app; [|by vm_compute].
  rewrite !hex2_append. change ("" +:+ ?r) with r.
  rewrite !hex_DecodeString_hex2 by apply byte_range.
  replace (hex_DecodeString (string_drop 102 fakeCoinbaseTemplate))
    with (Some (drop 51 templateBytes)) by (by vm_compute).
  reflexivity.
Qed.

Lemma syntheticCoinbase_congr a b :
  a mod 2 ^ 32 = b mod 2 ^ 32 → syntheticCoinbase a = syntheticCoinbase b.
Proof. intros Hab. unfold syntheticCoinbase. by rewrite (le32_congr a b). Qed.

Lemma synthetic_header_length (root : array32) :
  length (MarshalBinary
            {| Version := 4; HashPrevBlock := make_bytes 32;
               HashMerkleRoot := proj1_sig root;
               HashFinalSaplingRoot := make_bytes 32; Time := 1;
               NBitsBytes := make_bytes 4; Nonce := make_bytes 32;
               Solution := make_bytes 1344 |}) = 1487%nat.
Proof.
  destruct root as [root Hroot]. unfold MarshalBinary, make_bytes.
  cbn [Version HashPrevBlock HashMerkleRoot HashFinalSaplingRoot Time
       NBitsBytes Nonce Solution proj1_sig].
  rewrite !length_app, !length_replicate, Hroot. reflexivity.
Qed.

Lemma set_stagedBlocks_app s (l1 l2 : list (list Z)) :
  set_stagedBlocks (stagedBlocks (set_stagedBlocks (stagedBlocks s ++ l1) s) ++ l2)
    (set_stagedBlocks (stagedBlocks s ++ l1) s)
  = set_stagedBlocks (stagedBlocks s ++ l1 ++ l2) s.
Proof. destruct s. cbn. unfold set_stagedBlocks. cbn. by rewrite app_assoc. Qed.

Lemma stageBlocksCreate_loop_spec (n : nat) (height nonce : Z) :
  ∃ blocks : list (list Z),
    length blocks = n
    ∧ (∀ s, stageBlocksCreate_loop n height nonce s
            = Return (set_stagedBlocks (stagedBlocks s ++ blocks) s, None))
    ∧ (∀ (k : nat) b, blocks !! k = Some b →
         ∃ hdr, length hdr = 1487%nat
                ∧ b = hdr ++ 1 :: syntheticCoinbase (height + Z.of_nat k)).
Proof.
  revert height. induction n as [|n IH]; intros height.
  - exists []. split; [done|]. split; [|done].
    intros s. cbn. rewrite app_nil_r. by destruct s.
  - destruct (IH (wrap32 (height + 1))) as (blocks & Hlen & Hrun & Hcontent).
    set (root := Sum256 (string_of_rune nonce ++ [35] ++ string_of_rune height)).
    set (hdr := MarshalBinary
                  {| Version := 4; HashPrevBlock := make_bytes 32;
                     HashMerkleRoot := proj1_sig root;
                     HashFinalSaplingRoot := make_bytes 32; Time := 1;
                     NBitsBytes := make_bytes 4; Nonce := make_bytes 32;
                     Solution := make_bytes 1344 |}).
    exists (((([] ++ hdr) ++ [1]) ++ syntheticCoinbase height) :: blocks).
    split; [by rewrite <- Hlen|]. split.
    + intros s. cbn [stageBlocksCreate_loop].
      rewrite fakeCoinbase_decoded. cbv zeta. fold root. fold hdr.
      rewrite Hrun. apply f_equal.
      rewrite (set_stagedBlocks_app s [_] blocks). reflexivity.
    + intros [|k] b Hb.
      * apply (inj Some) in Hb. subst b. exists hdr.
        split; [apply synthetic_header_length|].
        rewrite Z.add_0_r, app_nil_l, <- app_assoc. reflexivity.
      * destruct (Hcontent k b Hb) as (hdr' & Hhdr & ->).
        exists hdr'. split; [done|]. do 2 f_equal.
        apply syntheticCoinbase_congr.
        rewrite Z.add_mod, wrap32_mod, <- Z.add_mod by lia. f_equal. lia.
Qed.

(** C9.  The blocks that the synthetic block builder appends to the
    staging area are a function of [(height, nonce, count)] alone: the same
    list is appended from every state.  The block at position [k] is a
    header of 1487 bytes, a transaction count of one, and the coinbase
    template with its four height bytes replaced by the little-endian
    [int32] height of that block, [height + k]. *)
Theorem C9_synthetic_blocks_deterministic (height nonce count : Z) :
  ∃ blocks : list (list Z),
    length blocks = Z.to_nat count
    ∧ (∀ s, resetted s = true →
            DarksideStageBlocksCreate height nonce count s
            = Return (set_stagedBlocks (stagedBlocks s ++ blocks) s, None))
    ∧ (∀ (k : nat) b, blocks !! k = Some b →
         ∃ hdr, length hdr = 1487%nat
                ∧ b !! 1487%nat = Some 1
                ∧ b = hdr ++ 1 :: syntheticCoinbase (height + Z.of_nat k)).
Proof.
  destruct (stageBlocksCreate_loop_spec (Z.to_nat count) height nonce)
    as (blocks & Hlen & Hrun & Hcontent).
  exists blocks. split; [done|]. split.
  - intros s Hres. unfold DarksideStageBlocksCreate. rewrite Hres. apply Hrun.
  - intros k b Hb. destruct (Hcontent k b Hb) as (hdr & Hhdr & ->).
    exists hdr. split; [done|]. split; [|done].
    rewrite lookup_app_r by lia. by rewrite Hhdr.
Qed.

End Builder.

(** ** The positional invariant along runs *)

Section Runs.
Context `{BlockParser} `{TxParser} `{SHA256}.
Import common.

Lemma chain_inv_same s s' :
  activeBlocks s' = activeBlocks s → startHeight s' = startHeight s →
  stagedTransactions s' = stagedTransactions s →
  chain_inv s → chain_inv s'.
Proof.
  intros Ha Hs Ht Hinv Hnil i b. rewrite Ha, Hs. apply Hinv. by rewrite <- Ht.
Qed.

Lemma stageLines_chain lines scanErr s :
  activeBlocks (stageLines lines scanErr s).1 = activeBlocks s
  ∧ startHeight (stageLines lines scanErr s).1 = startHeight s
  ∧ stagedTransactions (stageLines lines scanErr s).1 = stagedTransactions s.
Proof.
  revert s. induction lines as [|l lines IH]; intros s; cbn; [done|].
  destruct (String.eqb l errNotFound404); [done|].
  destruct (hex_DecodeString l); [|done].
  destruct (IH (set_stagedBlocks (stagedBlocks s ++ [l0]) s)) as (-> & -> & ->).
  done.
Qed.

Lemma commit_chain_inv s h s' e :
  height_ignores_prevhash → chain_inv s →
  DarksideApplyStaged s h = Return (s', e) → chain_inv s'.
Proof.
  intros Hign Hinv Hrun. destruct e as [err|].
  - revert Hrun. unfold DarksideApplyStaged.
    destruct (resetted s); cbn [negb]; [|by intros [= <- _]].
    destruct (addStagedBlocks _ _ _) as [[s1 [err1|]]| |] eqn:Hadd;
      [| |done|done].
    { intros [= <- _] Hnil.
      pose proof (addStagedBlocks_fields _ _ _ _ _ Hadd) as [Ht _].
      eapply addStagedBlocks_positional; [done| |done].
      apply Hinv. by rewrite <- Ht. }
    cbn [stagedTransactions set_stagedBlocks].
    destruct (applyStagedTxs _ _) as [[s3 [err3|]]| |] eqn:Htxs;
      [| |done|done].
    + intros [= <- _] Hnil.
      pose proof (applyStagedTxs_fields _ _ _ _ Htxs) as (Ht & _).
      cbn in Ht. rewrite Hnil in Ht. rewrite <- Ht in Htxs. done.
    + destruct (0 <? length (stagedTransactions s3))%nat eqn:Hlen.
      * intros [= <- _] Hnil. by rewrite Hnil in Hlen.
      * by destruct (setPrevhash _).
  - intros _.
    pose proof Hrun as (s1 & blocks & _ & Hadd & Hnil & Hloop & ->)%commit_success.
    pose proof (addStagedBlocks_fields _ _ _ _ _ Hadd) as [Ht _].
    apply addStagedBlocks_positional in Hadd;
      [|done|apply Hinv; by rewrite <- Ht].
    apply setPrevhash_loop_positional in Hloop; [|done].
    intros i b'. cbn. intros Hb'.
    destruct (Forall2_lookup_r _ _ _ _ _ Hloop Hb') as (b & Hb & ->).
    by apply Hadd.
Qed.

Lemma reachable_chain_inv s :
  height_ignores_prevhash → reachable s → chain_inv s.
Proof.
  intros Hign Hreach. induction Hreach as [|c s s' _ IH Hafter].
  { intros _ i b Hb. done. }
  destruct c as [sa bi cn|resp|blockHex|h0 nonce count|h0 txBytes|h0|txHex|
                 |method params]; cbn in Hafter.
  - injection Hafter as <-. intros _ i b Hb. done.
  - injection Hafter as <-. unfold DarksideStageBlocks.
    destruct (negb _); [done|]. destruct resp; [done|].
    destruct (stageLines_chain lines scanErr s) as (? & ? & ?).
    by eapply chain_inv_same.
  - injection Hafter as <-. unfold DarksideStageBlockStream.
    by destruct (hex_DecodeString _).
  - unfold DarksideStageBlocksCreate in Hafter.
    destruct (negb _); [by injection Hafter as <-|].
    destruct (stageBlocksCreate_loop_spec (Z.to_nat count) h0 nonce)
      as (blocks & _ & Hrun & _).
    rewrite Hrun in Hafter. by injection Hafter as <-.
  - injection Hafter as <-. unfold DarksideStageTransaction.
    destruct (negb _); [done|]. cbn. intros Hnil.
    by apply app_nil in Hnil as [_ ?].
  - destruct (DarksideApplyStaged s h0) as [[s1 e]| |] eqn:Hrun; [|done..].
    injection Hafter as <-. by eapply commit_chain_inv.
  - injection Hafter as <-. unfold DarksideSendTransaction.
    destruct (negb _); [done|]. destruct (hex_DecodeString _); [|done].
    destruct (tx_ParseFromSlice _) as [[tx rest] [err|]]; [done|].
    by destruct (negb _).
  - by injection Hafter as <-.
  - unfold darksideRawRequest, darksideGetRawTransaction in Hafter.
    repeat case_match; simplify_eq; done.
Qed.

(** C10.  When the parser reads a block's height independently of its
    previous-hash field, the positional-height invariant (the block at
    index [i] declares height [startHeight + i]) is preserved by
    [addBlockActive], whatever it returns, and by a successful Commit; and
    it holds after every successful Commit in a state that the process can
    reach from its start. *)
Theorem C10_positional_height (s : darksideState) :
  height_ignores_prevhash →
  (positional s →
   (∀ blockBytes s' e,
      addBlockActive s blockBytes = Return (s', e) → positional s')
   ∧ (∀ h s', DarksideApplyStaged s h = Return (s', None) → positional s'))
  ∧ (reachable s →
     ∀ h s', DarksideApplyStaged s h = Return (s', None) → positional s').
Proof.
  intros Hign. split; [intros Hpos; split|].
  - intros b s' e. by apply addBlockActive_positional.
  - intros h s' (s1 & blocks & _ & Hadd & _ & Hloop & ->)%commit_success.
    apply addStagedBlocks_positional in Hadd; [|done..].
    apply setPrevhash_loop_positional in Hloop; [|done].
    intros i b'. cbn. intros Hb'.
    destruct (Forall2_lookup_r _ _ _ _ _ Hloop Hb') as (b & Hb & ->).
    by apply Hadd.
  - intros Hreach h s' Hrun.
    pose proof (reachable_chain_inv s Hign Hreach) as Hinv.
    eapply commit_chain_inv in Hinv; [|done..]. apply Hinv.
    by apply commit_success in Hrun as (s1 & blocks & _ & _ & _ & _ & ->).
Qed.

End Runs.

(** ** The exclusion filter *)

Section Filter.
Import frontend.

(** *** The order on strings *)

Lemma code_inj c d : code c = code d → c = d.
Proof.
  unfold code. intros Hcd%Nat2Z.inj.
  rewrite <- (ascii_nat_embedding c), <- (ascii_nat_embedding d). by rewrite Hcd.
Qed.

Ltac compare_codes :=
  repeat match goal with
         | |- context [?a <? ?b] => destruct (Z.ltb_spec a b)
         | |- context [?a =? ?b] => destruct (Z.eqb_spec a b)
         end;
  try lia; try done.

Lemma str_ltb_irrefl a : str_ltb a a = false.
Proof.
  induction a as [|c a IH]; [done|]. cbn.
  rewrite Z.ltb_irrefl, Z.eqb_refl. done.
Qed.

Lemma str_ltb_asym a b : str_ltb a b = true → str_ltb b a = false.
Proof.
  revert b. induction a as [|c a IH]; intros [|d b]; cbn; try done.
  compare_codes. apply IH.
Qed.

Lemma str_ltb_trans_le a b c :
  str_ltb b a = false → str_ltb c b = false → str_ltb c a = false.
Proof.
  revert b c. induction a as [|x a IH]; intros [|y b] [|z c]; cbn; try done.
  compare_codes. apply IH.
Qed.

#[local] Instance str_le_total : Total str_le.
Proof.
  intros a b. unfold str_le.
  destruct (str_ltb b a) eqn:Hba; [|by left]. right. by apply str_ltb_asym.
Qed.

#[local] Instance str_le_trans : Transitive str_le.
Proof. intros a b c Hab Hbc. unfold str_le in *. by eapply str_ltb_trans_le. Qed.

Lemma sort_Strings_sorted l : StronglySorted str_le (sort_Strings l).
Proof. apply StronglySorted_merge_sort; apply _. Qed.

Lemma sort_Strings_perm l : sort_Strings l ≡ₚ l.
Proof. apply merge_sort_Permutation. Qed.

(** *** [lessthan] and prefixes *)

Lemma lessthan_cons c e d i :
  lessthan (String c e) (String d i)
  = if code c <? code d then true
    else if code c =? code d then lessthan e i else false.
Proof.
  unfold lessthan. cbn [String.length].
  change (S (String.length i) <? S (String.length e))%nat
    with (String.length i <? String.length e)%nat.
  by destruct (String.length i <? String.length e)%nat.
Qed.

Lemma lessthan_tlt e i : lessthan e i = tlt e i.
Proof.
  revert i. induction e as [|c e IH]; intros [|d i]; try done.
  rewrite lessthan_cons, IH. done.
Qed.

Lemma prefix_cons c e d i :
  String.prefix (String c e) (String d i)
  = if decide (c = d) then String.prefix e i else false.
Proof. cbn. destruct (ascii_dec c d); case_decide; done. Qed.

Lemma tlt_mono e i1 i2 : tlt e i1 = true → str_le i1 i2 → tlt e i2 = true.
Proof.
  unfold str_le. revert i1 i2.
  induction e as [|c e IH]; intros [|d1 i1] [|d2 i2]; cbn; try done.
  compare_codes. apply IH.
Qed.

Lemma prefix_not_tlt e i : String.prefix e i = true → tlt e i = false.
Proof.
  revert i. induction e as [|c e IH]; intros [|d i]; try done.
  rewrite prefix_cons. case_decide; [|done]. subst. cbn.
  rewrite Z.ltb_irrefl, Z.eqb_refl. apply IH.
Qed.

Lemma no_later_prefix e e' i :
  tlt e i = false → String.prefix e i = false → str_le e e' →
  String.prefix e' i = false.
Proof.
  unfold str_le. revert e' i.
  induction e as [|c e IH]; intros [|c' e'] [|d i]; try done.
  rewrite !prefix_cons. cbn.
  destruct (decide (c' = d)) as [->|]; [|done].
  destruct (Z.ltb_spec (code d) (code c)); [done|].
  destruct (Z.ltb_spec (code c) (code d)); [done|].
  assert (c = d) as -> by (apply code_inj; lia).
  rewrite Z.eqb_refl. rewrite decide_True by done. apply IH.
Qed.

Lemma prefixes_comparable e1 e2 i :
  String.prefix e1 i = true → String.prefix e2 i = true →
  String.prefix e1 e2 = true ∨ String.prefix e2 e1 = true.
Proof.
  revert e2 i. induction e1 as [|c1 e1 IH]; intros [|c2 e2] [|d i];
    try done; try (by left); try (by right).
  rewrite !prefix_cons. repeat case_decide; subst; try done. apply IH.
Qed.

(** *** The cursor *)

Lemma advance_bounds rest item ei :
  (ei ≤ advance rest item ei ≤ ei + length rest)%nat.
Proof.
  revert ei. induction rest as [|e rest IH]; intros ei; cbn; [lia|].
  destruct (lessthan e item); [specialize (IH (S ei))|]; lia.
Qed.

Lemma advance_app l1 l2 item ei :
  Forall (λ e, tlt e item = true) l1 →
  advance (l1 ++ l2) item ei = advance l2 item (ei + length l1).
Proof.
  intros Hl1. revert ei. induction Hl1 as [|e l1 He _ IH]; intros ei; cbn.
  - by rewrite Nat.add_0_r.
  - rewrite lessthan_tlt, He, IH. f_equal. lia.
Qed.

Lemma advance_skipped rest item ei :
  Forall (λ e, tlt e item = true) (take (advance rest item ei - ei) rest).
Proof.
  revert ei. induction rest as [|e rest IH]; intros ei; cbn.
  - rewrite take_nil. constructor.
  - destruct (lessthan e item) eqn:He.
    + pose proof (advance_bounds rest item (S ei)).
      replace (advance rest item (S ei) - ei)%nat
        with (S (advance rest item (S ei) - S ei)) by lia.
      cbn. constructor; [by rewrite <- lessthan_tlt|apply IH].
    + rewrite Nat.sub_diag. constructor.
Qed.

Lemma advance_stop rest item ei e :
  rest !! (advance rest item ei - ei)%nat = Some e → tlt e item = false.
Proof.
  revert ei. induction rest as [|e0 rest IH]; intros ei; cbn; [done|].
  destruct (lessthan e0 item) eqn:He.
  - pose proof (advance_bounds rest item (S ei)).
    replace (advance rest item (S ei) - ei)%nat
      with (S (advance rest item (S ei) - S ei)) by lia.
    cbn. apply IH.
  - rewrite Nat.sub_diag. cbn. intros [= <-]. by rewrite <- lessthan_tlt.
Qed.

Lemma slot_unfold es item : slot es item = advance es item 0.
Proof. unfold slot, skip. by rewrite drop_0. Qed.

Lemma slot_le es item : (slot es item ≤ length es)%nat.
Proof. rewrite slot_unfold. pose proof (advance_bounds es item 0). lia. Qed.

Lemma slot_skipped es item :
  Forall (λ e, tlt e item = true) (take (slot es item) es).
Proof.
  rewrite slot_unfold. pose proof (advance_skipped es item 0) as Hs.
  by rewrite Nat.sub_0_r in Hs.
Qed.

Lemma slot_stop es item e : es !! slot es item = Some e → tlt e item = false.
Proof.
  rewrite slot_unfold. intros He. apply (advance_stop es item 0).
  by rewrite Nat.sub_0_r.
Qed.

Lemma skip_slot es item ei :
  (ei ≤ length es)%nat → Forall (λ e, tlt e item = true) (take ei es) →
  skip es item ei = slot es item.
Proof.
  intros Hei Htake. rewrite slot_unfold. unfold skip.
  rewrite <- (take_drop ei es) at 2. rewrite advance_app by done.
  rewrite length_take. f_equal. lia.
Qed.

Lemma cursor_next es item items item' :
  StronglySorted str_le (item :: items) → item' ∈ items →
  Forall (λ e, tlt e item' = true) (take (slot es item) es).
Proof.
  intros [Hle _]%StronglySorted_cons Hin.
  eapply Forall_impl; [apply slot_skipped|]. cbn. intros e He.
  eapply tlt_mono; [done|]. rewrite Forall_forall in Hle. by apply Hle.
Qed.

(** On sorted items both loops compute, for every item, the position the
    cursor would reach from the first entry. *)
Lemma count_loop_restart es items ei nm :
  StronglySorted str_le items → (ei ≤ length es)%nat →
  (∀ item, item ∈ items → Forall (λ e, tlt e item = true) (take ei es)) →
  count_loop es items ei nm = foldl (λ nm item, bump es item nm) nm items.
Proof.
  revert ei nm. induction items as [|item items IH]; intros ei nm Hs Hei Hc;
    [done|].
  cbn [count_loop foldl].
  rewrite skip_slot by (done || apply Hc; left).
  apply IH.
  - by apply StronglySorted_cons in Hs as [_ ?].
  - apply slot_le.
  - intros item' Hin. by eapply cursor_next.
Qed.

Lemma send_loop_restart es nm items ei tosend :
  StronglySorted str_le items → (ei ≤ length es)%nat →
  (∀ item, item ∈ items → Forall (λ e, tlt e item = true) (take ei es)) →
  send_loop es nm items ei tosend
  = tosend ++ filter (λ item, kept es nm item = true) items.
Proof.
  revert ei tosend. induction items as [|item items IH];
    intros ei tosend Hs Hei Hc.
  { cbn. by rewrite app_nil_r. }
  cbn [send_loop].
  rewrite skip_slot by (done || apply Hc; left).
  set (tosend' := if negb (is_match es item (slot es item)) then _ else _).
  assert (tosend' = if kept es nm item then tosend ++ [item] else tosend) as ->.
  { unfold tosend', kept. destruct (is_match _ _ _); [|done]. cbn.
    by destruct (_ >? _). }
  rewrite IH; cycle 1.
  - by apply StronglySorted_cons in Hs as [_ ?].
  - apply slot_le.
  - intros item' Hin. by eapply cursor_next.
  - rewrite filter_cons. destruct (kept es nm item).
    + rewrite decide_True by done. by rewrite <- app_assoc.
    + by rewrite decide_False by done.
Qed.

Lemma bump_length es item nm : length (bump es item nm) = length nm.
Proof. unfold bump. destruct (is_match _ _ _); [apply length_insert|done]. Qed.

Lemma is_match_lt es item j : is_match es item j = true → (j < length es)%nat.
Proof.
  unfold is_match. destruct (es !! j) eqn:Hj; [|done].
  intros _. by eapply lookup_lt_Some.
Qed.

Lemma foldl_bump_lookup es items nm (j : nat) :
  length nm = length es → (j < length es)%nat →
  foldl (λ nm item, bump es item nm) nm items !!! j
  = nm !!! j + Z.of_nat (hits es items j).
Proof.
  revert nm. induction items as [|item items IH]; intros nm Hlen Hj.
  { cbn. unfold hits. cbn. lia. }
  cbn [foldl]. rewrite IH by (rewrite ?bump_length; done).
  unfold hits. rewrite filter_cons. unfold bump.
  destruct (is_match es item (slot es item)) eqn:Hm.
  - destruct (decide (slot es item = j)) as [->|Hne].
    + rewrite decide_True by done.
      rewrite list_lookup_total_insert_eq by lia. cbn [length]. lia.
    + rewrite decide_False by (by intros [_ ?]).
      by rewrite list_lookup_total_insert_ne.
  - by rewrite decide_False by (by intros [? _]).
Qed.

(** *** Which entry an item is matched against *)

Lemma sorted_lookup_le (es : list string) (i j : nat) x y :
  StronglySorted str_le es → es !! i = Some x → es !! j = Some y →
  (i < j)%nat → str_le x y.
Proof.
  intros Hs Hx Hy Hij. rewrite <- (take_drop (S i) es) in Hs.
  eapply StronglySorted_app_1_elem_of; [exact Hs| |].
  - apply elem_of_take. exists i. split; [done|lia].
  - apply list_elem_of_lookup. exists (j - S i)%nat.
    rewrite lookup_drop. rewrite <- Hy. f_equal. lia.
Qed.

Lemma skipped_not_prefix es item (j : nat) e :
  es !! j = Some e → (j < slot es item)%nat → String.prefix e item = false.
Proof.
  intros He Hj. pose proof (slot_skipped es item) as Hs.
  rewrite Forall_lookup in Hs. specialize (Hs j e).
  rewrite lookup_take_lt in Hs by done. specialize (Hs He).
  destruct (String.prefix e item) eqn:Hp; [|done].
  apply prefix_not_tlt in Hp. congruence.
Qed.

(** The entry under the cursor is a prefix of the item exactly when some
    entry is. *)
Lemma is_match_iff es item :
  StronglySorted str_le es →
  is_match es item (slot es item) = true
  ↔ ∃ e, e ∈ es ∧ String.prefix e item = true.
Proof.
  intros Hs. split.
  - unfold is_match. destruct (es !! slot es item) as [e0|] eqn:He0; [|done].
    intros Hp. exists e0. split; [by eapply list_elem_of_lookup_2|done].
  - intros (e & [j Hj]%list_elem_of_lookup & Hp).
    assert (slot es item ≤ j)%nat as Hle.
    { destruct (decide (slot es item ≤ j)%nat); [done|].
      rewrite (skipped_not_prefix es item j e) in Hp by (done || lia). done. }
    destruct (lookup_lt_is_Some_2 es (slot es item)) as [e0 He0].
    { apply lookup_lt_Some in Hj. lia. }
    unfold is_match. rewrite He0.
    destruct (String.prefix e0 item) eqn:Hp0; [done|].
    pose proof (slot_stop _ _ _ He0) as Hstop.
    destruct (decide (slot es item = j)) as [Heq|Hne].
    { rewrite Heq in He0. congruence. }
    rewrite (no_later_prefix e0 e item) in Hp; [done..|].
    eapply sorted_lookup_le; [done..|lia].
Qed.

Lemma prefix_free_eq es e1 e2 item :
  prefix_free es → e1 ∈ es → e2 ∈ es →
  String.prefix e1 item = true → String.prefix e2 item = true → e1 = e2.
Proof.
  intros Hpf H1 H2 Hp1 Hp2.
  destruct (prefixes_comparable _ _ _ Hp1 Hp2); [by apply Hpf|].
  symmetry. by apply Hpf.
Qed.

(** Without nested exclude entries, the items matched at a position are
    those that have its entry as a prefix. *)
Lemma same_slot es e0 item item2 :
  StronglySorted str_le es → prefix_free es →
  es !! slot es item = Some e0 → String.prefix e0 item = true →
  String.prefix e0 item2 = true →
  slot es item2 = slot es item.
Proof.
  intros Hs Hpf He0 Hp Hp2.
  assert (e0 ∈ es) as Hin by (by eapply list_elem_of_lookup_2).
  assert (is_match es item2 (slot es item2) = true) as Hm2.
  { apply is_match_iff; [done|]. by exists e0. }
  unfold is_match in Hm2.
  destruct (es !! slot es item2) as [e2|] eqn:He2; [|done].
  assert (e2 = e0) as ->.
  { eapply prefix_free_eq; [done| |done..]. by eapply list_elem_of_lookup_2. }
  destruct (lt_eq_lt_dec (slot es item2) (slot es item)) as [[Hlt|Heq]|Hgt];
    [|done|].
  - rewrite (skipped_not_prefix es item _ e0 He2 Hlt) in Hp. done.
  - rewrite (skipped_not_prefix es item2 _ e0 He0 Hgt) in Hp2. done.
Qed.

Lemma hits_count es e0 item items :
  StronglySorted str_le es → prefix_free es →
  es !! slot es item = Some e0 → String.prefix e0 item = true →
  hits es items (slot es item) = count_prefixed e0 items.
Proof.
  intros Hs Hpf He0 Hp. unfold hits, count_prefixed. f_equal.
  apply list_filter_iff. intros item2. split.
  - intros [Hm Heq]. unfold is_match in Hm. by rewrite Heq, He0 in Hm.
  - intros Hp2. pose proof (same_slot _ _ _ _ Hs Hpf He0 Hp Hp2) as Heq.
    split; [|done]. unfold is_match. by rewrite Heq, He0.
Qed.

Lemma count_prefixed_perm e l1 l2 :
  l1 ≡ₚ l2 → count_prefixed e l1 = count_prefixed e l2.
Proof. intros Hl. unfold count_prefixed. by rewrite Hl. Qed.

Lemma count_prefixed_pos e item items :
  item ∈ items → String.prefix e item = true → (1 ≤ count_prefixed e items)%nat.
Proof.
  intros Hin Hp. unfold count_prefixed.
  assert (item ∈ filter (λ item, String.prefix e item = true) items) as Hf
    by (by apply list_elem_of_filter).
  destruct (filter _ items); [by apply elem_of_nil in Hf|cbn; lia].
Qed.

Lemma uniquely_excluded_iff exclude items item :
  uniquely_excluded exclude items item = true
  ↔ ∃ e, e ∈ exclude ∧ String.prefix e item = true
         ∧ count_prefixed e items = 1%nat.
Proof.
  unfold uniquely_excluded. rewrite existsb_exists. split.
  - intros (e & Hin%list_elem_of_In & [Hp Hc%Nat.eqb_eq]%andb_true_iff). eauto.
  - intros (e & Hin & Hp & Hc). exists e. split; [by apply list_elem_of_In|].
    rewrite Hp. by apply Nat.eqb_eq.
Qed.

Lemma filter_ext_in {A} (P1 P2 : A → Prop) `{!∀ x, Decision (P1 x)}
    `{!∀ x, Decision (P2 x)} (l : list A) :
  (∀ x, x ∈ l → P1 x ↔ P2 x) → filter P1 l = filter P2 l.
Proof.
  induction l as [|a l IH]; intros Hext; [done|].
  rewrite !filter_cons.
  rewrite IH by (intros x Hx; apply Hext; by right).
  destruct (decide (P1 a)) as [H1|H1], (decide (P2 a)) as [H2|H2]; try done.
  - apply Hext in H1; [done|by left].
  - apply Hext in H2; [done|by left].
Qed.

(** The second loop keeps what the specification keeps. *)
Lemma kept_iff items exclude item :
  prefix_free exclude → item ∈ items →
  let es := sort_Strings exclude in
  let sorted := sort_Strings items in
  let nm := foldl (λ nm item, bump es item nm) (replicate (length es) 0) sorted in
  kept es nm item = true ↔ uniquely_excluded exclude items item = false.
Proof.
  intros Hpf Hitem es sorted nm.
  assert (StronglySorted str_le es) as Hs by apply sort_Strings_sorted.
  assert (∀ e, e ∈ es ↔ e ∈ exclude) as Hes
    by (intros e; unfold es; by rewrite sort_Strings_perm).
  assert (prefix_free es) as Hpf'.
  { intros e1 e2 H1 H2. apply Hpf; by apply Hes. }
  unfold kept.
  destruct (is_match es item (slot es item)) eqn:Hm; cbn [negb orb].
  - pose proof (is_match_lt _ _ _ Hm) as Hlt.
    unfold is_match in Hm.
    destruct (es !! slot es item) as [e0|] eqn:He0; [|done].
    assert (e0 ∈ exclude) as Hin0 by (by eapply Hes, list_elem_of_lookup_2).
    unfold nm. rewrite foldl_bump_lookup by (by rewrite ?length_replicate).
    rewrite lookup_total_replicate_2 by done.
    rewrite (hits_count es e0) by done.
    rewrite (count_prefixed_perm e0 sorted items) by apply sort_Strings_perm.
    pose proof (count_prefixed_pos e0 item items Hitem Hm) as Hpos.
    rewrite Z.gtb_ltb, Z.ltb_lt. split.
    + intros Hc. apply not_true_is_false.
      intros (e & Hin & Hp & Hc1)%uniquely_excluded_iff.
      assert (e = e0) as -> by (by eapply (prefix_free_eq exclude)). lia.
    + intros Hu.
      destruct (decide (count_prefixed e0 items = 1%nat)) as [Hc1|]; [|lia].
      rewrite (proj2 (uniquely_excluded_iff exclude items item)) in Hu; [done|].
      by exists e0.
  - split; [|done]. intros _. apply not_true_is_false.
    intros (e & Hin & Hp & _)%uniquely_excluded_iff.
    rewrite (proj2 (is_match_iff es item Hs)) in Hm; [done|].
    exists e. split; [by apply Hes|done].
Qed.

Lemma MempoolFilter_restart items exclude :
  let es := sort_Strings exclude in
  let sorted := sort_Strings items in
  let nm := foldl (λ nm item, bump es item nm) (replicate (length es) 0) sorted in
  MempoolFilter items exclude = filter (λ item, kept es nm item = true) sorted.
Proof.
  intros es sorted nm. unfold MempoolFilter. fold es. fold sorted.
  rewrite count_loop_restart, send_loop_restart;
    try (apply sort_Strings_sorted); try lia;
    try (intros; rewrite take_0; constructor).
  done.
Qed.

(** C3, amended.  When no exclude entry is a prefix of another, different
    exclude entry, the filter returns the items in sorted order except
    those that have an exclude entry as a prefix which is a prefix of
    exactly one item.  For the items abcd1234, abcd5678, ef000000 and the
    exclude entries abcd, ef000000 it returns abcd1234 and abcd5678. *)
Theorem C3_filter_without_nested_prefixes :
  (∀ items exclude,
     prefix_free exclude →
     MempoolFilter items exclude = filter_spec items exclude)
  ∧ MempoolFilter ["abcd1234"; "abcd5678"; "ef000000"] ["abcd"; "ef000000"]
    = ["abcd1234"; "abcd5678"].
Proof.
  split; [|by vm_compute].
  intros items exclude Hpf. rewrite MempoolFilter_restart. unfold filter_spec.
  apply filter_ext_in. intros item Hin.
  apply kept_iff; [done|]. by rewrite <- (sort_Strings_perm items).
Qed.

End Filter.

(** ** The guards of the operations *)

Section Guards.
Context `{BlockParser} `{TxParser} `{SHA256}.
Import common.

(** Where the block exists, the mock zcashd replies as it should; it
    panics exactly where the block at [height - startHeight] does not
    exist although the height passed the two checks. *)
Lemma getblock_cases (s : darksideState) (height : Z) (text heightStr : string) :
  json_Unmarshal_string text = Some heightStr →
  strconv_Atoi heightStr = Some height →
  darksideRawRequest "getblock" [text] s
  = match getblock_spec s height with
    | Some r => Return (s, r)
    | None => Panic
    end.
Proof.
  intros Htext Hatoi. unfold darksideRawRequest, getblock_spec.
  cbn [String.eqb Ascii.eqb Bool.eqb]. cbn. rewrite Htext, Hatoi.
  destruct (length (activeBlocks s) =? 0)%nat; [done|].
  destruct (height >? latestHeight s); [done|].
  destruct (height - startHeight s <? 0) eqn:Hneg.
  - apply Z.ltb_lt in Hneg.
    destruct (Z.ltb_spec height (startHeight s)); [done|lia].
  - apply Z.ltb_ge in Hneg.
    destruct (Z.ltb_spec height (startHeight s)); [lia|].
    by destruct (activeBlocks s !! Z.to_nat (height - startHeight s)).
Qed.

(** Reset empties the four sequences and sets [latestHeight] to -1, and
    the other mutating operations are refused before it. *)
Lemma reset_and_guards (s : darksideState) :
  (∀ sa bi cn,
     let s' := (DarksideReset sa bi cn s).1 in
     activeBlocks s' = [] ∧ stagedBlocks s' = [] ∧ stagedTransactions s' = []
     ∧ incomingTransactions s' = [] ∧ latestHeight s' = -1
     ∧ resetted s' = true)
  ∧ (resetted s = false →
     (∀ resp, DarksideStageBlocks resp s = (s, Some errResetFirst))
     ∧ (∀ h n c, DarksideStageBlocksCreate h n c s = Return (s, Some errResetFirst))
     ∧ (∀ h tx, DarksideStageTransaction h tx s = (s, Some errResetFirst))
     ∧ (∀ h, DarksideApplyStaged s h = Return (s, Some errResetFirst))
     ∧ (∀ txHex, DarksideSendTransaction txHex s
                 = (s, (None, Some errResetFirst)))).
Proof.
  split; [done|]. intros Hres.
  unfold DarksideStageBlocks, DarksideStageBlocksCreate, DarksideStageTransaction,
    DarksideApplyStaged, DarksideSendTransaction.
  by rewrite Hres.
Qed.

End Guards.

(** ** The state machine at concrete inputs *)

Section Examples.
Import common.
#[local] Existing Instance demo.parser.
#[local] Existing Instance demo.txparser.
#[local] Existing Instance demo.sha256.

(** C1, as worded, fails.  On a chain of one block at height 0 with staged
    transactions for heights 7 and 0, Commit returns "transaction height
    too high", which is not of the FailedPrecondition class, leaves the
    block untouched (the second entry is not attempted) and keeps both
    staged transactions. *)
Lemma C1_counterexample :
  DarksideApplyStaged demo.stuck 0 = Return (demo.stuck, Some errTxTooHigh)
  ∧ ¬ FailedPrecondition errTxTooHigh
  ∧ length (stagedTransactions demo.stuck) = 2%nat
  ∧ ¬ C1_as_stated demo.stuck 0.
Proof.
  assert (DarksideApplyStaged demo.stuck 0
          = Return (demo.stuck, Some errTxTooHigh)) as Hrun
    by (vm_compute; reflexivity).
  split; [exact Hrun|]. split; [by intros [?|?]|].
  split; [vm_compute; reflexivity|].
  intros Hclaim. destruct (Hclaim _ _ Hrun) as [Hnil _].
  vm_compute in Hnil. discriminate.
Qed.

(** C6.  On a chain of one block at height 5 with [latestHeight] 5, the
    request for height 4 passes both checks and indexes [activeBlocks] at
    -1: the mock zcashd panics where it owes a reply.  So does the request
    for height 50 when the same chain was committed with [latestHeight]
    100: the index is 45. *)
Theorem C6_getblock_below_start_panics :
  (length (activeBlocks (demo.chain 5 1)) = 1%nat
   ∧ startHeight (demo.chain 5 1) = 5
   ∧ latestHeight (demo.chain 5 1) = 5
   ∧ darksideRawRequest "getblock" [demo.quoted "4"] (demo.chain 5 1) = Panic)
  ∧ (length (activeBlocks (demo.chain_upto 5 1 100)) = 1%nat
     ∧ startHeight (demo.chain_upto 5 1 100) = 5
     ∧ latestHeight (demo.chain_upto 5 1 100) = 100
     ∧ darksideRawRequest "getblock" [demo.quoted "50"] (demo.chain_upto 5 1 100)
       = Panic).
Proof. by vm_compute. Qed.

(** C7.  Before any Reset, streaming a block to the staging area does not
    fail: the block is staged. *)
Theorem C7_stage_stream_before_reset :
  resetted zero_state = false
  ∧ DarksideStageBlockStream "00" zero_state
    = (set_stagedBlocks [[0]] zero_state, None)
  ∧ frontend.StageBlocksStream (["00"%string], None) zero_state
    = (set_stagedBlocks [[0]] zero_state, None).
Proof. by vm_compute. Qed.

End Examples.

(** ** The mempool *)

Section Refresh.
Context `{frontend.Node} `{TxParser}.
Import frontend.

(** The refresh skips an id whose transaction cannot be fetched, and
    stores the empty placeholder for a transaction without shielded
    elements. *)
Lemma refresh_loop_step old txidstr ids newmempoolMap :
  default newmempoolMap old !! txidstr = None →
  (∀ err, getrawtransaction txidstr = RpcFailed err →
     refresh_loop old (txidstr :: ids) newmempoolMap
     = refresh_loop old ids newmempoolMap)
  ∧ (∀ txStr txBytes tx e,
       getrawtransaction txidstr = Decoded txStr →
       hex_DecodeString txStr = Some txBytes →
       tx_ParseFromSlice txBytes = (tx, [], e) →
       HasSaplingElements tx = false →
       refresh_loop old (txidstr :: ids) newmempoolMap
       = refresh_loop old ids (<[txidstr := emptyCompactTx]> newmempoolMap)).
Proof.
  intros Hnew. split.
  - intros err Herr. cbn [refresh_loop]. by rewrite Hnew, Herr.
  - intros txStr txBytes tx e Htx Hhex Hparse Hsap. cbn [refresh_loop].
    rewrite Hnew, Htx, Hhex, Hparse. cbn. by rewrite Hsap.
Qed.

End Refresh.

Section Mempool.
Import frontend.
#[local] Existing Instance demo.node_evicted.
#[local] Existing Instance demo.txparser.

(** C8.  The node lists the id aa and then fails to deliver the
    transaction.  The refresh skips the id and surfaces no error, the id
    survives the filter, and the send loop reads the hash of an entry that
    was never stored: the query panics. *)
Theorem C8_skipped_id_panics :
  refresh 3000000000 demo.mempool0
  = ({| mempoolMap := Some ∅; mempoolList := ["aa"%string];
        lastMempool := 3000000000 |}, None)
  ∧ MempoolFilter ["aa"%string] [] = ["aa"%string]
  ∧ GetMempoolTx [] 3000000000 demo.mempool0 = Panic.
Proof. by vm_compute. Qed.


End Mempool.

Section FilterExample.
Import frontend.

(** C3, as worded, fails.  With the items aa and ab and the exclude
    entries a and ab, the entry ab is a prefix of exactly one item, ab,
    yet the filter keeps it, because the cursor rests on the entry a, which
    two items match. *)
Lemma C3_counterexample :
  MempoolFilter ["aa"; "ab"] ["a"; "ab"] = ["aa"; "ab"]
  ∧ filter_spec ["aa"; "ab"] ["a"; "ab"] = ["aa"]
  ∧ ¬ C3_as_stated.
Proof.
  split; [by vm_compute|]. split; [by vm_compute|].
  intros Hclaim. specialize (Hclaim ["aa"; "ab"] ["a"; "ab"]).
  vm_compute in Hclaim. done.
Qed.

End FilterExample.

(** ** The properties at concrete chains *)

Section Witnesses.
Import common.
#[local] Existing Instance demo.parser.
#[local] Existing Instance demo.txparser.
#[local] Existing Instance demo.sha256.

Lemma demo_hash32 : hash32.
Proof.
  intros b. cbn. unfold demo.hash_of.
  rewrite length_take, length_app, length_replicate. lia.
Qed.

Lemma demo_height_ignores_prevhash : height_ignores_prevhash.
Proof.
  intros b src b' Hcopy. unfold declaredHeight. cbn.
  rewrite (copy_into_length _ _ _ _ _ Hcopy) by lia.
  destruct (length b <=? 1538)%nat; [done|].
  unfold demo.height_of.
  rewrite !list_lookup_total_alt.
  by rewrite !(copy_into_lookup_ge _ _ _ _ Hcopy) by lia.
Qed.

(** The chain of heights 5 to 7 receives a block of height 9: the chain
    is dropped and starts again at 9.  It receives a block of height 6:
    the block of height 5 is kept and the new block is linked to it. *)
Lemma C5_witness :
  addBlockActive (demo.chain 5 3) (demo.block 9)
  = Return (set_activeBlocks [demo.block 9]
              (set_startHeight (GetHeight (demo.block 9)) (demo.chain 5 3)),
            None)
  ∧ ∃ linked,
      addBlockActive (demo.chain 5 3) (demo.block 6)
      = Return (set_activeBlocks
                  (take (Z.to_nat (GetHeight (demo.block 6)
                                   - startHeight (demo.chain 5 3)))
                     (activeBlocks (demo.chain 5 3)) ++ [linked])
                  (demo.chain 5 3), None).
Proof.
  split.
  - assert (ParseFromSlice (demo.block 9) = inr []) as Hparse
      by (vm_compute; reflexivity).
    apply (proj1 (@C5_addBlockActive_reorg demo.parser (demo.chain 5 3)
                    (demo.block 9) Hparse)).
    left. vm_compute. reflexivity.
  - assert (ParseFromSlice (demo.block 6) = inr []) as Hparse
      by (vm_compute; reflexivity).
    destruct (@C5_addBlockActive_reorg demo.parser (demo.chain 5 3)
                (demo.block 6) Hparse) as [_ Hinside].
    cbv zeta in Hinside. destruct Hinside as [_ Hlinked].
    { vm_compute. split; discriminate. }
    set (prevblock := default [] (activeBlocks (demo.chain 5 3) !! 0%nat)).
    assert (last (take (Z.to_nat (GetHeight (demo.block 6)
                                  - startHeight (demo.chain 5 3)))
                    (activeBlocks (demo.chain 5 3))) = Some prevblock) as Hlast
      by (vm_compute; reflexivity).
    rewrite Hlast in Hlinked.
    exists (default [] (copy_into (demo.block 6) 4 36 (GetEncodableHash prevblock))).
    apply Hlinked; vm_compute; reflexivity.
Defined.

(** Three synthetic blocks from height 5 on, once committed, sit at their
    positions. *)
Lemma C10_witness : positional (demo.chain 5 3) ∧ positional (demo.chain 5 3).
Proof.
  pose proof (@C10_positional_height demo.parser demo.txparser demo.sha256
                (demo.staged 5 3) demo_height_ignores_prevhash)
    as [Hpreserved Hreachable].
  split.
  - assert (positional (demo.staged 5 3)) as Hpos.
    { intros i b Hb. vm_compute in Hb. discriminate. }
    apply (proj2 (Hpreserved Hpos) 7). vm_compute. reflexivity.
  - assert (reachable (demo.staged 5 3)) as Hreach.
    { apply (reachable_call (CallStageBlocksCreate 5 0 3) demo.fresh).
      - apply (reachable_call (CallReset 0 "2bb40e60" "main") zero_state).
        + apply reachable_start.
        + reflexivity.
      - vm_compute. reflexivity. }
    apply (Hreachable Hreach 7). vm_compute. reflexivity.
Defined.

(** ... and are hash-linked. *)
Lemma C2_witness : hash_linked (activeBlocks (demo.chain 5 3)).
Proof.
  apply (@C2_commit_hash_linked demo.parser (demo.staged 5 3) 7
           (demo.chain 5 3) demo_hash32).
  vm_compute. reflexivity.
Defined.

(** Commit on the chain with a transaction for height 7 staged first:
    it stops there; and after the successful Commit of three blocks no
    staged transaction is left. *)
Lemma C1_witness :
  (∃ e, DarksideApplyStaged demo.stuck 0 = Return (demo.stuck, Some e)
        ∧ (OutOfRange e ∨ ResourceExhausted e)
        ∧ stagedTransactions demo.stuck = stagedTransactions demo.stuck)
  ∧ stagedTransactions (demo.chain 5 3) = [].
Proof.
  split.
  - apply (proj1 (@C1_commit_stops_at_first_unplaceable demo.parser demo.stuck 0)
             [] {| height := 7; txbytes := [1] |}
             [{| height := 0; txbytes := [2] |}] demo.stuck).
    + split; [vm_compute; reflexivity|]. exists demo.stuck.
      split; vm_compute; reflexivity.
    + vm_compute. reflexivity.
    + left. right. vm_compute. discriminate.
  - apply (proj2 (@C1_commit_stops_at_first_unplaceable demo.parser
                    (demo.staged 5 3) 7)).
    vm_compute. reflexivity.
Defined.


(** Two synthetic blocks from height 5 on: the same two blocks are staged
    on the fresh state and on a state that holds a chain. *)
Lemma C9_witness :
  ∃ blocks : list (list Z),
    length blocks = 2%nat
    ∧ DarksideStageBlocksCreate 5 0 2 demo.fresh
      = Return (set_stagedBlocks (stagedBlocks demo.fresh ++ blocks) demo.fresh,
                None)
    ∧ DarksideStageBlocksCreate 5 0 2 (demo.chain 5 3)
      = Return (set_stagedBlocks (stagedBlocks (demo.chain 5 3) ++ blocks)
                  (demo.chain 5 3), None).
Proof.
  destruct (@C9_synthetic_blocks_deterministic demo.sha256 5 0 2)
    as (blocks & Hlen & Hrun & _).
  exists blocks. split; [exact Hlen|].
  split; apply Hrun; vm_compute; reflexivity.
Defined.

(** The exclude list of the example has no nested entries. *)
Lemma C3_witness :
  prefix_free ["abcd"; "ef000000"]
  ∧ frontend.MempoolFilter ["abcd1234"; "abcd5678"; "ef000000"]
      ["abcd"; "ef000000"]
    = filter_spec ["abcd1234"; "abcd5678"; "ef000000"] ["abcd"; "ef000000"].
Proof.
  assert (prefix_free ["abcd"; "ef000000"]) as Hpf.
  { intros e1 e2 H1 H2 Hp.
    apply elem_of_cons in H1 as [->|H1%list_elem_of_singleton];
      apply elem_of_cons in H2 as [->|H2%list_elem_of_singleton];
      subst; try reflexivity; vm_compute in Hp; discriminate. }
  split; [exact Hpf|].
  apply (proj1 C3_filter_without_nested_prefixes). exact Hpf.
Defined.

End Witnesses.

(** * More properties of the code *)

(** ** encoding/hex and encoding/json *)

Section Codec.
Import frontend.

Lemma hexdigit_facts n :
  0 ≤ n < 16 →
  plain_char (hexdigit n) = true ∧ lower_hex (hexdigit n) = true.
Proof.
  intros Hn.
  assert (n = 0 ∨ n = 1 ∨ n = 2 ∨ n = 3 ∨ n = 4 ∨ n = 5 ∨ n = 6 ∨ n = 7
          ∨ n = 8 ∨ n = 9 ∨ n = 10 ∨ n = 11 ∨ n = 12 ∨ n = 13 ∨ n = 14
          ∨ n = 15) as Hcases by lia.
  repeat (destruct Hcases as [-> | Hcases]; [by vm_compute|]).
  subst. by vm_compute.
Qed.

Lemma nibbles v : is_byte v → 0 ≤ v / 16 < 16 ∧ 0 ≤ v mod 16 < 16.
Proof.
  intros [? ?]. split.
  - split; [apply Z.div_pos; lia|apply Z.div_lt_upper_bound; lia].
  - apply Z.mod_pos_bound. lia.
Qed.

(** Decoding the hex text of bytes gives the bytes back. *)
Lemma hex_roundtrip (b : list Z) :
  Forall is_byte b → hex_DecodeString (hex_EncodeToString b) = Some b.
Proof.
  induction 1 as [|v b Hv _ IH]; [done|].
  cbn [hex_EncodeToString]. rewrite hex_DecodeString_hex2 by exact Hv.
  by rewrite IH.
Qed.

Lemma hex_encode_plain (b : list Z) :
  Forall is_byte b →
  forallb plain_char (list_ascii_of_string (hex_EncodeToString b)) = true.
Proof.
  induction 1 as [|v b Hv _ IH]; [done|].
  destruct (nibbles v Hv) as [Hhi Hlo].
  cbn [hex_EncodeToString hex2 list_ascii_of_string forallb].
  rewrite (proj1 (hexdigit_facts _ Hhi)), (proj1 (hexdigit_facts _ Hlo)).
  exact IH.
Qed.

Lemma hex_encode_length (b : list Z) :
  String.length (hex_EncodeToString b) = (2 * length b)%nat.
Proof. induction b as [|v b IH]; [done|]. cbn. rewrite IH. lia. Qed.

Lemma length_append (a b : string) :
  String.length (a +:+ b) = (String.length a + String.length b)%nat.
Proof. induction a as [|c a IH]; [done|]. rewrite append_cons. cbn. by rewrite IH. Qed.

Lemma substring_append (a b : string) :
  substring 0 (String.length a) (a +:+ b) = a.
Proof. induction a as [|c a IH]; [by destruct b|]. rewrite append_cons. cbn. by rewrite IH. Qed.

Lemma json_string_body_plain (s : string) :
  forallb plain_char (list_ascii_of_string s) = true →
  json_string_body (s +:+ String dquote EmptyString) = Some s.
Proof.
  induction s as [|c s IH]; [done|].
  cbn [list_ascii_of_string forallb]. intros [Hc Hs]%andb_true_iff.
  rewrite append_cons. cbn [json_string_body].
  unfold plain_char in Hc.
  destruct (code c =? 34); [done|]. destruct (code c =? 92); [done|].
  destruct (code c <? 32); [done|]. cbn. by rewrite IH.
Qed.

(** Unmarshalling the JSON text of a plain string gives the string back. *)
Lemma json_roundtrip (s : string) :
  forallb plain_char (list_ascii_of_string s) = true →
  json_Unmarshal_string (json_Marshal_string s) = Some s.
Proof. intros Hs. unfold json_Marshal_string. cbn. by apply json_string_body_plain. Qed.

End Codec.

(** ** The wallet's requests and the mock zcashd *)

Section Mock.
Import common frontend.
Context `{BlockParser} `{JSON}.
Variable strings_TrimSpace : string → string.

(** X1.  A [getblock] request for a height at or below [latestHeight]
    whose block exists is answered with a JSON string that unmarshals and
    hex-decodes to exactly the stored block, and leaves the state as it
    is; with no chain, or above [latestHeight], the answer is the not-found
    error. *)
Theorem getblock_reply_decodes (s : darksideState) (height : Z)
    (text heightStr : string) :
  json_Unmarshal_string text = Some heightStr →
  strconv_Atoi heightStr = Some height →
  (activeBlocks s = [] ∨ height > latestHeight s →
   darksideRawRequest "getblock" [text] s = Return (s, (NilReply, Some notFoundErr)))
  ∧ (∀ block,
       height ≤ latestHeight s → startHeight s ≤ height →
       activeBlocks s !! Z.to_nat (height - startHeight s) = Some block →
       Forall is_byte block →
       ∃ reply,
         darksideRawRequest "getblock" [text] s = Return (s, (RawJSON reply, None))
         ∧ json_Unmarshal_string reply ≫= hex_DecodeString = Some block).
Proof.
  intros Htext Hatoi. rewrite (getblock_cases s height text heightStr Htext Hatoi).
  unfold getblock_spec. split.
  - intros [Hnil | Habove].
    + by rewrite Hnil.
    + destruct (length (activeBlocks s) =? 0)%nat; [done|].
      rewrite Z.gtb_ltb. by destruct (Z.ltb_spec (latestHeight s) height); [|lia].
  - intros block Hlatest Hstart Hblock Hbytes.
    destruct (activeBlocks s) as [|b0 bs] eqn:Hactive; [done|]. cbn [length Nat.eqb].
    rewrite Z.gtb_ltb. destruct (Z.ltb_spec (latestHeight s) height); [lia|].
    destruct (Z.ltb_spec height (startHeight s)); [lia|].
    rewrite Hblock. eexists. split; [reflexivity|].
    change (String dquote (?t +:+ String dquote EmptyString))
      with (json_Marshal_string t).
    rewrite json_roundtrip by (by apply hex_encode_plain).
    cbn. by apply hex_roundtrip.
Qed.

Lemma mock_sendrawtransaction (data : list Z) (s : darksideState) :
  Forall is_byte data →
  darksideRawRequest "sendrawtransaction"
    [json_Marshal_string (hex_EncodeToString data)] s
  = Return (set_incomingTransactions (incomingTransactions s ++ [data]) s,
            (NilReply, None)).
Proof.
  intros Hdata. unfold darksideRawRequest. cbn [String.eqb Ascii.eqb Bool.eqb].
  cbn match. rewrite json_roundtrip by (by apply hex_encode_plain).
  by rewrite hex_roundtrip.
Qed.

(** X2.  In darkside mode the wallet's [SendTransaction] stores exactly
    the bytes it was given at the end of [incomingTransactions] and
    answers with code 0 and an empty message; it does so whether or not
    Reset was called and whatever the bytes are. *)
Theorem SendTransaction_reaches_mock (data : list Z) (s : darksideState) :
  Forall is_byte data →
  let s' := set_incomingTransactions (incomingTransactions s ++ [data]) s in
  SendTransaction strings_TrimSpace (Some (Some data)) s
  = Return (s', inr {| ErrorCode := 0; ErrorMessage := EmptyString |})
  ∧ DarksideGetIncomingTransactions s' = incomingTransactions s ++ [data].
Proof.
  intros Hdata s'. split; [|done].
  unfold SendTransaction. cbn [RawRequest darkside_backend].
  by rewrite mock_sendrawtransaction.
Qed.

Lemma searchBlocks_sound (txid : list Z) (blocks : list (list Z)) r :
  searchBlocks txid blocks = (r, None) →
  ∃ block raw,
    block ∈ blocks ∧ findTx txid (Transactions block) = Some raw
    ∧ r = RawTransactionReply (hex_EncodeToString raw) (GetHeight block).
Proof.
  induction blocks as [|b blocks IH]; cbn; [done|].
  destruct (ParseFromSlice b); [done|]. destruct (negb _); [done|].
  destruct (findTx txid (Transactions b)) as [raw|] eqn:Hfind.
  - intros [= <-]. exists b, raw. split; [by left|done].
  - intros (block & raw & ? & ? & ?)%IH. exists block, raw.
    split; [by right|done].
Qed.

Lemma searchBlocks_complete (txid : list Z) (blocks : list (list Z)) :
  (∀ block, block ∈ blocks → ParseFromSlice block = inr []) →
  (∃ block, block ∈ blocks ∧ is_Some (findTx txid (Transactions block))) →
  ∃ r, searchBlocks txid blocks = (r, None).
Proof.
  induction blocks as [|b blocks IH]; intros Hparse (block & Hin & Hfound).
  { by apply elem_of_nil in Hin. }
  cbn. rewrite (Hparse b) by (by left). cbn.
  destruct (findTx txid (Transactions b)) as [raw|] eqn:Hfind; [by eexists|].
  apply IH.
  - intros ??. apply Hparse. by right.
  - exists block. split; [|done].
    apply elem_of_cons in Hin as [->|?]; [|done].
    rewrite Hfind in Hfound. by destruct Hfound.
Qed.

Lemma findTx_elem (txid : list Z) txs raw :
  findTx txid txs = Some raw → (txid, raw) ∈ txs.
Proof.
  induction txs as [|[h r] txs IH]; cbn; [done|].
  case_decide; [intros [= <-]; subst; by left|]. intros ?. right. by apply IH.
Qed.

(** X3.  In darkside mode, after Reset, [GetTransaction] with a 32-byte
    hash never makes the mock zcashd panic and leaves the state as it is.
    What it returns without an error are the raw bytes of a transaction of
    an active block, listed there under the byte-reversed hash, with the
    height of that block; and when every active block parses and one of
    them lists the reversed hash, it returns a transaction. *)
Theorem GetTransaction_from_mock (hash : list Z) (s : darksideState) :
  rawtransaction_roundtrip →
  (∀ block, Forall (λ tx, Forall is_byte tx.2) (Transactions block)) →
  resetted s = true → length hash = 32%nat → Forall is_byte hash →
  ∃ r,
    GetTransaction {| TxFilter_Block := None; TxFilter_Index := 0;
                      TxFilter_Hash := Some hash |} s = Return (s, r)
    ∧ (∀ tx, r = inr tx →
         ∃ block raw,
           block ∈ activeBlocks s
           ∧ findTx (rev hash) (Transactions block) = Some raw
           ∧ Data tx = raw
           ∧ RawTransaction_Height tx = to_uint64 (GetHeight block))
    ∧ ((∀ block, block ∈ activeBlocks s → ParseFromSlice block = inr []) →
       (∃ block, block ∈ activeBlocks s
                 ∧ is_Some (findTx (rev hash) (Transactions block))) →
       ∃ tx, r = inr tx).
Proof.
  intros Hjson Hbytes Hres Hlen Hhash.
  assert (Forall is_byte (rev hash)) as Hrev by (by apply Forall_rev).
  unfold GetTransaction. cbn [TxFilter_Hash]. rewrite Hlen. cbn [Nat.eqb negb].
  cbn [RawRequest darkside_backend].
  unfold darksideRawRequest. cbn [String.eqb Ascii.eqb Bool.eqb]. cbn match.
  unfold darksideGetRawTransaction. rewrite Hres. cbn [negb].
  assert (String.length (json_Marshal_string (hex_EncodeToString (rev hash)))
          = 66%nat) as Hlen66.
  { unfold json_Marshal_string. cbn [String.length].
    rewrite length_append, hex_encode_length, length_rev, Hlen. done. }
  rewrite Hlen66. cbn [Nat.ltb Nat.leb].
  assert (substring 1 64 (json_Marshal_string (hex_EncodeToString (rev hash)))
          = hex_EncodeToString (rev hash)) as ->.
  { unfold json_Marshal_string.
    change (substring 1 64 (String dquote ?t)) with (substring 0 64 t).
    replace 64%nat with (String.length (hex_EncodeToString (rev hash)))
      by (rewrite hex_encode_length, length_rev, Hlen; done).
    apply substring_append. }
  rewrite hex_roundtrip by done.
  destruct (searchBlocks (rev hash) (activeBlocks s)) as [r [err|]] eqn:Hsearch.
  - eexists. split; [reflexivity|]. split; [done|].
    intros Hparse Hfound.
    destruct (searchBlocks_complete _ _ Hparse Hfound) as [r' Hr'].
    rewrite Hr' in Hsearch. done.
  - destruct (searchBlocks_sound _ _ _ Hsearch) as (block & raw & Hin & Hfind & ->).
    cbn [reply_text]. rewrite Hjson.
    assert (Forall is_byte raw) as Hraw.
    { pose proof (Hbytes block) as Hall. rewrite Forall_forall in Hall.
      apply (Hall (rev hash, raw)). by apply findTx_elem. }
    rewrite hex_roundtrip by done.
    eexists. split; [reflexivity|]. split; [|by eexists].
    intros tx [= <-]. exists block, raw. done.
Qed.

End Mock.

(** ** The wallet's requests over any node *)

Section Wallet.
Import common frontend.
Context {B : Type} `{Backend B} `{JSON}.
Variable strings_TrimSpace : string → string.

Lemma split_colon_first (part0 part1 : string) :
  forallb (λ c, negb (code c =? 58)) (list_ascii_of_string part0) = true →
  split_colon (part0 +:+ String ":"%char part1) = Some (part0, part1).
Proof.
  induction part0 as [|c part0 IH]; [done|].
  cbn [list_ascii_of_string forallb]. intros [Hc Hrest]%andb_true_iff.
  rewrite append_cons. cbn [split_colon].
  destruct (code c =? 58); [done|]. by rewrite IH.
Qed.

Lemma split_colon_none (text : string) :
  forallb (λ c, negb (code c =? 58)) (list_ascii_of_string text) = true →
  split_colon text = None.
Proof.
  induction text as [|c text IH]; [done|].
  cbn [list_ascii_of_string forallb split_colon]. intros [Hc Hrest]%andb_true_iff.
  destruct (code c =? 58); [done|]. by rewrite IH.
Qed.

Lemma ParseInt32_range (text : string) (n : Z) :
  strconv_ParseInt32 text = Some n → wrap32 n = n.
Proof.
  unfold strconv_ParseInt32.
  match goal with |- match ?v with _ => _ end = _ → _ => destruct v as [m|] end;
    [|done].
  destruct (Z.leb_spec (- 2 ^ 31) m); [|done].
  destruct (Z.ltb_spec m (2 ^ 31)); [|done].
  intros [= <-]. unfold wrap32. rewrite Z.mod_small; lia.
Qed.

(** X4.  When the node rejects a transaction, [SendTransaction] splits the
    node's message at its first colon: the text before it is the error code
    of the response when it is a decimal [int32], the trimmed text after it
    is the error message, and the call itself returns no error.  A message
    without a colon, or with anything else before the first colon, makes
    the call fail with the could-not-parse error. *)
Theorem SendTransaction_error_reply (data : list Z) (b b' : B)
    (result rpcErr : string) :
  RawRequest "sendrawtransaction" [json_Marshal_string (hex_EncodeToString data)] b
    = Return (b', (result, Some rpcErr)) →
  (∀ part0 part1,
     rpcErr = part0 +:+ String ":"%char part1 →
     forallb (λ c, negb (code c =? 58)) (list_ascii_of_string part0) = true →
     SendTransaction strings_TrimSpace (Some (Some data)) b
     = Return (b',
         match strconv_ParseInt32 part0 with
         | Some n => inr {| ErrorCode := n; ErrorMessage := strings_TrimSpace part1 |}
         | None => inl errCode
         end))
  ∧ (forallb (λ c, negb (code c =? 58)) (list_ascii_of_string rpcErr) = true →
     SendTransaction strings_TrimSpace (Some (Some data)) b = Return (b', inl errCode)).
Proof.
  intros Hreq. unfold SendTransaction. rewrite Hreq. split.
  - intros part0 part1 -> Hpart0. rewrite split_colon_first by done.
    destruct (strconv_ParseInt32 part0) as [n|] eqn:Hparse; [|done].
    by rewrite (ParseInt32_range _ _ Hparse).
  - intros Hnone. by rewrite split_colon_none.
Qed.

Lemma checkTaddress_error (addr : string) (err : error) :
  checkTaddress addr = Some err → err = "invalid address"%string.
Proof.
  unfold checkTaddress. destruct addr as [|c rest]; [by intros [= <-]|].
  destruct (_ && _); [done|]. by intros [= <-].
Qed.

Lemma checkTaddresses_invalid (addressList : list string) :
  (∃ addr, addr ∈ addressList ∧ checkTaddress addr ≠ None) →
  checkTaddresses addressList = Some "invalid address"%string.
Proof.
  induction addressList as [|a addressList IH]; intros (addr & Hin & Hbad).
  { by apply elem_of_nil in Hin. }
  cbn. destruct (checkTaddress a) as [err|] eqn:Ha.
  - by rewrite (checkTaddress_error _ _ Ha).
  - apply IH. exists addr. split; [|done].
    apply elem_of_cons in Hin as [->|?]; done.
Qed.

(** X5.  An address that is not a [t] followed by 34 letters or digits is
    refused before the node is reached: the balance query and the utxo
    query with one such address anywhere in their list, and the txid query
    for such an address, return the invalid-address error, deliver
    nothing, and leave the node as it is, whatever the node. *)
Theorem invalid_address_no_request (addressList : list string) (b : B)
    (arg : GetAddressUtxosArg) (f : GetAddressUtxosReply → option error)
    (filter : TransparentAddressBlockFilter) :
  ((∃ addr, addr ∈ addressList ∧ checkTaddress addr ≠ None) →
   getTaddressBalanceZcashdRpc addressList b
   = Return (b, (0, Some "invalid address"%string)))
  ∧ ((∃ addr, addr ∈ Arg_Addresses arg ∧ checkTaddress addr ≠ None) →
     getAddressUtxos arg f b = Return (b, ([], Some "invalid address"%string)))
  ∧ (checkTaddress (Filter_Address filter) ≠ None →
     GetTaddressTxids filter b = Return (b, ([], Some "invalid address"%string))).
Proof.
  split; [|split].
  - intros Hbad. unfold getTaddressBalanceZcashdRpc.
    by rewrite checkTaddresses_invalid.
  - intros Hbad. unfold getAddressUtxos. by rewrite checkTaddresses_invalid.
  - intros Hbad. unfold GetTaddressTxids.
    destruct (checkTaddress (Filter_Address filter)) as [err|] eqn:Haddr; [|done].
    by rewrite (checkTaddress_error _ _ Haddr).
Qed.

Lemma getAddressUtxos_loop_all (arg : GetAddressUtxosArg) (utxos : list utxo)
    (n : Z) (given : list GetAddressUtxosReply) :
  Arg_MaxEntries arg = 0 →
  Forall (λ u, is_Some (hex_DecodeString (utxo_Txid u))
               ∧ is_Some (hex_DecodeString (utxo_Script u)))
    (filter (eligible arg) utxos) →
  getAddressUtxos_loop arg (λ _, None) utxos n given
  = (given ++ map utxo_reply (filter (eligible arg) utxos), None).
Proof.
  intros Hmax. revert n given.
  induction utxos as [|u utxos IH]; intros n given Hdec.
  { cbn. by rewrite app_nil_r. }
  cbn [getAddressUtxos_loop]. rewrite filter_cons in Hdec |- *.
  destruct (decide (eligible arg u)) as [He|He]; unfold eligible in He;
    destruct (Z.ltb_spec (to_uint64 (utxo_Height u)) (Arg_StartHeight arg));
    try lia; [|by apply IH].
  - apply Forall_cons in Hdec as [[[txid Htxid] [script Hscript]] Hdec].
    rewrite Hmax. cbn [Z.gtb Z.compare andb].
    rewrite Htxid, Hscript. rewrite IH by done.
    cbn [map]. unfold utxo_reply at 2. rewrite Htxid, Hscript. cbn [default].
    by rewrite <- app_assoc.
Qed.

Lemma getAddressUtxos_loop_limited (arg : GetAddressUtxosArg) (utxos : list utxo)
    (n : Z) (given : list GetAddressUtxosReply) :
  0 < Arg_MaxEntries arg →
  0 ≤ n ≤ Arg_MaxEntries arg →
  n + Z.of_nat (length utxos) < 2 ^ 32 →
  Forall (λ u, is_Some (hex_DecodeString (utxo_Txid u))
               ∧ is_Some (hex_DecodeString (utxo_Script u)))
    (take (Z.to_nat (Arg_MaxEntries arg - n)) (filter (eligible arg) utxos)) →
  getAddressUtxos_loop arg (λ _, None) utxos n given
  = (given ++ map utxo_reply
       (take (Z.to_nat (Arg_MaxEntries arg - n)) (filter (eligible arg) utxos)),
     None).
Proof.
  intros Hmax. revert n given.
  induction utxos as [|u utxos IH]; intros n given Hn Hlen Hdec.
  { cbn. by rewrite take_nil, app_nil_r. }
  cbn [getAddressUtxos_loop]. rewrite filter_cons in Hdec |- *.
  cbn [length] in Hlen.
  destruct (decide (eligible arg u)) as [He|He]; unfold eligible in He;
    destruct (Z.ltb_spec (to_uint64 (utxo_Height u)) (Arg_StartHeight arg));
    try lia; [|apply IH; (done || lia)].
  - rewrite !Z.gtb_ltb. destruct (Z.ltb_spec 0 (Arg_MaxEntries arg)); [|lia].
    cbn [andb]. unfold to_uint32. rewrite Z.mod_small by lia.
    destruct (Z.ltb_spec (Arg_MaxEntries arg) (n + 1)).
    + replace (Z.to_nat (Arg_MaxEntries arg - n)) with 0%nat by lia.
      cbn. by rewrite app_nil_r.
    + replace (Z.to_nat (Arg_MaxEntries arg - n))
        with (S (Z.to_nat (Arg_MaxEntries arg - (n + 1)))) in Hdec |- * by lia.
      cbn [take] in Hdec |- *.
      apply Forall_cons in Hdec as [[[txid Htxid] [script Hscript]] Hdec].
      rewrite Htxid, Hscript. rewrite IH by (done || lia).
      cbn [map]. unfold utxo_reply at 2. rewrite Htxid, Hscript. cbn [default].
      by rewrite <- app_assoc.
Qed.

(** X6.  [GetAddressUtxos] returns, in the node's order, the utxos whose
    height is at or above the requested start height, cut after
    [MaxEntries] of them when that is not zero; each is returned with its
    txid byte-reversed and its script decoded.  Utxos below the start
    height do not count towards the limit, and only the utxos that are
    returned need hex fields that decode.  (For a reply of fewer than
    2^32 utxos: the limit is compared with the count as a [uint32].) *)
Theorem GetAddressUtxos_replies (arg : GetAddressUtxosArg) (b b' : B)
    (result : string) (utxos : list utxo) :
  checkTaddresses (Arg_Addresses arg) = None →
  RawRequest "getaddressutxos" [Marshal_addresses (Arg_Addresses arg)] b
    = Return (b', (result, None)) →
  Unmarshal_utxos result = inr utxos →
  0 ≤ Arg_MaxEntries arg →
  Z.of_nat (length utxos) < 2 ^ 32 →
  Forall (λ u, is_Some (hex_DecodeString (utxo_Txid u))
               ∧ is_Some (hex_DecodeString (utxo_Script u)))
    (limit arg (filter (eligible arg) utxos)) →
  GetAddressUtxos arg b
  = Return (b', (map utxo_reply (limit arg (filter (eligible arg) utxos)), None)).
Proof.
  intros Haddr Hreq Hjson Hmax Hlen Hdec.
  unfold GetAddressUtxos, getAddressUtxos. rewrite Haddr, Hreq, Hjson.
  unfold limit in Hdec |- *.
  destruct (Z.eqb_spec (Arg_MaxEntries arg) 0) as [Hzero|Hpos].
  - by rewrite getAddressUtxos_loop_all.
  - rewrite getAddressUtxos_loop_limited; rewrite ?Z.sub_0_r; (done || lia).
Qed.

End Wallet.

Section MockAddressQueries.
Import common frontend.
Context `{BlockParser} `{JSON}.

(** X7.  The mock zcashd serves no address query: with valid addresses and
    a complete block range, [GetTaddressTxids] fails with the
    not-implemented error and the balance and utxo queries fail with the
    unsupported-RPC error; none of them changes the darkside state or
    delivers anything. *)
Theorem address_queries_unsupported_by_mock (s : darksideState)
    (address : string) (start end_ : BlockID) (addressList : list string)
    (arg : GetAddressUtxosArg) (f : GetAddressUtxosReply → option error) :
  (checkTaddress address = None →
   GetTaddressTxids
     {| Filter_Address := address;
        Filter_Range := Some {| Range_Start := Some start; Range_End := Some end_ |} |} s
   = Return (s, ([], Some "not implemented yet"%string)))
  ∧ (checkTaddresses addressList = None →
     GetTaddressBalance addressList s
     = Return (s, (0, Some "there was an attempt to call an unsupported RPC"%string)))
  ∧ (checkTaddresses (Arg_Addresses arg) = None →
     getAddressUtxos arg f s
     = Return (s, ([], Some "there was an attempt to call an unsupported RPC"%string))).
Proof.
  split; [|split]; intros Hok.
  - unfold GetTaddressTxids. cbn [Filter_Address Filter_Range]. by rewrite Hok.
  - unfold GetTaddressBalance, getTaddressBalanceZcashdRpc. by rewrite Hok.
  - unfold getAddressUtxos. by rewrite Hok.
Qed.

End MockAddressQueries.

(** ** Staging *)

Section Staging.
Import common frontend.
Context `{BlockParser} `{TxParser} `{SHA256}.

Lemma stageLines_decoded (good : list string) (blocks : list (list Z))
    (rest : list string) (scanErr : option error) (s : darksideState) :
  Forall2 (λ line b, hex_DecodeString line = Some b) good blocks →
  stageLines (good ++ rest) scanErr s
  = stageLines rest scanErr (set_stagedBlocks (stagedBlocks s ++ blocks) s).
Proof.
  intros Hgood. revert s. induction Hgood as [|line b good blocks Hline _ IH]; intros s.
  { cbn. rewrite app_nil_r. by destruct s. }
  cbn [app stageLines]. rewrite Hline.
  destruct (String.eqb_spec line errNotFound404) as [->|_]; [done|].
  rewrite IH. cbn [stagedBlocks set_stagedBlocks]. rewrite <- app_assoc. done.
Qed.

(** X8.  [DarksideStageBlocks] stages the lines of the response in order
    and stops at the first line that is not hex: the blocks of the lines
    before it stay staged, the lines after it are not looked at, nothing
    else of the state changes, and the error is the not-found message when
    the line is that message and the hex error otherwise.  When every line
    decodes, the blocks are all staged and the result is the scanner's
    error. *)
Theorem DarksideStageBlocks_stops_at_bad_line (good : list string)
    (blocks : list (list Z)) (scanErr : option error) (s : darksideState) :
  resetted s = true →
  Forall2 (λ line b, hex_DecodeString line = Some b) good blocks →
  DarksideStageBlocks (Body good scanErr) s
  = (set_stagedBlocks (stagedBlocks s ++ blocks) s, scanErr)
  ∧ ∀ bad rest,
      hex_DecodeString bad = None →
      DarksideStageBlocks (Body (good ++ bad :: rest) scanErr) s
      = (set_stagedBlocks (stagedBlocks s ++ blocks) s,
         Some (if String.eqb bad errNotFound404 then errNotFound404 else errHex)).
Proof.
  intros Hreset Hgood. unfold DarksideStageBlocks. rewrite Hreset. cbn [negb].
  split.
  - rewrite <- (app_nil_r good). by rewrite (stageLines_decoded _ _ _ _ _ Hgood).
  - intros bad rest Hbad. rewrite (stageLines_decoded _ _ _ _ _ Hgood).
    cbn [stageLines]. rewrite Hbad.
    by destruct (String.eqb_spec bad errNotFound404) as [->|_].
Qed.

Lemma StageBlocksStream_loop_staged (blocks : list string) (closing : option error)
    (s : darksideState) :
  StageBlocksStream_loop blocks closing s
  = (set_stagedBlocks (stagedBlocks s ++ omap hex_DecodeString blocks) s, closing).
Proof.
  revert s. induction blocks as [|b blocks IH]; intros s.
  { cbn. rewrite app_nil_r. by destruct s. }
  cbn [StageBlocksStream_loop omap list_omap]. rewrite IH.
  unfold DarksideStageBlockStream.
  destruct (hex_DecodeString b) as [blockBytes|]; cbn; [|done].
  by rewrite <- app_assoc.
Qed.

(** X9.  [StageBlocksStream] stages every block of the stream that is
    hex, in order, and silently leaves out the ones that are not; it
    returns what the stream ended with, never an error of its own, and it
    does so before Reset as well as after. *)
Theorem StageBlocksStream_skips_bad_blocks (blocks : stream string)
    (s : darksideState) :
  StageBlocksStream blocks s
  = (set_stagedBlocks (stagedBlocks s ++ omap hex_DecodeString blocks.1) s, blocks.2).
Proof. apply StageBlocksStream_loop_staged. Qed.



End Staging.

(** ** What Commit leaves alone *)

Section Frame.
Import common.
Context `{BlockParser} `{TxParser} `{SHA256}.

Lemma untouched_refl s : untouched s s.
Proof. by repeat split. Qed.

Lemma untouched_trans s1 s2 s3 : untouched s1 s2 → untouched s2 s3 → untouched s1 s3.
Proof.
  unfold untouched. intros (?&?&?&?&?&?&?) (?&?&?&?&?&?&?).
  repeat split; congruence.
Qed.

Lemma addBlockActive_untouched s b s' e :
  addBlockActive s b = Return (s', e) → untouched s s'.
Proof.
  unfold addBlockActive.
  change (if GetHeight b >? _ then _ else _) with (dropOverwritten (GetHeight b) s).
  assert (untouched s (dropOverwritten (GetHeight b) s)) as Hdrop.
  { unfold dropOverwritten. by repeat case_match. }
  revert Hdrop. generalize (dropOverwritten (GetHeight b) s). intros s0 Hdrop.
  repeat case_match; intros [= <- <-]; try done; try apply untouched_refl.
Qed.

Lemma addStagedBlocks_untouched i todo s s' e :
  addStagedBlocks i todo s = Return (s', e) → untouched s s'.
Proof.
  revert i s. induction todo as [|b todo IH]; intros i s; cbn.
  - intros [= <- <-]. apply untouched_refl.
  - destruct (addBlockActive s b) as [[s1 [err|]]| |] eqn:Hadd; [|..|done|done].
    + intros [= <- <-]. by eapply addBlockActive_untouched.
    + intros Hrec. apply IH in Hrec. apply addBlockActive_untouched in Hadd.
      eapply untouched_trans; [exact Hadd|]. exact Hrec.
Qed.

Lemma applyStagedTx_untouched s tx s' e :
  applyStagedTx s tx = Return (s', e) → untouched s s'.
Proof.
  unfold applyStagedTx. repeat case_match; intros [= <- <-];
    try apply untouched_refl. done.
Qed.

Lemma applyStagedTxs_untouched txs s s' e :
  applyStagedTxs txs s = Return (s', e) → untouched s s'.
Proof.
  revert s. induction txs as [|tx txs IH]; intros s; cbn.
  - intros [= <- <-]. apply untouched_refl.
  - destruct (applyStagedTx s tx) as [[s1 [err|]]| |] eqn:Htx; [|..|done|done].
    + intros [= <- <-]. by eapply applyStagedTx_untouched.
    + intros Hrec. eapply untouched_trans; [by eapply applyStagedTx_untouched|].
      by eapply IH.
Qed.

Lemma commit_untouched (s s' : darksideState) (h : Z) (e : option error) :
  DarksideApplyStaged s h = Return (s', e) →
  resetted s' = resetted s
  ∧ saplingActivation s' = saplingActivation s
  ∧ branchID s' = branchID s
  ∧ chainName s' = chainName s
  ∧ incomingTransactions s' = incomingTransactions s
  ∧ match e with
    | Some _ =>
        latestHeight s' = latestHeight s
        ∧ stagedTransactions s' = stagedTransactions s
    | None =>
        stagedTransactions s = [] ∧ latestHeight s' = h
        ∧ stagedBlocks s' = [] ∧ stagedTransactions s' = []
    end.
Proof.
  unfold DarksideApplyStaged. destruct (resetted s) eqn:Hreset; cbn [negb].
  2:{ intros [= <- <-]. by rewrite Hreset. }
  destruct (addStagedBlocks _ _ _) as [[s1 [err|]]| |] eqn:Hadd; [|..|done|done].
  { intros [= <- <-]. apply addStagedBlocks_untouched in Hadd.
    destruct Hadd as (?&?&?&?&?&?&?). rewrite <- Hreset. done. }
  apply addStagedBlocks_untouched in Hadd. destruct Hadd as (?&?&?&?&?&?&Hst1).
  cbn [stagedTransactions set_stagedBlocks].
  destruct (applyStagedTxs _ _) as [[s3 [err|]]| |] eqn:Htxs; [|..|done|done].
  { intros [= <- <-]. apply applyStagedTxs_untouched in Htxs.
    destruct Htxs as (?&?&?&?&?&?&?). cbn [resetted saplingActivation branchID chainName latestHeight
         incomingTransactions stagedTransactions set_stagedBlocks] in *. rewrite <- Hreset.
    repeat split; congruence. }
  pose proof (applyStagedTxs_fields _ _ _ _ Htxs) as (_ & _ & _ & Hsb).
  cbn [stagedBlocks set_stagedBlocks] in Hsb.
  apply applyStagedTxs_untouched in Htxs. destruct Htxs as (?&?&?&?&?&?&Hst3).
  cbn [resetted saplingActivation branchID chainName latestHeight
         incomingTransactions stagedTransactions set_stagedBlocks] in *.
  destruct (0 <? length (stagedTransactions s3))%nat eqn:Hlen.
  { intros [= <- <-]. rewrite <- Hreset. repeat split; congruence. }
  apply Nat.ltb_ge in Hlen.
  assert (stagedTransactions s3 = []) as Hnil by (apply nil_length_inv; lia).
  unfold setPrevhash. cbn [activeBlocks set_stagedTransactions set_stagedBlocks].
  destruct (setPrevhash_loop _ _) as [blocks| |] eqn:Hloop; [|done..].
  intros [= <- <-]. cbn. rewrite <- Hreset. repeat split; congruence.
Qed.

(** X11.  Whatever Commit returns, it leaves the Reset flag, the chain
    metadata and the incoming transactions as they were.  When it fails
    it also leaves [latestHeight] and the staged transactions as they
    were; when it succeeds no transaction was staged, [latestHeight] is
    the height it was given, and both staging areas are empty. *)
Theorem commit_frame (s s' : darksideState) (h : Z) (e : option error) :
  DarksideApplyStaged s h = Return (s', e) →
  resetted s' = resetted s
  ∧ saplingActivation s' = saplingActivation s
  ∧ branchID s' = branchID s
  ∧ chainName s' = chainName s
  ∧ incomingTransactions s' = incomingTransactions s
  ∧ match e with
    | Some _ =>
        latestHeight s' = latestHeight s
        ∧ stagedTransactions s' = stagedTransactions s
    | None =>
        stagedTransactions s = [] ∧ latestHeight s' = h
        ∧ stagedBlocks s' = [] ∧ stagedTransactions s' = []
    end.
Proof. apply commit_untouched. Qed.

Lemma stageLines_state lines scanErr s :
  ∃ blocks, (stageLines lines scanErr s).1
            = set_stagedBlocks (stagedBlocks s ++ blocks) s.
Proof.
  revert s. induction lines as [|line lines IH]; intros s.
  { exists []. cbn. rewrite app_nil_r. by destruct s. }
  cbn [stageLines].
  destruct (String.eqb _ _).
  { exists []. cbn. rewrite app_nil_r. by destruct s. }
  destruct (hex_DecodeString line) as [b|].
  2:{ exists []. cbn. rewrite app_nil_r. by destruct s. }
  destruct (IH (set_stagedBlocks (stagedBlocks s ++ [b]) s)) as [blocks ->].
  exists (b :: blocks). cbn. by rewrite <- app_assoc.
Qed.

(** What a call other than Reset does to the state outside the staged
    blocks and the incoming transactions. *)
Lemma after_effect (c : call) (s s' : darksideState) :
  is_reset c = false → after c s = Return s' →
  resetted s' = resetted s
  ∧ (∃ more, stagedTransactions s' = stagedTransactions s ++ more)
  ∧ (resetted s = false →
     activeBlocks s' = activeBlocks s
     ∧ stagedTransactions s' = stagedTransactions s
     ∧ startHeight s' = startHeight s
     ∧ latestHeight s' = latestHeight s).
Proof.
  assert (∀ l : list stagedTx, ∃ more, l = l ++ more) as Hsame.
  { intros l. exists []. by rewrite app_nil_r. }
  intros Hc Hafter.
  destruct c as [sa bi cn|resp|blockHex|h0 nonce count|h0 txBytes|h0|txHex|
                 |method params]; [done|..]; cbn in Hafter.
  - injection Hafter as <-. unfold DarksideStageBlocks.
    destruct (negb _); [done|]. destruct resp; [done|].
    destruct (stageLines_state lines scanErr s) as [blocks ->]. done.
  - injection Hafter as <-. unfold DarksideStageBlockStream.
    by destruct (hex_DecodeString _).
  - unfold DarksideStageBlocksCreate in Hafter.
    destruct (negb _); [by injection Hafter as <-|].
    destruct (stageBlocksCreate_loop_spec (Z.to_nat count) h0 nonce)
      as (blocks & _ & Hrun & _).
    rewrite Hrun in Hafter. by injection Hafter as <-.
  - injection Hafter as <-. unfold DarksideStageTransaction.
    destruct (resetted s) eqn:Hreset; cbn [negb]; [|done].
    split; [done|]. split; [by eexists|done].
  - destruct (DarksideApplyStaged s h0) as [[s1 e]| |] eqn:Hrun; [|done..].
    injection Hafter as <-.
    split; [by apply commit_untouched in Hrun as (? & _)|]. split.
    + apply commit_untouched in Hrun as (_ & _ & _ & _ & _ & Hcase).
      destruct e as [err|].
      * destruct Hcase as [_ ->]. apply Hsame.
      * destruct Hcase as (-> & _ & _ & ->). by exists [].
    + intros Hreset. unfold DarksideApplyStaged in Hrun. rewrite Hreset in Hrun.
      by injection Hrun as <- <-.
  - injection Hafter as <-. unfold DarksideSendTransaction.
    destruct (negb _); [done|]. destruct (hex_DecodeString _); [|done].
    destruct (tx_ParseFromSlice _) as [[tx rest] [err|]]; [done|].
    by destruct (negb _).
  - by injection Hafter as <-.
  - unfold darksideRawRequest, darksideGetRawTransaction in Hafter.
    repeat case_match; simplify_eq; done.
Qed.

(** X12.  Until the first Reset nothing but the staged blocks and the
    incoming transactions can change: after any sequence of calls without
    a Reset from a state that was never reset, the state is still not
    reset and its chain, its start and latest heights and its staged
    transactions are what they were. *)
Theorem unreset_state_frozen (cs : list call) (s s' : darksideState) :
  resetted s = false → forallb (λ c, negb (is_reset c)) cs = true →
  runs cs s = Return s' →
  resetted s' = false
  ∧ activeBlocks s' = activeBlocks s
  ∧ stagedTransactions s' = stagedTransactions s
  ∧ startHeight s' = startHeight s
  ∧ latestHeight s' = latestHeight s.
Proof.
  revert s. induction cs as [|c cs IH]; intros s Hreset Hcs Hruns.
  { cbn in Hruns. by injection Hruns as <-. }
  cbn [forallb] in Hcs. apply andb_true_iff in Hcs as [Hc Hcs].
  apply negb_true_iff in Hc. cbn [runs] in Hruns.
  destruct (after c s) as [s1| |] eqn:Hafter; [|done..].
  destruct (after_effect _ _ _ Hc Hafter) as (Hr & _ & Hfrozen).
  destruct (Hfrozen Hreset) as (Ha & Ht & Hs & Hl).
  rewrite Hreset in Hr.
  destruct (IH s1 Hr Hcs Hruns) as (? & ? & ? & ? & ?).
  repeat split; congruence.
Qed.

(** X13.  Reset is permanent: once the state was reset, it stays reset
    after every sequence of calls, so the call-Reset-first error cannot
    come back. *)
Theorem reset_is_permanent (cs : list call) (s s' : darksideState) :
  resetted s = true → runs cs s = Return s' → resetted s' = true.
Proof.
  revert s. induction cs as [|c cs IH]; intros s Hreset Hruns.
  { cbn in Hruns. by injection Hruns as <-. }
  cbn [runs] in Hruns.
  destruct (after c s) as [s1| |] eqn:Hafter; [|done..].
  apply (IH s1); [|done].
  destruct (is_reset c) eqn:Hc.
  - destruct c; try done. cbn in Hafter. by injection Hafter as <-.
  - destruct (after_effect _ _ _ Hc Hafter) as (Hr & _). by rewrite Hr.
Qed.

(** X14.  A staged transaction blocks every later Commit until the next
    Reset: Commit never succeeds while a transaction is staged, and no
    call other than Reset removes a staged transaction, so after any
    sequence of calls without a Reset the staged transactions are still
    there and Commit still does not succeed. *)
Theorem staged_transaction_blocks_commit (cs : list call) (s s1 : darksideState) :
  stagedTransactions s ≠ [] →
  forallb (λ c, negb (is_reset c)) cs = true →
  runs cs s = Return s1 →
  (∃ more, stagedTransactions s1 = stagedTransactions s ++ more)
  ∧ ∀ h s2, DarksideApplyStaged s1 h ≠ Return (s2, None).
Proof.
  intros Hstaged Hcs Hruns.
  assert (∃ more, stagedTransactions s1 = stagedTransactions s ++ more) as Hmore.
  { revert s Hstaged Hcs Hruns. induction cs as [|c cs IH]; intros s Hstaged Hcs Hruns.
    { cbn in Hruns. injection Hruns as <-. exists []. by rewrite app_nil_r. }
    cbn [forallb] in Hcs. apply andb_true_iff in Hcs as [Hc Hcs].
    apply negb_true_iff in Hc. cbn [runs] in Hruns.
    destruct (after c s) as [s0| |] eqn:Hafter; [|done..].
    destruct (after_effect _ _ _ Hc Hafter) as (_ & [more Hmore] & _).
    destruct (IH s0) as [more' Hmore']; [|done..|].
    - rewrite Hmore. intros [? _]%app_nil. done.
    - exists (more ++ more'). by rewrite Hmore', Hmore, <- app_assoc. }
  split; [done|].
  intros h s2 Hcommit. apply commit_untouched in Hcommit as (_&_&_&_&_& Hnil & _).
  destruct Hmore as [more Hmore]. rewrite Hnil in Hmore.
  symmetry in Hmore. by apply app_nil in Hmore as [? _].
Qed.

Lemma after_metadata (c : call) (s s' : darksideState) :
  is_reset c = false → after c s = Return s' →
  saplingActivation s' = saplingActivation s
  ∧ branchID s' = branchID s ∧ chainName s' = chainName s.
Proof.
  intros Hc Hafter.
  destruct c as [sa bi cn|resp|blockHex|h0 nonce count|h0 txBytes|h0|txHex|
                 |method params]; [done|..]; cbn in Hafter.
  - injection Hafter as <-. unfold DarksideStageBlocks.
    destruct (negb _); [done|]. destruct resp; [done|].
    destruct (stageLines_state lines scanErr s) as [blocks ->]. done.
  - injection Hafter as <-. unfold DarksideStageBlockStream.
    by destruct (hex_DecodeString _).
  - unfold DarksideStageBlocksCreate in Hafter.
    destruct (negb _); [by injection Hafter as <-|].
    destruct (stageBlocksCreate_loop_spec (Z.to_nat count) h0 nonce)
      as (blocks & _ & Hrun & _).
    rewrite Hrun in Hafter. by injection Hafter as <-.
  - injection Hafter as <-. unfold DarksideStageTransaction.
    by destruct (negb _).
  - destruct (DarksideApplyStaged s h0) as [[s1 e]| |] eqn:Hrun; [|done..].
    injection Hafter as <-.
    by apply commit_untouched in Hrun as (_ & ? & ? & ? & _).
  - injection Hafter as <-. unfold DarksideSendTransaction.
    destruct (negb _); [done|]. destruct (hex_DecodeString _); [|done].
    destruct (tx_ParseFromSlice _) as [[tx rest] [err|]]; [done|].
    by destruct (negb _).
  - by injection Hafter as <-.
  - unfold darksideRawRequest, darksideGetRawTransaction in Hafter.
    repeat case_match; simplify_eq; done.
Qed.

(** X22.  What Reset was given stays until the next Reset: after a Reset
    and any sequence of other calls, [getblockchaininfo] reports the chain
    name, the Sapling activation height and the branch ID of that Reset
    (the branch ID as both the chain tip's and the next block's), and the
    current [latestHeight] as the number of headers; the request does not
    change the state. *)
Theorem getblockchaininfo_reports_reset (sa : Z) (bi cn : string)
    (cs : list call) (s s' : darksideState) (params : list string) :
  forallb (λ c, negb (is_reset c)) cs = true →
  runs cs (DarksideReset sa bi cn s).1 = Return s' →
  darksideRawRequest "getblockchaininfo" params s'
  = Return (s', (Blockchaininfo cn "76b809bb" sa (latestHeight s') bi bi, None)).
Proof.
  intros Hcs Hruns.
  assert (∀ s0, runs cs s0 = Return s' →
            saplingActivation s' = saplingActivation s0
            ∧ branchID s' = branchID s0 ∧ chainName s' = chainName s0) as Hkeep.
  { clear s Hruns. induction cs as [|c cs IH]; intros s0 Hruns.
    { cbn in Hruns. by injection Hruns as <-. }
    cbn [forallb] in Hcs. apply andb_true_iff in Hcs as [Hc Hcs].
    apply negb_true_iff in Hc. cbn [runs] in Hruns.
    destruct (after c s0) as [s1| |] eqn:Hafter; [|done..].
    destruct (after_metadata _ _ _ Hc Hafter) as (? & ? & ?).
    destruct (IH Hcs s1 Hruns) as (? & ? & ?). repeat split; congruence. }
  destruct (Hkeep _ Hruns) as (Hsa & Hbi & Hcn). cbn in Hsa, Hbi, Hcn.
  unfold darksideRawRequest. cbn [String.eqb Ascii.eqb Bool.eqb].
  by rewrite Hsa, Hbi, Hcn.
Qed.

End Frame.

(** ** When Commit succeeds *)

Section CommitSucceeds.
Import common.
Context `{BlockParser} `{TxParser} `{SHA256}.

Lemma wellformed_parsed b :
  wellformed b → ParseFromSlice b = inr [] ∧ (36 ≤ length b)%nat.
Proof.
  intros [[h Hdecl] Hlen]. split; [|done]. revert Hdecl. unfold declaredHeight.
  destruct (ParseFromSlice b) as [err|[|x rest]]; done.
Qed.

Lemma copy_into_wellformed b src :
  height_ignores_prevhash → wellformed b →
  ∃ b', copy_into b 4 36 src = Some b'
        ∧ declaredHeight b' = declaredHeight b ∧ length b' = length b
        ∧ wellformed b'.
Proof.
  intros Hign [Hdecl Hlen].
  destruct (copy_into b 4 36 src) as [b'|] eqn:Hcopy.
  2:{ unfold copy_into in Hcopy. by rewrite decide_True in Hcopy. }
  pose proof (Hign _ _ _ Hcopy) as Hsame.
  pose proof (copy_into_length _ _ _ _ _ Hcopy) as Hlength.
  exists b'. repeat split; [done|lia| |lia].
  - by rewrite Hsame.
Qed.

Lemma addBlockActive_wellformed s b :
  height_ignores_prevhash → Forall wellformed (activeBlocks s) → wellformed b →
  ∃ s' b',
    addBlockActive s b = Return (s', None)
    ∧ last (activeBlocks s') = Some b'
    ∧ declaredHeight b' = declaredHeight b ∧ length b' = length b
    ∧ Forall wellformed (activeBlocks s').
Proof.
  intros Hign Hactive Hb. unfold addBlockActive.
  destruct (wellformed_parsed _ Hb) as [-> Hlen]. cbn [length Nat.eqb negb].
  change (if GetHeight b >? _ then _ else _) with (dropOverwritten (GetHeight b) s).
  assert (Forall wellformed (activeBlocks (dropOverwritten (GetHeight b) s))) as Hkept.
  { destruct (dropOverwritten_active (GetHeight b) s) as [-> | [-> _]]; [done|].
    by apply Forall_take. }
  revert Hkept. generalize (dropOverwritten (GetHeight b) s). intros s0 Hkept.
  destruct (length (activeBlocks s0) =? 0)%nat eqn:Hempty.
  - apply Nat.eqb_eq, nil_length_inv in Hempty.
    eexists _, b. split; [reflexivity|]. cbn. rewrite Hempty. cbn.
    repeat split; try done. by apply Forall_singleton.
  - destruct (last (activeBlocks s0)) as [prevblock|] eqn:Hlast.
    2:{ apply last_None in Hlast. by rewrite Hlast in Hempty. }
    assert (wellformed prevblock) as Hprev.
    { rewrite Forall_forall in Hkept. apply Hkept.
      apply last_Some in Hlast as [l' ->]. set_solver. }
    destruct (wellformed_parsed _ Hprev) as [-> _]. cbn [length Nat.eqb negb].
    destruct (copy_into_wellformed b (GetEncodableHash prevblock) Hign Hb)
      as (b' & -> & Hdecl & Hlength & Hb').
    eexists _, b'. split; [reflexivity|]. cbn. rewrite last_snoc.
    repeat split; try done. apply Forall_app. split; [done|].
    by apply Forall_singleton.
Qed.

Lemma addStagedBlocks_wellformed i todo s :
  height_ignores_prevhash → Forall wellformed (activeBlocks s) →
  Forall wellformed todo →
  ∃ s',
    addStagedBlocks i todo s = Return (s', None)
    ∧ Forall wellformed (activeBlocks s')
    ∧ (todo = [] → activeBlocks s' = activeBlocks s)
    ∧ (∀ b, last todo = Some b →
         ∃ b', last (activeBlocks s') = Some b'
               ∧ declaredHeight b' = declaredHeight b ∧ length b' = length b).
Proof.
  intros Hign. revert i s.
  induction todo as [|b todo IH]; intros i s Hactive Htodo.
  { exists s. cbn. done. }
  apply Forall_cons in Htodo as [Hb Htodo]. cbn [addStagedBlocks].
  destruct (addBlockActive_wellformed s b Hign Hactive Hb)
    as (s1 & b' & -> & Hlast & Hdecl & Hlength & Hactive1).
  set (s2 := set_stagedBlocks _ s1).
  destruct (IH (S i) s2) as (s' & Hrun & Hactive' & Hnil & Htip); [done..|].
  exists s'. split; [done|]. split; [done|]. split; [done|].
  intros b0 Hb0. destruct todo as [|b1 todo].
  - cbn in Hb0. injection Hb0 as <-. rewrite (Hnil eq_refl). by exists b'.
  - apply Htip. by rewrite last_cons_cons in Hb0.
Qed.

Lemma setPrevhash_loop_wellformed prevhash blocks :
  height_ignores_prevhash → Forall wellformed blocks →
  ∃ out,
    setPrevhash_loop prevhash blocks = Return out
    ∧ Forall2 (λ b b', declaredHeight b' = declaredHeight b ∧ length b' = length b)
        blocks out.
Proof.
  intros Hign Hblocks. revert prevhash.
  induction Hblocks as [|b blocks Hb _ IH]; intros prevhash.
  { by exists []. }
  cbn [setPrevhash_loop]. destruct (wellformed_parsed _ Hb) as [-> _].
  cbn [length Nat.eqb negb].
  destruct (copy_into_wellformed b prevhash Hign Hb) as (b' & -> & Hdecl & Hlen & _).
  destruct (IH (GetEncodableHash b')) as (out & -> & Hout).
  exists (b' :: out). split; [done|]. by constructor.
Qed.

Lemma Forall2_last_Some {A} (P : A → A → Prop) (l k : list A) (x : A) :
  Forall2 P l k → last l = Some x → ∃ y, last k = Some y ∧ P x y.
Proof.
  intros Hlk. revert x. induction Hlk as [|a b l k Hab Hlk IH]; intros x; [done|].
  destruct Hlk as [|a' b' l k Hab' Hlk].
  - cbn. intros [= <-]. by exists b.
  - rewrite !last_cons_cons. apply IH.
Qed.

Lemma wellformed_Forall2 (l k : list (list Z)) :
  Forall2 (λ b b', declaredHeight b' = declaredHeight b ∧ length b' = length b) l k →
  Forall wellformed l → Forall wellformed k.
Proof.
  induction 1 as [|b b' l k [Hd Hl] _ IH]; [done|].
  intros [[Hsome Hlen] Hrest]%Forall_cons.
  constructor; [|by apply IH]. split; [by rewrite Hd|lia].
Qed.

(** X15.  Commit cannot fail or crash on well-formed input: after Reset,
    with no transaction staged, when every active and every staged block
    parses completely and is at least 36 bytes long (and the parser reads
    heights independently of the previous-hash field), Commit returns
    without an error, whatever the heights of the staged blocks are.  The
    chain then consists of well-formed blocks and ends with the last
    staged block, of unchanged length and declared height. *)
Theorem commit_succeeds (s : darksideState) (h : Z) :
  height_ignores_prevhash →
  resetted s = true → stagedTransactions s = [] →
  Forall wellformed (activeBlocks s) → Forall wellformed (stagedBlocks s) →
  ∃ s',
    DarksideApplyStaged s h = Return (s', None)
    ∧ Forall wellformed (activeBlocks s')
    ∧ (∀ b, last (stagedBlocks s) = Some b →
         ∃ b', last (activeBlocks s') = Some b'
               ∧ declaredHeight b' = declaredHeight b ∧ length b' = length b).
Proof.
  intros Hign Hreset Hnone Hactive Hstaged.
  destruct (addStagedBlocks_wellformed 0 (stagedBlocks s) s Hign Hactive Hstaged)
    as (s1 & Hadd & Hactive1 & _ & Htip).
  destruct (setPrevhash_loop_wellformed (make_bytes 32) (activeBlocks s1) Hign Hactive1)
    as (out & Hloop & Hout).
  pose proof (addStagedBlocks_fields _ _ _ _ _ Hadd) as [Hst _].
  rewrite Hnone in Hst.
  eexists. split; [|split].
  - unfold DarksideApplyStaged. rewrite Hreset. cbn [negb]. rewrite Hadd.
    cbn [stagedTransactions set_stagedBlocks]. rewrite Hst.
    cbn [applyStagedTxs stagedTransactions set_stagedBlocks].
    rewrite Hst. cbn [length Nat.ltb Nat.leb].
    unfold setPrevhash. cbn [activeBlocks set_stagedTransactions set_stagedBlocks].
    rewrite Hloop. reflexivity.
  - cbn. by eapply wellformed_Forall2.
  - intros b Hb. destruct (Htip b Hb) as (b1 & Hlast1 & Hd1 & Hl1).
    destruct (Forall2_last_Some _ _ _ _ Hout Hlast1) as (b2 & Hlast2 & Hd2 & Hl2).
    exists b2. cbn. split; [done|]. split; congruence.
Qed.

Lemma copy_into_again b src b' :
  copy_into b 4 36 src = Some b' → length src = 32%nat →
  copy_into b' 4 36 src = Some b'.
Proof.
  intros Hcopy Hsrc. pose proof (copy_into_length _ _ _ _ _ Hcopy) as Hlen.
  apply copy_into_Some in Hcopy as (Hhi & n & Hn & ->).
  assert (n = 32%nat) as -> by lia.
  unfold copy_into. rewrite decide_True by lia. f_equal.
  replace (Nat.min (36 - 4) (length src)) with 32%nat by lia.
  rewrite take_app_length' by (rewrite length_take; lia).
  f_equal. f_equal.
  rewrite (app_assoc (take 4 b)).
  rewrite drop_app_length'; [done|].
  rewrite length_app, !length_take. lia.
Qed.

Lemma setPrevhash_loop_again prevhash blocks out :
  height_ignores_prevhash → hash32 → length prevhash = 32%nat →
  setPrevhash_loop prevhash blocks = Return out →
  setPrevhash_loop prevhash out = Return out.
Proof.
  intros Hign Hhash. revert prevhash out.
  induction blocks as [|b blocks IH]; intros prevhash out Hprev; cbn [setPrevhash_loop].
  { by intros [= <-]. }
  destruct (ParseFromSlice b) as [err|rest] eqn:Hparse; [done|].
  destruct (length rest =? 0)%nat eqn:Hrest; cbn [negb]; [|done].
  destruct (copy_into b 4 36 prevhash) as [b'|] eqn:Hcopy; [|done].
  destruct (setPrevhash_loop (GetEncodableHash b') blocks) as [out'| |] eqn:Hloop;
    [|done..].
  intros [= <-]. cbn [setPrevhash_loop].
  pose proof (Hign _ _ _ Hcopy) as Hdecl.
  rewrite (declaredHeight_parsed _ _ Hparse Hrest) in Hdecl.
  assert (wellformed b') as Hb'.
  { split; [by rewrite Hdecl|].
    pose proof (copy_into_Some _ _ _ _ _ Hcopy) as (Hhi & _).
    pose proof (copy_into_length _ _ _ _ _ Hcopy) as Hlen. lia. }
  destruct (wellformed_parsed _ Hb') as [-> _]. cbn [length Nat.eqb negb].
  rewrite (copy_into_again _ _ _ Hcopy Hprev).
  by rewrite (IH _ _ (Hhash b') Hloop).
Qed.

(** X16.  Commit is idempotent on the chain: when a Commit has succeeded,
    a further Commit with nothing staged in between succeeds as well and
    changes nothing but [latestHeight]; in particular the blocks keep
    their bytes, hence their hashes. *)
Theorem recommit_keeps_chain (s s' : darksideState) (h h2 : Z) :
  height_ignores_prevhash → hash32 →
  DarksideApplyStaged s h = Return (s', None) →
  DarksideApplyStaged s' h2 = Return (set_latestHeight h2 s', None).
Proof.
  intros Hign Hhash Hcommit.
  apply commit_success in Hcommit as (s1 & blocks & Hreset & Hadd & Hst & Hloop & ->).
  pose proof (addStagedBlocks_fields _ _ _ _ _ Hadd) as [_ Hr].
  assert (length (make_bytes 32) = 32%nat) as Hzero by apply length_replicate.
  pose proof (setPrevhash_loop_again _ _ _ Hign Hhash Hzero Hloop) as Hagain.
  unfold DarksideApplyStaged.
  cbn [resetted set_latestHeight set_activeBlocks set_stagedTransactions
       set_stagedBlocks stagedBlocks addStagedBlocks stagedTransactions
       applyStagedTxs length Nat.ltb Nat.leb].
  rewrite Hr, Hreset. cbn [negb].
  unfold setPrevhash.
  cbn [activeBlocks set_latestHeight set_activeBlocks set_stagedTransactions
       set_stagedBlocks].
  rewrite Hagain. reflexivity.
Qed.

End CommitSucceeds.

(** ** More on the mempool *)

Section MempoolMore.
Import frontend.

Lemma str_le_antisym a b : str_le a b → str_le b a → a = b.
Proof.
  unfold str_le. revert b. induction a as [|c a IH]; intros [|d b]; cbn; try done.
  destruct (Z.ltb_spec (code d) (code c)); [done|].
  destruct (Z.ltb_spec (code c) (code d)); [done|].
  destruct (Z.eqb_spec (code d) (code c)) as [Hdc|]; [|lia].
  destruct (Z.eqb_spec (code c) (code d)); [|lia].
  intros Hba Hab. f_equal; [by apply code_inj|by apply IH].
Qed.

Lemma sort_Strings_unique (l k : list string) :
  l ≡ₚ k → sort_Strings l = sort_Strings k.
Proof.
  intros Hperm.
  apply (StronglySorted_unique_strong str_le).
  - intros x1 x2 _ _. apply str_le_antisym.
  - apply sort_Strings_sorted.
  - apply sort_Strings_sorted.
  - by rewrite !sort_Strings_perm.
Qed.

Lemma sort_Strings_nil : sort_Strings [] = [].
Proof. apply Permutation_nil_r. apply sort_Strings_perm. Qed.

Lemma MempoolFilter_nil (exclude : list string) : MempoolFilter [] exclude = [].
Proof. unfold MempoolFilter. by rewrite sort_Strings_nil. Qed.

Lemma filter_all {A} (P : A → Prop) `{∀ x, Decision (P x)} (l : list A) :
  Forall P l → filter P l = l.
Proof.
  induction 1 as [|x l Hx _ IH]; [done|].
  rewrite filter_cons_True by done. by rewrite IH.
Qed.

(** X17.  Whatever the exclude list, the exclusion filter returns a
    sublist of the sorted items (so nothing that is not an item, nothing
    twice that is not there twice, and in ascending order), and it keeps
    every item that has no exclude entry as a prefix; with an empty
    exclude list it returns all the items, sorted. *)
Theorem MempoolFilter_sound (items exclude : list string) :
  MempoolFilter items exclude `sublist_of` sort_Strings items
  ∧ (∀ item, item ∈ items →
       (∀ e, e ∈ exclude → String.prefix e item = false) →
       item ∈ MempoolFilter items exclude)
  ∧ MempoolFilter items [] = sort_Strings items.
Proof.
  assert (∀ exclude item, item ∈ items →
            (∀ e, e ∈ exclude → String.prefix e item = false) →
            item ∈ MempoolFilter items exclude) as Hkeeps.
  { intros ex item Hitem Hnone. rewrite MempoolFilter_restart. cbv zeta.
    apply list_elem_of_filter. split; [|by rewrite sort_Strings_perm].
    unfold kept. apply orb_true_iff. left. apply negb_true_iff.
    destruct (is_match _ _ _) eqn:Hmatch; [|done].
    apply is_match_iff in Hmatch as (e & He & Hprefix);
      [|apply sort_Strings_sorted].
    rewrite sort_Strings_perm in He. by rewrite (Hnone e He) in Hprefix. }
  split; [|split].
  - rewrite MempoolFilter_restart. cbv zeta. apply sublist_filter.
  - apply Hkeeps.
  - rewrite MempoolFilter_restart. cbv zeta.
    apply filter_all. apply Forall_forall. intros item Hitem.
    unfold kept. apply orb_true_iff. left. apply negb_true_iff.
    unfold is_match. by rewrite sort_Strings_nil.
Qed.

(** X18.  The result of the exclusion filter does not depend on the order
    in which the items or the exclude entries are given. *)
Theorem MempoolFilter_order_independent (items items' exclude exclude' : list string) :
  items ≡ₚ items' → exclude ≡ₚ exclude' →
  MempoolFilter items exclude = MempoolFilter items' exclude'.
Proof.
  intros Hitems Hexclude. unfold MempoolFilter.
  by rewrite (sort_Strings_unique _ _ Hitems), (sort_Strings_unique _ _ Hexclude).
Qed.

Context `{Node} `{TxParser}.

Lemma refresh_loop_keys old ids acc new e :
  refresh_loop old ids acc = (new, e) →
  ∀ k, is_Some (new !! k) → is_Some (acc !! k) ∨ k ∈ ids.
Proof.
  revert acc. induction ids as [|txid ids IH]; intros acc; cbn [refresh_loop].
  { intros [= <- <-] k ?. by left. }
  assert (∀ v acc', (∀ k, is_Some (new !! k) → is_Some (acc' !! k) ∨ k ∈ ids) →
            acc' = <[txid := v]> acc ∨ acc' = acc →
            ∀ k, is_Some (new !! k) → is_Some (acc !! k) ∨ k ∈ txid :: ids) as Hstep.
  { intros v acc' Hrec Hacc k Hk. destruct (Hrec k Hk) as [Hin|Hin].
    - destruct Hacc as [-> | ->]; [|by left].
      destruct (decide (k = txid)) as [->|Hne]; [right; by left|].
      rewrite lookup_insert_ne in Hin by done. by left.
    - right. by right. }
  assert (∀ k, is_Some (acc !! k) → is_Some (acc !! k) ∨ k ∈ txid :: ids) as Hstop
    by (intros; by left).
  destruct (default acc old !! txid) as [ctx|].
  { intros Hrec. eapply Hstep; [by eapply IH|by left]. }
  destruct (getrawtransaction txid) as [err|err|txStr].
  - intros Hrec. eapply (Hstep emptyCompactTx); [by eapply IH|by right].
  - by intros [= <- <-].
  - destruct (hex_DecodeString txStr) as [txBytes|]; [|by intros [= <- <-]].
    destruct (tx_ParseFromSlice txBytes) as [[tx txdata] perr].
    destruct (0 <? length txdata)%nat; [by intros [= <- <-]|].
    destruct (HasSaplingElements tx).
    + rewrite insert_insert_eq. intros Hrec.
      eapply Hstep; [by eapply IH|by left].
    + intros Hrec. eapply Hstep; [by eapply IH|by left].
Qed.

Lemma refresh_loop_carry m ids acc new e :
  refresh_loop (Some m) ids acc = (new, e) →
  ∀ k v, m !! k = Some v → acc !! k = Some v → new !! k = Some v.
Proof.
  revert acc. induction ids as [|txid ids IH]; intros acc; cbn [refresh_loop];
    try change (default acc (Some m)) with m.
  { by intros [= <- <-]. }
  destruct (m !! txid) as [ctx|] eqn:Hid.
  { intros Hrec k v Hk Hacc. eapply IH; [done..|].
    destruct (decide (k = txid)) as [->|Hne].
    - rewrite lookup_insert_eq. congruence.
    - by rewrite lookup_insert_ne. }
  assert (∀ k v w, m !! k = Some v → acc !! k = Some v →
                   <[txid := w]> acc !! k = Some v) as Hother.
  { intros k v w Hk Hacc. rewrite lookup_insert_ne; [done|]. congruence. }
  destruct (getrawtransaction txid) as [err|err|txStr].
  - apply IH.
  - by intros [= <- <-].
  - destruct (hex_DecodeString txStr) as [txBytes|]; [|by intros [= <- <-]].
    destruct (tx_ParseFromSlice txBytes) as [[tx txdata] perr].
    destruct (0 <? length txdata)%nat; [by intros [= <- <-]|].
    destruct (HasSaplingElements tx); intros Hrec k v Hk Hacc;
      (eapply IH; [done..|]); rewrite ?insert_insert_eq; by apply Hother.
Qed.

Lemma refresh_loop_reuses m ids acc new e :
  refresh_loop (Some m) ids acc = (new, e) → e = None →
  ∀ k v, k ∈ ids → m !! k = Some v → new !! k = Some v.
Proof.
  revert acc. induction ids as [|txid ids IH]; intros acc; cbn [refresh_loop];
    try change (default acc (Some m)) with m.
  { intros _ _ k v Hk. by apply elem_of_nil in Hk. }
  destruct (m !! txid) as [ctx|] eqn:Hid.
  { intros Hrec He k v Hk Hm.
    destruct (decide (k = txid)) as [->|Hne].
    - eapply refresh_loop_carry; [done..|]. rewrite lookup_insert_eq. congruence.
    - apply elem_of_cons in Hk as [?|Hk]; [done|]. by eapply IH. }
  assert (∀ k v, k ∈ txid :: ids → m !! k = Some v → k ∈ ids) as Htail.
  { intros k v [->|?]%elem_of_cons Hm; [congruence|done]. }
  destruct (getrawtransaction txid) as [err|err|txStr].
  - intros Hrec He k v Hk Hm. eapply IH; [done..| |done]. by eapply Htail.
  - by intros [= <- <-].
  - destruct (hex_DecodeString txStr) as [txBytes|]; [|by intros [= <- <-]].
    destruct (tx_ParseFromSlice txBytes) as [[tx txdata] perr].
    destruct (0 <? length txdata)%nat; [by intros [= <- <-]|].
    destruct (HasSaplingElements tx); intros Hrec He k v Hk Hm;
      (eapply IH; [done..| |done]); by eapply Htail.
Qed.

(** X19.  A refresh that is due and goes through replaces the cache by
    one for the node's current mempool: the id list is the node's list,
    every key of the new map is one of these ids (entries of transactions
    that left the mempool are dropped), and an id that was cached before
    keeps the very entry it had, without being fetched again. *)
Theorem refresh_reuses_cache (now : Z) (st st' : mempoolState)
    (m : gmap string CompactTx) (ids : list string) :
  mempoolMap st = Some m →
  now - lastMempool st >= 2000000000 →
  getrawmempool = Decoded ids →
  refresh now st = (st', None) →
  mempoolList st' = ids ∧ lastMempool st' = now
  ∧ ∃ new, mempoolMap st' = Some new
      ∧ (∀ k, is_Some (new !! k) → k ∈ ids)
      ∧ (∀ k v, k ∈ ids → m !! k = Some v → new !! k = Some v).
Proof.
  intros Hmap Hdue Hids. unfold refresh.
  destruct (Z.geb_spec (now - lastMempool st) 2000000000) as [_|]; [|lia].
  rewrite Hids, Hmap.
  destruct (refresh_loop (Some m) ids ∅) as [new [err|]] eqn:Hloop; [done|].
  intros [= <-]. cbn. split; [done|]. split; [done|].
  exists new. split; [done|]. split.
  - intros k Hk. destruct (refresh_loop_keys _ _ _ _ _ Hloop k Hk) as [Hin|]; [|done].
    rewrite lookup_empty in Hin. by destruct Hin.
  - by eapply refresh_loop_reuses.
Qed.



(** X20.  Reset empties the mempool cache: a [GetMempoolTx] that follows
    a successful Reset within two seconds of the last refresh sends
    nothing and returns no error; it does not serve transactions cached
    before the Reset, and it does not touch the missing map. *)
Theorem Reset_clears_mempool (saplingActivation : Z) (branchID chainName : string)
    (s s' : common.darksideState) (m m' : mempoolState)
    (exclude : list (list Z)) (now : Z) :
  Reset saplingActivation branchID chainName s m = (s', m', None) →
  now - lastMempool m < 2000000000 →
  mempoolMap m' = None ∧ mempoolList m' = []
  ∧ GetMempoolTx exclude now m' = Return (m', [], None).
Proof.
  unfold Reset. destruct (negb _); [done|]. destruct (negb _); [done|].
  cbn. intros [= <- <-] Hearly. split; [done|]. split; [done|].
  unfold GetMempoolTx, refresh. cbn [lastMempool mempoolList mempoolMap].
  destruct (Z.geb_spec (now - lastMempool m) 2000000000) as [|_]; [lia|].
  cbn [lastMempool mempoolList mempoolMap].
  rewrite MempoolFilter_nil, sort_Strings_nil. done.
Qed.

End MempoolMore.

(** ** What the wallet sent, as the test driver reads it *)

Section Incoming.
Import common frontend.
Context `{BlockParser} `{JSON}.
Variable strings_TrimSpace : string → string.

Lemma submit_stored (datas : list (list Z)) (s : darksideState) :
  Forall (Forall is_byte) datas →
  submit strings_TrimSpace datas s
  = Return (set_incomingTransactions (incomingTransactions s ++ datas) s).
Proof.
  intros Hdatas. revert s. induction Hdatas as [|data datas Hdata _ IH]; intros s.
  { cbn. rewrite app_nil_r. by destruct s. }
  cbn [submit]. unfold SendTransaction. cbn [RawRequest darkside_backend].
  rewrite mock_sendrawtransaction by done. rewrite IH. cbn.
  by rewrite <- app_assoc.
Qed.

Lemma GetIncomingTransactions_loop_all (txs : list (list Z))
    (sent : list RawTransaction) :
  GetIncomingTransactions_loop txs (λ _, None) sent
  = (sent ++ map (λ data, {| Data := data; RawTransaction_Height := 0 |}) txs, None).
Proof.
  revert sent. induction txs as [|data txs IH]; intros sent; cbn.
  - by rewrite app_nil_r.
  - by rewrite IH, <- app_assoc.
Qed.

(** X23.  The test driver reads back what the wallet sent: after the
    wallet has submitted transactions through [SendTransaction] in
    darkside mode, [GetIncomingTransactions] streams the transactions that
    were there before followed by the submitted ones, in the order of
    submission, each with its bytes unchanged and height 0; after
    [ClearIncomingTransactions] it streams nothing. *)
Theorem incoming_transactions_roundtrip (datas : list (list Z)) (s : darksideState) :
  Forall (Forall is_byte) datas →
  ∃ s',
    submit strings_TrimSpace datas s = Return s'
    ∧ GetIncomingTransactions (λ _, None) s'
      = (map (λ data, {| Data := data; RawTransaction_Height := 0 |})
           (incomingTransactions s ++ datas), None)
    ∧ GetIncomingTransactions (λ _, None) (ClearIncomingTransactions s').1
      = ([], None).
Proof.
  intros Hdatas. eexists. split; [by apply submit_stored|].
  unfold GetIncomingTransactions, DarksideGetIncomingTransactions.
  split; [|done]. by rewrite GetIncomingTransactions_loop_all.
Qed.

End Incoming.

(** ** The further properties at concrete inputs *)

Section MoreWitnesses.
Import common frontend.

Lemma demo_no_colon_pos (p : positive) :
  forallb (λ c, negb (code c =? 58)) (list_ascii_of_string (demo.pos_text p)) = true.
Proof. induction p as [p IH|p IH|]; cbn [demo.pos_text list_ascii_of_string forallb]; done. Qed.

Lemma demo_text_pos (p : positive) : demo.text_pos (demo.pos_text p) = p.
Proof. induction p as [p IH|p IH|]; cbn; by rewrite ?IH. Qed.

Lemma demo_json_roundtrip : @rawtransaction_roundtrip demo.json.
Proof.
  intros hex h. cbn [Unmarshal_rawtransaction Marshal_rawtransaction demo.json].
  rewrite split_colon_first.
  - destruct h as [|p|p]; cbn; by rewrite ?demo_text_pos.
  - destruct h as [|p|p]; cbn [demo.Z_text list_ascii_of_string forallb];
      [done|apply demo_no_colon_pos..].
Qed.

Lemma demo_parser_tx_bytes (block : list Z) :
  Forall (λ tx : list Z * list Z, Forall is_byte tx.2)
    (@Transactions demo.parser_tx block).
Proof.
  cbn. apply Forall_singleton. cbn. apply Forall_fmap, Forall_true.
  intros z. cbn. unfold is_byte. apply Z.mod_pos_bound. lia.
Qed.

(** The second of three committed blocks is served at height 6. *)
Lemma getblock_reply_decodes_witness :
  ∃ block reply,
    activeBlocks (demo.chain 5 3) !! 1%nat = Some block
    ∧ @darksideRawRequest demo.parser "getblock" [demo.quoted "6"] (demo.chain 5 3)
      = Return (demo.chain 5 3, (RawJSON reply, None))
    ∧ json_Unmarshal_string reply ≫= hex_DecodeString = Some block.
Proof.
  assert (json_Unmarshal_string (demo.quoted "6") = Some "6"%string) as Htext
    by (vm_compute; reflexivity).
  assert (strconv_Atoi "6" = Some 6) as Hatoi by (vm_compute; reflexivity).
  destruct (@getblock_reply_decodes demo.parser (demo.chain 5 3) 6
              (demo.quoted "6") "6" Htext Hatoi) as [_ Hfound].
  destruct (activeBlocks (demo.chain 5 3) !! 1%nat) as [block|] eqn:Hblock;
    [|vm_compute in Hblock; discriminate].
  destruct (Hfound block) as (reply & Hreply & Hdecoded).
  - vm_compute. discriminate.
  - vm_compute. discriminate.
  - rewrite <- Hblock. vm_compute. reflexivity.
  - assert (Forall (Forall is_byte) (activeBlocks (demo.chain 5 3))) as Hall
      by (apply (bool_decide_unpack _); vm_compute; reflexivity).
    exact (Forall_lookup_1 _ _ _ _ Hall Hblock).
  - exists block, reply. split; [reflexivity|]. split; [exact Hreply|exact Hdecoded].
Defined.

(** Three bytes sent before any Reset are stored. *)
Lemma SendTransaction_reaches_mock_witness :
  @SendTransaction _ (@darkside_backend demo.parser demo.json) (λ t, t)
    (Some (Some [1; 2; 255])) zero_state
  = Return (set_incomingTransactions [[1; 2; 255]] zero_state,
            inr {| ErrorCode := 0; ErrorMessage := EmptyString |}).
Proof.
  assert (Forall is_byte [1; 2; 255]) as Hdata
    by (apply (bool_decide_unpack _); vm_compute; reflexivity).
  exact (proj1 (@SendTransaction_reaches_mock demo.parser demo.json (λ t, t)
                  [1; 2; 255] zero_state Hdata)).
Defined.

(** The transaction of the block of a one-block chain is found under the
    reversed merkle root. *)
Lemma GetTransaction_from_mock_witness :
  ∃ tx,
    @GetTransaction _ (@darkside_backend demo.parser_tx demo.json) demo.json
      {| TxFilter_Block := None; TxFilter_Index := 0;
         TxFilter_Hash := Some (rev (take 32 (drop 36 (demo.block 0)))) |}
      (demo.chain 0 1)
    = Return (demo.chain 0 1, inr tx)
    ∧ RawTransaction_Height tx = 0.
Proof.
  set (hash := rev (take 32 (drop 36 (demo.block 0)))).
  assert (resetted (demo.chain 0 1) = true) as Hreset by (vm_compute; reflexivity).
  assert (length hash = 32%nat) as Hlen by (vm_compute; reflexivity).
  assert (Forall is_byte hash) as Hbytes
    by (apply (bool_decide_unpack _); vm_compute; reflexivity).
  destruct (@GetTransaction_from_mock demo.parser_tx demo.json hash (demo.chain 0 1)
              demo_json_roundtrip demo_parser_tx_bytes Hreset Hlen Hbytes)
    as (r & Hrun & Hsound & Hcomplete).
  assert (activeBlocks (demo.chain 0 1) = [demo.block 0]) as Hactive
    by (vm_compute; reflexivity).
  destruct Hcomplete as [tx ->].
  - rewrite Hactive. intros block ->%list_elem_of_singleton.
    vm_compute. reflexivity.
  - exists (demo.block 0). rewrite Hactive. split; [apply list_elem_of_here|].
    vm_compute. eexists. reflexivity.
  - exists tx. split; [exact Hrun|].
    destruct (Hsound tx eq_refl) as (block & raw & Hin & _ & _ & ->).
    rewrite Hactive in Hin. apply list_elem_of_singleton in Hin as ->.
    vm_compute. reflexivity.
Defined.

(** The node's rejection is split into the code -26 and the message. *)
Lemma SendTransaction_error_reply_witness :
  @SendTransaction _ demo.logging_node (λ t, t) (Some (Some [1])) []
  = Return ([("sendrawtransaction"%string, [demo.quoted "01"])],
            inr {| ErrorCode := -26;
                   ErrorMessage := " 16: bad-txns-in-belowout" |}).
Proof.
  exact (proj1 (@SendTransaction_error_reply _ demo.logging_node (λ t, t) [1] []
                  [("sendrawtransaction"%string, [demo.quoted "01"])] EmptyString
                  "-26: 16: bad-txns-in-belowout" eq_refl)
           "-26"%string " 16: bad-txns-in-belowout"%string eq_refl eq_refl).
Defined.

(** One bad address in the list: the node's log stays empty. *)
Lemma invalid_address_no_request_witness :
  @getTaddressBalanceZcashdRpc _ demo.logging_node demo.json [demo.taddr; "bad"%string] []
  = Return ([], (0, Some "invalid address"%string)).
Proof.
  apply (proj1 (@invalid_address_no_request _ demo.logging_node demo.json
                  [demo.taddr; "bad"%string] []
                  {| Arg_Addresses := []; Arg_StartHeight := 0; Arg_MaxEntries := 0 |}
                  (λ _, None)
                  {| Filter_Address := EmptyString; Filter_Range := None |})).
  exists "bad"%string. split; [set_solver|]. vm_compute. discriminate.
Defined.

(** From height 3 on and at most one entry: the utxo at height 2, whose
    txid does not decode, is passed over, and the one at height 5 is
    returned alone. *)
Lemma GetAddressUtxos_replies_witness :
  @GetAddressUtxos _ demo.logging_node demo.json
    {| Arg_Addresses := [demo.taddr]; Arg_StartHeight := 3; Arg_MaxEntries := 1 |} []
  = Return ([("getaddressutxos"%string, ["addresses"%string])],
            ([{| Reply_Address := "t1"; Reply_Txid := [255; 0]; Reply_Index := 0;
                 Reply_Script := [118; 169]; Reply_ValueZat := 10;
                 Reply_Height := 5 |}], None)).
Proof.
  set (arg := {| Arg_Addresses := [demo.taddr]; Arg_StartHeight := 3;
                 Arg_MaxEntries := 1 |}).
  assert (limit arg (filter (eligible arg) demo.utxos)
          = take 1 demo.utxos) as Hlimit by (vm_compute; reflexivity).
  assert (Forall (λ u, is_Some (hex_DecodeString (utxo_Txid u))
                       ∧ is_Some (hex_DecodeString (utxo_Script u)))
            (limit arg (filter (eligible arg) demo.utxos))) as Hdec.
  { rewrite Hlimit. apply Forall_singleton.
    split; vm_compute; eexists; reflexivity. }
  assert (Z.of_nat (length demo.utxos) < 2 ^ 32) as Hlen by (vm_compute; reflexivity).
  assert (0 ≤ Arg_MaxEntries arg) as Hmax by (vm_compute; discriminate).
  rewrite (@GetAddressUtxos_replies _ demo.logging_node demo.json arg []
             [("getaddressutxos"%string, ["addresses"%string])] "utxos" demo.utxos
             eq_refl eq_refl eq_refl Hmax Hlen Hdec).
  rewrite Hlimit. vm_compute. reflexivity.
Defined.

(** The mock does not serve the txids of a valid address. *)
Lemma address_queries_unsupported_by_mock_witness :
  @GetTaddressTxids _ (@darkside_backend demo.parser demo.json) demo.json
    {| Filter_Address := demo.taddr;
       Filter_Range :=
         Some {| Range_Start := Some {| BlockID_Height := 1; BlockID_Hash := None |};
                 Range_End := Some {| BlockID_Height := 9; BlockID_Hash := None |} |} |}
    demo.fresh
  = Return (demo.fresh, ([], Some "not implemented yet"%string)).
Proof.
  apply (proj1 (@address_queries_unsupported_by_mock demo.parser demo.json demo.fresh
                  demo.taddr {| BlockID_Height := 1; BlockID_Hash := None |}
                  {| BlockID_Height := 9; BlockID_Hash := None |} []
                  {| Arg_Addresses := []; Arg_StartHeight := 0; Arg_MaxEntries := 0 |}
                  (λ _, None))).
  vm_compute. reflexivity.
Defined.

(** Two good lines, a bad one, and a line that is never read. *)
Lemma DarksideStageBlocks_stops_at_bad_line_witness :
  DarksideStageBlocks (Body (["00ff"; "0102"] ++ "xyz" :: ["0304"]) None)
    demo.fresh
  = (set_stagedBlocks (stagedBlocks demo.fresh ++ [[0; 255]; [1; 2]]) demo.fresh,
     Some errHex).
Proof.
  assert (resetted demo.fresh = true) as Hreset by reflexivity.
  assert (Forall2 (λ line b, hex_DecodeString line = Some b)
            ["00ff"; "0102"] [[0; 255]; [1; 2]]) as Hgood
    by (repeat constructor).
  exact (proj2 (DarksideStageBlocks_stops_at_bad_line _ _ None demo.fresh Hreset Hgood)
           "xyz"%string ["0304"%string] eq_refl).
Defined.


(** A Commit of three synthetic blocks. *)
Lemma commit_frame_witness :
  resetted (demo.chain 5 3) = resetted (demo.staged 5 3)
  ∧ latestHeight (demo.chain 5 3) = 7
  ∧ stagedBlocks (demo.chain 5 3) = [].
Proof.
  destruct (@commit_frame demo.parser (demo.staged 5 3) (demo.chain 5 3) 7 None)
    as (Hr & _ & _ & _ & _ & _ & Hl & Hb & _).
  - vm_compute. reflexivity.
  - split; [exact Hr|]. split; [exact Hl|exact Hb].
Defined.

(** Before Reset: a streamed block, a Commit, a staged transaction and a
    transaction sent through the mock. *)
Lemma unreset_state_frozen_witness :
  ∃ s',
    @runs demo.parser demo.txparser demo.sha256
      [CallStageBlockStream "00"; CallApplyStaged 5; CallStageTransaction 1 [1];
       CallRawRequest "sendrawtransaction" [demo.quoted "01"]] zero_state
    = Return s'
    ∧ stagedBlocks s' = [[0]] ∧ incomingTransactions s' = [[1]]
    ∧ resetted s' = false ∧ activeBlocks s' = [] ∧ stagedTransactions s' = [].
Proof.
  eexists. split; [vm_compute; reflexivity|].
  split; [reflexivity|]. split; [reflexivity|].
  destruct (@unreset_state_frozen demo.parser demo.txparser demo.sha256
              [CallStageBlockStream "00"; CallApplyStaged 5;
               CallStageTransaction 1 [1];
               CallRawRequest "sendrawtransaction" [demo.quoted "01"]]
              zero_state
              (set_incomingTransactions [[1]] (set_stagedBlocks [[0]] zero_state)))
    as (Hr & Ha & Ht & _).
  - reflexivity.
  - reflexivity.
  - vm_compute. reflexivity.
  - split; [exact Hr|]. split; [exact Ha|exact Ht].
Defined.

(** After Reset: staging, a Commit and clearing leave the state reset. *)
Lemma reset_is_permanent_witness :
  ∃ s',
    @runs demo.parser demo.txparser demo.sha256
      [CallStageBlocksCreate 5 0 2; CallApplyStaged 6; CallClearIncomingTransactions]
      demo.fresh = Return s'
    ∧ resetted s' = true.
Proof.
  destruct (@runs demo.parser demo.txparser demo.sha256
              [CallStageBlocksCreate 5 0 2; CallApplyStaged 6;
               CallClearIncomingTransactions] demo.fresh) as [s'| |] eqn:Hruns;
    [|vm_compute in Hruns; discriminate..].
  exists s'. split; [reflexivity|].
  apply (@reset_is_permanent demo.parser demo.txparser demo.sha256
           [CallStageBlocksCreate 5 0 2; CallApplyStaged 6;
            CallClearIncomingTransactions] demo.fresh s'); [reflexivity|exact Hruns].
Defined.

(** With a transaction staged for the only block: a Commit, which places
    it and fails, and one more staged block later, Commit still fails. *)
Lemma staged_transaction_blocks_commit_witness :
  ∃ s1,
    @runs demo.parser demo.txparser demo.sha256
      [CallApplyStaged 0; CallStageBlocksCreate 1 0 1] demo.pending = Return s1
    ∧ ∀ h s2, @DarksideApplyStaged demo.parser s1 h ≠ Return (s2, None).
Proof.
  destruct (@runs demo.parser demo.txparser demo.sha256
              [CallApplyStaged 0; CallStageBlocksCreate 1 0 1] demo.pending)
    as [s1| |] eqn:Hruns; [|vm_compute in Hruns; discriminate..].
  exists s1. split; [reflexivity|].
  apply (@staged_transaction_blocks_commit demo.parser demo.txparser demo.sha256
           [CallApplyStaged 0; CallStageBlocksCreate 1 0 1] demo.pending s1).
  - vm_compute. discriminate.
  - reflexivity.
  - exact Hruns.
Defined.

Lemma demo_wellformed (height : Z) :
  0 ≤ height < 3 → @wellformed demo.parser (demo.block (5 + height)).
Proof.
  intros Hh.
  assert (height = 0 ∨ height = 1 ∨ height = 2) as [-> | [-> | ->]] by lia;
    (split; [vm_compute; eexists; reflexivity
            |apply Nat.leb_le; vm_compute; reflexivity]).
Qed.

(** Three staged synthetic blocks are committed. *)
Lemma commit_succeeds_witness :
  ∃ s', @DarksideApplyStaged demo.parser (demo.staged 5 3) 7 = Return (s', None)
        ∧ Forall (@wellformed demo.parser) (activeBlocks s').
Proof.
  assert (stagedBlocks (demo.staged 5 3)
          = [demo.block (5 + 0); demo.block (5 + 1); demo.block (5 + 2)]) as Hstaged
    by (vm_compute; reflexivity).
  destruct (@commit_succeeds demo.parser (demo.staged 5 3) 7
              demo_height_ignores_prevhash) as (s' & Hrun & Hwell & _).
  - reflexivity.
  - reflexivity.
  - apply Forall_nil_2.
  - rewrite Hstaged. repeat apply Forall_cons_2; try apply Forall_nil_2;
      apply demo_wellformed; lia.
  - exists s'. split; [exact Hrun|exact Hwell].
Defined.

(** Committing the chain of three blocks once more, with 9 as the tip. *)
Lemma recommit_keeps_chain_witness :
  @DarksideApplyStaged demo.parser (demo.chain 5 3) 9
  = Return (set_latestHeight 9 (demo.chain 5 3), None).
Proof.
  apply (@recommit_keeps_chain demo.parser (demo.staged 5 3) (demo.chain 5 3) 7 9
           demo_height_ignores_prevhash demo_hash32).
  vm_compute. reflexivity.
Defined.

(** An item that no exclude entry is a prefix of is kept. *)
Lemma MempoolFilter_sound_witness : "a"%string ∈ MempoolFilter ["b"; "a"] ["c"].
Proof.
  destruct (MempoolFilter_sound ["b"; "a"] ["c"]) as (_ & Hkept & _).
  apply Hkept.
  - apply list_elem_of_further, list_elem_of_here.
  - intros e ->%list_elem_of_singleton. reflexivity.
Defined.

(** The items in either order. *)
Lemma MempoolFilter_order_independent_witness :
  MempoolFilter ["b"; "a"] ["a"] = MempoolFilter ["a"; "b"] ["a"].
Proof.
  apply MempoolFilter_order_independent.
  - apply perm_swap.
  - apply Permutation_refl.
Defined.

(** The cached entry of a transaction that the node lists but no longer
    delivers is kept. *)
Lemma refresh_reuses_cache_witness :
  let tx := {| Index := 0; Hash := [7]; Fee := 0; Spends := []; Outputs := [] |} in
  let st := {| mempoolMap := Some {[ "aa"%string := tx ]}; mempoolList := [];
               lastMempool := 0 |} in
  ∃ st' new,
    @refresh demo.node_evicted demo.txparser 2000000000 st = (st', None)
    ∧ mempoolMap st' = Some new ∧ new !! "aa"%string = Some tx.
Proof.
  intros tx st.
  destruct (@refresh demo.node_evicted demo.txparser 2000000000 st)
    as [st' e] eqn:Hrefresh.
  assert (e = None) as ->.
  { apply (f_equal snd) in Hrefresh. vm_compute in Hrefresh. congruence. }
  destruct (@refresh_reuses_cache demo.node_evicted demo.txparser 2000000000 st st'
              {[ "aa"%string := tx ]} ["aa"%string])
    as (_ & _ & new & Hnew & _ & Hkept).
  - reflexivity.
  - vm_compute. discriminate.
  - reflexivity.
  - exact Hrefresh.
  - exists st', new. split; [reflexivity|]. split; [exact Hnew|].
    apply Hkept; [apply list_elem_of_here|]. apply lookup_singleton_eq.
Defined.


(** A cache with one id, then Reset, then a query five nanoseconds after
    the last refresh. *)
Lemma Reset_clears_mempool_witness :
  @GetMempoolTx demo.node_evicted demo.txparser [] 5 demo.mempool0
  = Return (demo.mempool0, [], None).
Proof.
  apply (@Reset_clears_mempool demo.node_evicted demo.txparser 0 "2bb40e60" "main"
           zero_state demo.fresh
           {| mempoolMap := Some ∅; mempoolList := ["aa"%string]; lastMempool := 0 |}
           demo.mempool0 [] 5).
  - reflexivity.
  - vm_compute. reflexivity.
Defined.

(** Reset for the main chain, two staged blocks and a Commit. *)
Lemma getblockchaininfo_reports_reset_witness :
  ∃ s',
    @runs demo.parser demo.txparser demo.sha256
      [CallStageBlocksCreate 5 0 2; CallApplyStaged 6]
      (DarksideReset 419200 "2bb40e60" "main" zero_state).1 = Return s'
    ∧ @darksideRawRequest demo.parser "getblockchaininfo" [] s'
      = Return (s', (Blockchaininfo "main" "76b809bb" 419200 (latestHeight s')
                       "2bb40e60" "2bb40e60", None)).
Proof.
  destruct (@runs demo.parser demo.txparser demo.sha256
              [CallStageBlocksCreate 5 0 2; CallApplyStaged 6]
              (DarksideReset 419200 "2bb40e60" "main" zero_state).1)
    as [s'| |] eqn:Hruns; [|vm_compute in Hruns; discriminate..].
  exists s'. split; [reflexivity|].
  apply (@getblockchaininfo_reports_reset demo.parser demo.txparser demo.sha256
           419200 "2bb40e60" "main" [CallStageBlocksCreate 5 0 2; CallApplyStaged 6]
           zero_state s' []); [reflexivity|exact Hruns].
Defined.

(** Two transactions submitted before any Reset are read back. *)
Lemma incoming_transactions_roundtrip_witness :
  ∃ s',
    @submit demo.parser demo.json (λ t, t) [[1; 2]; [255]] zero_state = Return s'
    ∧ GetIncomingTransactions (λ _, None) s'
      = ([{| Data := [1; 2]; RawTransaction_Height := 0 |};
          {| Data := [255]; RawTransaction_Height := 0 |}], None).
Proof.
  assert (Forall (Forall is_byte) [[1; 2]; [255]]) as Hdatas
    by (apply (bool_decide_unpack _); vm_compute; reflexivity).
  destruct (@incoming_transactions_roundtrip demo.parser demo.json (λ t, t)
              [[1; 2]; [255]] zero_state Hdatas) as (s' & Hrun & Hread & _).
  exists s'. split; [exact Hrun|exact Hread].
Defined.

End MoreWitnesses.
